(** * Gift-finder assistant: search route, product lookup, UI schema, PLP grid

    A shallow embedding of the TypeScript sources

      - [app/api/tools/gift_finder/search_redis/route.ts]  (POST)
      - the route handler of [/api/tools/gift_finder/get_product]  (GET)
      - [lib/redis.ts]                                     (envRedis)
      - [lib/tools/generate-ui-tool.ts]                    (generateUITool)
      - [config/ui/components.tsx]                         (PlpGridComponent)

    Conventions of the embedding.

      - A JavaScript number is a [number]: NaN, the two infinities, or a
        finite value given by the rational it denotes.  The code inspects
        differences and products only through their sign or through
        comparison, and the sign of an IEEE difference of finite doubles
        is the sign of the exact difference, so finite arithmetic is done
        on rationals.  A finite value that is not itself a double (the
        exact product [kLimit * 3] for a fractional [k]) stands for the
        double nearest to it: the two compare alike with every double,
        and [NumberToString] is the text of that double.  Signed zero is
        not tracked.
      - A JavaScript string is a [string] of 8-bit code units, the code
        units below 256; the white space class of [\s] and of [trim] and
        the case mapping of [toLowerCase] are their restrictions to
        these.  Texts with other code units are outside the embedding.
      - [Array.prototype.sort] is a stable insertion sort.  The language
        fixes the result of a sort when the comparator is consistent; a
        comparator that returns NaN (a NaN price or score) is not, and
        the order is then the engine's.  Every statement that speaks of
        the order of a sorted list carries the hypothesis that no key is
        NaN.
      - [undefined] is [None] of an [option]; JSON [null] is [JNull].
      - Objects are association lists in insertion order.
      - Awaited calls to collaborators (the embedding provider, the Redis
        client) are events of a free monad [prog]; a [world] answers them. *)

From Stdlib Require Import QArith Qround Lqa ZArith List String Ascii Bool Arith Lia.
From Stdlib Require Import Sorting.Sorted Sorting.Permutation DecimalString.
Import ListNotations.
Local Open Scope string_scope.
Set Warnings "-register-all,-abstract-large-number".


(** ** JavaScript numbers *)

Inductive number : Type :=
| NaN
| NegInf
| Fin (q : Q)
| PosInf.

Definition num (z : Z) : number := Fin (inject_Z z).

(** The three-way comparison of two numbers; [None] when one is NaN. *)
Definition num_compare (a b : number) : option comparison :=
  match a, b with
  | NaN, _ | _, NaN => None
  | NegInf, NegInf => Some Eq
  | NegInf, _ => Some Lt
  | _, NegInf => Some Gt
  | PosInf, PosInf => Some Eq
  | PosInf, _ => Some Gt
  | _, PosInf => Some Lt
  | Fin p, Fin q => Some (Qcompare p q)
  end.

(** [a === b] on numbers. *)
Definition num_eqb (a b : number) : bool :=
  match num_compare a b with Some Eq => true | _ => false end.

(** [a < b], [a <= b], [a >= b]. *)
Definition num_ltb (a b : number) : bool :=
  match num_compare a b with Some Lt => true | _ => false end.

Definition num_leb (a b : number) : bool :=
  match num_compare a b with Some Lt | Some Eq => true | _ => false end.

Definition num_geb (a b : number) : bool := num_leb b a.

Definition num_opp (a : number) : number :=
  match a with
  | NaN => NaN
  | NegInf => PosInf
  | PosInf => NegInf
  | Fin q => Fin (- q)
  end.

(** [a - b]. *)
Definition num_sub (a b : number) : number :=
  match a, b with
  | NaN, _ | _, NaN => NaN
  | PosInf, PosInf | NegInf, NegInf => NaN
  | PosInf, _ | _, NegInf => PosInf
  | NegInf, _ | _, PosInf => NegInf
  | Fin p, Fin q => Fin (p - q)
  end.

(** The sign of a number that is not NaN. *)
Definition num_sign (a : number) : option comparison := num_compare a (num 0).

(** [a * b], as the product of the values.  The code's product is the
    double nearest to it; see the conventions. *)
Definition num_mul (a b : number) : number :=
  match a, b with
  | Fin p, Fin q => Fin (p * q)
  | _, _ =>
      match num_sign a, num_sign b with
      | Some Eq, _ | _, Some Eq => NaN
      | Some Lt, Some Lt | Some Gt, Some Gt => PosInf
      | Some Lt, Some Gt | Some Gt, Some Lt => NegInf
      | None, _ | _, None => NaN
      end
  end.

(** [Math.min(a, b)] and [Math.max(a, b)]. *)
Definition Math_min (a b : number) : number :=
  match num_compare a b with
  | None => NaN
  | Some Gt => b
  | Some _ => a
  end.

Definition Math_max (a b : number) : number :=
  match num_compare a b with
  | None => NaN
  | Some Lt => b
  | Some _ => a
  end.

(** ToBoolean on a number: [0] and [NaN] are falsy. *)
Definition truthy_number (a : number) : bool :=
  match a with
  | NaN => false
  | Fin q => negb (Qeq_bool q 0)
  | _ => true
  end.

(** ToIntegerOrInfinity of a finite value: truncation towards zero. *)
Definition Qtrunc (q : Q) : Z := Z.quot (Qnum q) (Zpos (Qden q)).

(** ** Arrays *)

(** The exclusive end index of [slice(0, e)] on an array of [len]
    elements: a negative [e] counts from the end, NaN is 0. *)
Definition slice_end (len : nat) (e : number) : nat :=
  match e with
  | NaN | NegInf => 0%nat
  | PosInf => len
  | Fin q =>
      let r := Qtrunc q in
      if (r <? 0)%Z then Z.to_nat (Z.max (Z.of_nat len + r) 0)
      else Nat.min (Z.to_nat r) len
  end.

Definition slice0 {A : Type} (l : list A) (e : number) : list A :=
  firstn (slice_end (List.length l) e) l.

(** [Array.prototype.sort] with a comparator, read through the sign of
    what it returns: a positive value puts the second argument first,
    anything else (negative, zero, NaN) keeps the earlier element first.
    The sort is stable; on a consistent comparator the standard fixes the
    result, and this insertion sort computes it.  On a comparator that
    returns NaN for some pairs the standard leaves the order to the
    engine, and this definition is then one possible order, not the
    engine's. *)
Definition comes_after (v : number) : bool :=
  match num_sign v with Some Gt => true | _ => false end.

Fixpoint sort_insert {A : Type} (cmp : A -> A -> number) (x : A) (l : list A)
  : list A :=
  match l with
  | [] => [x]
  | y :: l' => if comes_after (cmp x y) then y :: sort_insert cmp x l'
               else x :: l
  end.

Definition sort {A : Type} (cmp : A -> A -> number) (l : list A) : list A :=
  fold_right (sort_insert cmp) [] l.

(** ** Strings *)

Definition is_empty (s : string) : bool :=
  match s with EmptyString => true | _ => false end.

(** The code units matched by [\s] and stripped by [trim]. *)
Definition is_space (c : ascii) : bool :=
  let n := nat_of_ascii c in
  ((9 <=? n) && (n <=? 13) || (n =? 32) || (n =? 160))%nat.

Definition is_nul (c : ascii) : bool := (nat_of_ascii c =? 0)%nat.

(** [s.replace(/\x00/g, ' ')]. *)
Fixpoint replace_nul (s : string) : string :=
  match s with
  | EmptyString => EmptyString
  | String c s' => String (if is_nul c then " "%char else c) (replace_nul s')
  end.

Fixpoint drop_spaces (s : string) : string :=
  match s with
  | String c s' => if is_space c then drop_spaces s' else s
  | EmptyString => EmptyString
  end.

(** [s.replace(/\s+/g, ' ')]: every maximal run of white space becomes
    one space. *)
Fixpoint collapse_spaces (s : string) : string :=
  match s with
  | EmptyString => EmptyString
  | String c s' =>
      if is_space c
      then match s' with
           | String d _ => if is_space d then collapse_spaces s'
                           else String " "%char (collapse_spaces s')
           | EmptyString => String " "%char EmptyString
           end
      else String c (collapse_spaces s')
  end.

Fixpoint all_spaces (s : string) : bool :=
  match s with
  | EmptyString => true
  | String c s' => is_space c && all_spaces s'
  end.

Fixpoint trim_end (s : string) : string :=
  match s with
  | EmptyString => EmptyString
  | String c s' => if all_spaces s then EmptyString else String c (trim_end s')
  end.

(** [s.trim()]. *)
Definition trim (s : string) : string := trim_end (drop_spaces s).

(** [s.slice(0, n)] for a non-negative integer [n]. *)
Definition str_slice0 (s : string) (n : nat) : string := substring 0 n s.

Fixpoint join (sep : string) (l : list string) : string :=
  match l with
  | [] => ""
  | [s] => s
  | s :: l' => s ++ sep ++ join sep l'
  end.

(** ** JSON values *)

Inductive json : Type :=
| JNull
| JBool (b : bool)
| JNum (n : number)
| JStr (s : string)
| JArr (l : list json)
| JObj (kv : list (string * json)).

(** A possibly [undefined] value. *)
Definition value := option json.

Fixpoint obj_get {V : Type} (k : string) (kv : list (string * V)) : option V :=
  match kv with
  | [] => None
  | (k', v) :: kv' => if String.eqb k k' then Some v else obj_get k kv'
  end.

(** Defining an own property: an existing key keeps its place. *)
Fixpoint obj_set {V : Type} (k : string) (v : V) (kv : list (string * V))
  : list (string * V) :=
  match kv with
  | [] => [(k, v)]
  | (k', v') :: kv' =>
      if String.eqb k k' then (k, v) :: kv' else (k', v') :: obj_set k v kv'
  end.

(** [{...a, ...b}]. *)
Definition obj_spread {V : Type} (a b : list (string * V)) : list (string * V) :=
  fold_left (fun acc p => obj_set (fst p) (snd p) acc) b a.

Definition obj_keys {V : Type} (kv : list (string * V)) : list string :=
  map fst kv.

(** Property read [x.k] on a parsed JSON value, for a key that no
    prototype defines: only objects have it. *)
Definition get_prop (k : string) (x : json) : value :=
  match x with
  | JObj kv => obj_get k kv
  | _ => None
  end.

(** ToBoolean. *)
Definition truthy (x : json) : bool :=
  match x with
  | JNull => false
  | JBool b => b
  | JNum n => truthy_number n
  | JStr s => negb (is_empty s)
  | JArr _ | JObj _ => true
  end.

Definition truthy_value (x : value) : bool :=
  match x with Some j => truthy j | None => false end.

(** [a || b] on possibly undefined values. *)
Definition or_else (a b : value) : value :=
  if truthy_value a then a else b.

(** [x != null]: neither [undefined] nor [null]. *)
Definition not_nullish (x : value) : bool :=
  match x with
  | None | Some JNull => false
  | Some _ => true
  end.

(** The primitives of the language runtime that the sources call and
    that are taken as given. *)
Class JsPrims : Type := {
  (** [Number(s)] on a string *)
  StringToNumber : string -> number;
  (** [String(n)] on a number, a finite [n] standing for the double
      nearest to it *)
  NumberToString : number -> string;
  (** [JSON.parse(s)]; [None] when it throws *)
  JSON_parse : string -> option json;
  (** [buf.toString()] on a Buffer holding the given bytes *)
  BufferToString : string -> string
}.

Section JsConversions.
Context {prims : JsPrims}.

(** [String(x)]. *)
Fixpoint ToString (x : json) : string :=
  match x with
  | JNull => "null"
  | JBool true => "true"
  | JBool false => "false"
  | JNum n => NumberToString n
  | JStr s => s
  | JArr l =>
      join "," (map (fun y => match y with JNull => "" | _ => ToString y end) l)
  | JObj _ => "[object Object]"
  end.

(** [Number(x)]. *)
Definition ToNumber (x : json) : number :=
  match x with
  | JNull => num 0
  | JBool true => num 1
  | JBool false => num 0
  | JNum n => n
  | JStr s => StringToNumber s
  | JArr _ => StringToNumber (ToString x)
  | JObj _ => NaN
  end.
End JsConversions.

(** ** Awaited calls, thrown errors *)

(** A thrown value, as the handlers read it: [error?.message] and
    [String(error)]. *)
Record jserror : Type := { err_message : string; err_string : string }.

(** [error?.message || String(error)]. *)
Definition error_text (e : jserror) : string :=
  if is_empty (err_message e) then err_string e else err_message e.

(** The TypeError of reading [length] of [undefined] or of [null];
    [what] is the word the engine prints for the value read. *)
Definition type_error (what : string) : jserror :=
  {| err_message := "Cannot read properties of " ++ what ++ " (reading 'length')";
     err_string :=
       "TypeError: Cannot read properties of " ++ what ++ " (reading 'length')" |}.

(** What the Redis client hands back. *)
Inductive reply : Type :=
| RNull
| RInt (z : Z)
| RStr (s : string)
| RBuf (bytes : string)
| RArr (l : list reply).

(** [Buffer.from(new Float32Array(arr).buffer)]. *)
Inductive buffer : Type := Float32Buffer (arr : list number).

(** An argument of a Redis command: [string | Buffer]. *)
Inductive arg : Type :=
| AStr (s : string)
| ABuf (b : buffer).

(** The calls the handlers await.  [embeddings_create] stands for
    [new OpenAI()], the call [openai.embeddings.create] and the read of
    [emb.data[0].embedding]: it is fulfilled with the embedding and
    rejected when any of the three throws. *)
Variant event : Type -> Type :=
| getRedisClient : event unit
| embeddings_create (model : string) (input : list string) (dimensions : number)
  : event (list number)
| sendCommand (args : list arg) : event reply.

Inductive outcome (X : Type) : Type :=
| Fulfilled (x : X)
| Rejected (e : jserror).
Arguments Fulfilled {X} x.
Arguments Rejected {X} e.

Inductive prog (R : Type) : Type :=
| Ret (r : R)
| Throw (e : jserror)
| Await {X : Type} (ev : event X) (k : outcome X -> prog R).
Arguments Ret {R} r.
Arguments Throw {R} e.
Arguments Await {R X} ev k.

Fixpoint bind {A B : Type} (p : prog A) (f : A -> prog B) : prog B :=
  match p with
  | Ret a => f a
  | Throw e => Throw e
  | Await ev k => Await ev (fun o => bind (k o) f)
  end.

(** [try { p } catch (e) { h e }]. *)
Fixpoint try_catch {A : Type} (p : prog A) (h : jserror -> prog A) : prog A :=
  match p with
  | Ret a => Ret a
  | Throw e => h e
  | Await ev k => Await ev (fun o => try_catch (k o) h)
  end.

(** [await ev]: a rejection is thrown. *)
Definition await {X : Type} (ev : event X) : prog X :=
  Await ev (fun o => match o with Fulfilled x => Ret x | Rejected e => Throw e end).

Declare Scope prog_scope.
Delimit Scope prog_scope with prog.
Notation "x <- p ;; q" := (bind p (fun x => q))
  (at level 61, p at next level, right associativity) : prog_scope.

(** One answered call. *)
Inductive entry : Type :=
| Called {X : Type} (ev : event X) (o : outcome X).

(** The collaborators: they answer a call knowing what was called before. *)
Definition world : Type := forall X : Type, list entry -> event X -> outcome X.

(** Running a program after the calls [hist]: the calls it makes, in
    order, and what it returns or throws. *)
Fixpoint run {R : Type} (w : world) (hist : list entry) (p : prog R)
  : list entry * (R + jserror) :=
  match p with
  | Ret r => ([], inl r)
  | Throw e => ([], inr e)
  | Await ev k =>
      let o := w _ hist ev in
      let (t, r) := run w (hist ++ [Called ev o])%list (k o) in
      (Called ev o :: t, r)
  end.

(** The Redis commands among the calls, each with whether it succeeded. *)
Definition command_of (c : entry) : option (list arg * bool) :=
  match c with
  | Called (sendCommand args) (Fulfilled _) => Some (args, true)
  | Called (sendCommand args) (Rejected _) => Some (args, false)
  | Called _ _ => None
  end.

Fixpoint commands (t : list entry) : list (list arg * bool) :=
  match t with
  | [] => []
  | c :: t' => match command_of c with
               | Some x => x :: commands t'
               | None => commands t'
               end
  end.

Definition is_search (c : list arg * bool) : bool :=
  match fst c with
  | AStr s :: _ => String.eqb s "FT.SEARCH"
  | _ => false
  end.

(** The index queries among the calls. *)
Definition searches (t : list entry) : list (list arg * bool) :=
  filter is_search (commands t).

(** The inputs handed to the embedding provider. *)
Fixpoint embedded (t : list entry) : list (list string) :=
  match t with
  | [] => []
  | Called (embeddings_create _ input _) _ :: t' => input :: embedded t'
  | Called _ _ :: t' => embedded t'
  end.

(** ** lib/redis.ts *)

Record process_env : Type := {
  env_INDEX_NAME : option string;
  env_JSON_PREFIX : option string;
  env_VEC_PREFIX : option string;
  env_EMBED_DIM : option string;
  env_EMBED_MODEL : option string
}.

(** [process.env.X || dflt]. *)
Definition env_or (x : option string) (dflt : string) : string :=
  match x with
  | Some s => if is_empty s then dflt else s
  | None => dflt
  end.

Definition INDEX_NAME (env : process_env) : string :=
  env_or (env_INDEX_NAME env) "idx:products".
Definition JSON_PREFIX (env : process_env) : string :=
  env_or (env_JSON_PREFIX env) "prod:".
Definition VEC_PREFIX (env : process_env) : string :=
  env_or (env_VEC_PREFIX env) "vec:".

(** ** Responses *)

(** A result row of the search, as the handler builds it.  [None] is
    [undefined] (the field is left out of the response), except for
    [brand], [category] and [keywords], where it is [null]. *)
Record row : Type := {
  code : option string;
  title : option string;
  brand : option string;
  category : option string;
  keywords : option string;
  price : option number;
  score : option number;
  product : option json
}.

(** The object handed to [JSON.stringify]. *)
Inductive payload : Type :=
| ErrorPayload (error : string) (details : option string)
| SearchPayload (count : nat) (k : number) (min_price max_price : value)
    (sort_by : string) (mode_used : string) (items : list row)
| ProductPayload (found : bool) (code_out : json) (product_out : json).

Record response : Type := { status : Z; body : payload }.

Definition items_of (r : response) : option (list row) :=
  match body r with
  | SearchPayload _ _ _ _ _ _ items => Some items
  | _ => None
  end.

(** ** app/api/tools/gift_finder/search_redis/route.ts *)

Section SearchRedis.
Context {prims : JsPrims}.
Variable env : process_env.

Local Open Scope prog_scope.

(** [sanitize(t, max = 12000)]. *)
Definition sanitize (t : value) (max : nat) : string :=
  let s := match t with
           | None | Some JNull => ""
           | Some j => ToString j
           end in
  let s := trim (collapse_spaces (replace_nul s)) in
  let s := if is_empty s then "." else s in
  if (max <? String.length s)%nat then str_slice0 s max else s.

(** The destructured request body, defaults applied. *)
Record request : Type := {
  query_text : value;
  req_k : json;
  min_price : value;
  max_price : value;
  include_details : json;
  expanded : value;
  sort_by : value
}.

Definition with_default (v : value) (d : json) : json :=
  match v with Some j => j | None => d end.

(** [const { query_text, k = 8, ... } = body || {}]. *)
Definition destructure (b : json) : request :=
  let b := if truthy b then b else JObj [] in
  {| query_text := get_prop "query_text" b;
     req_k := with_default (get_prop "k" b) (JNum (num 8));
     min_price := get_prop "min_price" b;
     max_price := get_prop "max_price" b;
     include_details := with_default (get_prop "include_details" b) (JBool true);
     expanded := get_prop "expanded" b;
     sort_by := get_prop "sort_by" b |}.

(** [!query_text || typeof query_text !== 'string'] *)
Definition missing_query_text (q : value) : bool :=
  match q with
  | Some (JStr s) => is_empty s
  | _ => true
  end.

(** The price-only filter. *)
Definition filterExpr (r : request) : string :=
  if not_nullish (min_price r) || not_nullish (max_price r) then
    let lo := match min_price r with
              | Some j => if not_nullish (Some j) then ToString j else "-inf"
              | None => "-inf"
              end in
    let hi := match max_price r with
              | Some j => if not_nullish (Some j) then ToString j else "+inf"
              | None => "+inf"
              end in
    join " " ["(@price:[" ++ lo ++ " " ++ hi ++ "]|@prezzo:[" ++ lo ++ " " ++ hi ++ "])"]
  else "*".

Definition expandedQuery (r : request) : string :=
  let q := sanitize (query_text r) 12000 in
  if truthy_value (expanded r) then q ++ " alternative simili correlati" else q.

Definition embDim : number :=
  StringToNumber (env_or (env_EMBED_DIM env) "1024").

Definition embedModel : string :=
  env_or (env_EMBED_MODEL env) "text-embedding-3-large".

Inductive ordering : Type := price_asc | price_desc.

Definition ordering_name (o : ordering) : string :=
  match o with price_asc => "price_asc" | price_desc => "price_desc" end.

(** [sort_by === 'price_desc' ? 'price_desc' : 'price_asc'] *)
Definition order (r : request) : ordering :=
  match sort_by r with
  | Some (JStr s) => if String.eqb s "price_desc" then price_desc else price_asc
  | _ => price_asc
  end.

(** [x || 5] on a number. *)
Definition or5 (x : number) : number :=
  if truthy_number x then x else num 5.

(** [Math.min(5, Number(k) || 5)] *)
Definition kLimit (r : request) : number :=
  Math_min (num 5) (or5 (ToNumber (req_k r))).

(** [Math.min(50, Math.max(kLimit, kLimit * 3))] *)
Definition kQuery (r : request) : number :=
  Math_min (num 50) (Math_max (kLimit r) (num_mul (kLimit r) (num 3))).

Definition returnFields : list string :=
  ["code"; "title"; "brand"; "category"; "keywords"; "price"; "prezzo"; "score"].

Definition argsWithDialect (r : request) (vec : buffer) : list arg :=
  ([AStr "FT.SEARCH";
    AStr (INDEX_NAME env);
    AStr ("(" ++ filterExpr r ++ ")=>[KNN " ++ NumberToString (kQuery r)
          ++ " @embedding $vec AS score]");
    AStr "PARAMS"; AStr "2"; AStr "vec"; ABuf vec;
    AStr "SORTBY"; AStr "score";
    AStr "LIMIT"; AStr "0"; AStr (NumberToString (kQuery r));
    AStr "RETURN";
    AStr (NumberToString (num (Z.of_nat (List.length returnFields))))]
   ++ map AStr returnFields
   ++ [AStr "DIALECT"; AStr "2"])%list.

(** [a.slice(0, -2)] *)
Definition argsNoDialect (r : request) (vec : buffer) : list arg :=
  slice0 (argsWithDialect r vec) (num (-2)).

(** [String(x)] on a reply value. *)
Fixpoint reply_String (x : reply) : string :=
  match x with
  | RNull => "null"
  | RInt z => NumberToString (num z)
  | RStr s => s
  | RBuf b => BufferToString b
  | RArr l =>
      join "," (map (fun y => match y with RNull => "" | _ => reply_String y end) l)
  end.

(** [typeof v === 'string' ? v : v?.toString?.()] *)
Definition reply_text (v : option reply) : option string :=
  match v with
  | None | Some RNull => None
  | Some x => Some (reply_String x)
  end.

(** [typeof v === 'string' ? v : v?.toString?.() ?? ''] *)
Definition field_text (v : option reply) : string :=
  match reply_text v with Some s => s | None => "" end.

(** The indexed elements [x[0], ..., x[x.length - 1]] of a reply value;
    [None] when reading [x.length] throws.  A string has its characters,
    a Buffer its bytes, a number has no [length] and so no elements. *)
Definition elements (x : reply) : option (list reply) :=
  match x with
  | RNull => None
  | RInt _ => Some []
  | RStr s => Some (map (fun c => RStr (String c EmptyString)) (list_ascii_of_string s))
  | RBuf b => Some (map (fun c => RInt (Z.of_nat (nat_of_ascii c))) (list_ascii_of_string b))
  | RArr l => Some l
  end.

(** [obj[f] = v] on a plain object: an assignment to [__proto__] of a
    string leaves the object as it is. *)
Definition assign (f v : string) (obj : list (string * string))
  : list (string * string) :=
  if String.eqb f "__proto__" then obj else obj_set f v obj.

(** The inner loop: alternating field names and values. *)
Fixpoint doc_fields (doc : list reply) (obj : list (string * string))
  : list (string * string) :=
  match doc with
  | [] => obj
  | [f] => assign (reply_String f) (field_text None) obj
  | f :: v :: rest => doc_fields rest (assign (reply_String f) (field_text (Some v)) obj)
  end.

(** [x ?? null] where [None] stands for [null]. *)
Definition or_null (x : option string) : option string := x.

Definition row_of (obj : list (string * string)) : row :=
  {| code := obj_get "code" obj;
     title := obj_get "title" obj;
     brand := or_null (obj_get "brand" obj);
     category := or_null (obj_get "category" obj);
     keywords := or_null (obj_get "keywords" obj);
     price := match obj_get "price" obj with
              | Some p => Some (StringToNumber p)
              | None => match obj_get "prezzo" obj with
                        | Some p => Some (StringToNumber p)
                        | None => None
                        end
              end;
     score := match obj_get "score" obj with
              | Some s => if is_empty s then None else Some (StringToNumber s)
              | None => None
              end;
     product := None |}.

Definition set_product (r : row) (j : json) : row :=
  {| code := code r; title := title r; brand := brand r;
     category := category r; keywords := keywords r;
     price := price r; score := score r; product := Some j |}.

Definition clear_product (r : row) : row :=
  {| code := code r; title := title r; brand := brand r;
     category := category r; keywords := keywords r;
     price := price r; score := score r; product := None |}.

(** What a fulfilled [JSON.GET] makes of the row: the text is parsed
    when it is not empty; a parse error is thrown. *)
Definition attach (r : row) (jraw : reply) : prog row :=
  match reply_text (Some jraw) with
  | Some jtext =>
      if is_empty jtext then Ret r
      else match JSON_parse jtext with
           | Some j => Ret (set_product r j)
           | None => Throw {| err_message := "Unexpected token in JSON";
                              err_string := "SyntaxError: Unexpected token in JSON" |}
           end
  | None => Ret r
  end.

(** [if (include_details && code) { try { ... } catch {} }] *)
Definition join_detail (details : bool) (r : row) : prog row :=
  match code r with
  | Some c =>
      if details && negb (is_empty c) then
        try_catch
          (jraw <- await (sendCommand [AStr "JSON.GET"; AStr (JSON_PREFIX env ++ c)]) ;;
           attach r jraw)
          (fun _ => Ret r)
      else Ret r
  | None => Ret r
  end.

(** The loop [for (let i = 1; i < raw.length; i += 2)], from [raw[i]] on.
    A key without a document after it leaves [doc] undefined, and a
    document may be [null]: reading [doc.length] throws. *)
Fixpoint collect (details : bool) (l : list reply) : prog (list row) :=
  match l with
  | [] => Ret []
  | [_] => Throw (type_error "undefined")
  | _ :: doc :: rest =>
      match elements doc with
      | None => Throw (type_error "null")
      | Some fs =>
          r <- join_detail details (row_of (doc_fields fs [])) ;;
          rs <- collect details rest ;;
          Ret (r :: rs)
      end
  end.

Definition collect_rows (details : bool) (raw : reply) : prog (list row) :=
  match elements raw with
  | None => Throw (type_error "null")
  | Some [] => Ret []
  | Some (_ :: l) => collect details l
  end.

(** The keys of the comparator. *)
Definition price_key (a : row) : number :=
  match price a with Some p => p | None => PosInf end.

Definition score_key (a : row) : number :=
  match score a with Some s => s | None => num 0 end.

Definition dir (o : ordering) : number :=
  match o with price_asc => num 1 | price_desc => num (-1) end.

(** The comparator of the final [sort]. *)
Definition compare_rows (o : ordering) (a b : row) : number :=
  let pa := price_key a in
  let pb := price_key b in
  if num_eqb pa pb then num_sub (score_key a) (score_key b)
  else num_mul (dir o) (num_sub pa pb).

(** [items.slice().sort(...).slice(0, kLimit)] *)
Definition arrange (o : ordering) (limit : number) (items : list row) : list row :=
  slice0 (sort (compare_rows o) items) limit.

Definition search_response (r : request) (items : list row) : response :=
  let out := arrange (order r) (kLimit r) items in
  {| status := 200;
     body := SearchPayload (List.length out) (kLimit r) (min_price r) (max_price r)
               (ordering_name (order r)) "semantic" out |}.

(** The index query: one attempt with the dialect flag, and on failure
    one without. *)
Definition query_index (r : request) (vec : buffer) : prog reply :=
  try_catch (await (sendCommand (argsWithDialect r vec)))
            (fun _ => await (sendCommand (argsNoDialect r vec))).

(** The handler, from the destructured request on. *)
Definition handle (r : request) : prog response :=
  if missing_query_text (query_text r) then
    Ret {| status := 400; body := ErrorPayload "Missing query_text" None |}
  else
    _ <- await getRedisClient ;;
    emb <- await (embeddings_create embedModel [expandedQuery r] embDim) ;;
    raw <- query_index r (Float32Buffer emb) ;;
    items <- collect_rows (truthy (include_details r)) raw ;;
    Ret (search_response r items).

Definition POST_body (b : json) : prog response := handle (destructure b).

(** [export async function POST(req)]: [req_json] is what [req.json()]
    settles to. *)
Definition POST (req_json : outcome json) : prog response :=
  try_catch
    (b <- match req_json with Fulfilled b => Ret b | Rejected e => Throw e end ;;
     POST_body b)
    (fun error =>
       Ret {| status := 500;
              body := ErrorPayload "Failed to query Redis" (Some (error_text error)) |}).
End SearchRedis.

(** ** The route handler of [/api/tools/gift_finder/get_product] *)

Section GetProduct.
Context {prims : JsPrims}.
Variable env : process_env.

Local Open Scope prog_scope.

(** [url.searchParams.get(name) || undefined] *)
Definition search_param (name : string) (params : list (string * string))
  : option string :=
  match obj_get name params with
  | Some s => if is_empty s then None else Some s
  | None => None
  end.

(** [id || code] when one of them is set. *)
Definition lookup_id (code id : option string) : string :=
  match id, code with
  | Some i, _ => i
  | None, Some c => c
  | None, None => "undefined"
  end.

(** [jtext ? JSON.parse(jtext) : null], a parse error being thrown. *)
Definition parse_product (jraw : reply) : prog json :=
  match reply_text (Some jraw) with
  | Some jtext =>
      if is_empty jtext then Ret JNull
      else match JSON_parse jtext with
           | Some j => Ret j
           | None => Throw {| err_message := "Unexpected token in JSON";
                              err_string := "SyntaxError: Unexpected token in JSON" |}
           end
  | None => Ret JNull
  end.

Definition str_value (x : option string) : value :=
  match x with Some s => Some (JStr s) | None => None end.

(** [(product && (product.code || product.id)) || code || id || null] *)
Definition codeOut (product : json) (code id : option string) : json :=
  let own := if truthy product
             then or_else (get_prop "code" product) (get_prop "id" product)
             else Some product in
  match or_else (or_else (or_else own (str_value code)) (str_value id)) (Some JNull) with
  | Some j => j
  | None => JNull
  end.

Definition GET (params : list (string * string)) : prog response :=
  try_catch
    (let code := search_param "code" params in
     let id := search_param "id" params in
     match code, id with
     | None, None =>
         Ret {| status := 400; body := ErrorPayload "Missing code or id" None |}
     | _, _ =>
         _ <- await getRedisClient ;;
         let jsonKey := JSON_PREFIX env ++ lookup_id code id in
         product <- try_catch
                      (jraw <- await (sendCommand [AStr "JSON.GET"; AStr jsonKey]) ;;
                       parse_product jraw)
                      (fun _ => Ret JNull) ;;
         Ret {| status := 200;
                body := ProductPayload (truthy product) (codeOut product code id)
                          product |}
     end)
    (fun _ =>
       Ret {| status := 500; body := ErrorPayload "Failed to fetch product" None |}).
End GetProduct.

(** ** config/ui/components.tsx: PlpGridComponent *)

Section PlpGrid.
Context {prims : JsPrims}.

(** [columns && columns >= 1 ? Math.min(columns, 6) : 3] *)
Definition cols (columns : value) : number :=
  match columns with
  | Some j =>
      if truthy j && num_geb (ToNumber j) (num 1)
      then Math_min (ToNumber j) (num 6)
      else num 3
  | None => num 3
  end.

Definition gridColsClass (columns : value) : string :=
  let c := cols columns in
  if num_eqb c (num 2) then "md:grid-cols-2"
  else if num_eqb c (num 4) then "md:grid-cols-4"
  else if num_eqb c (num 5) then "md:grid-cols-5"
  else if num_eqb c (num 6) then "md:grid-cols-6"
  else "md:grid-cols-3".

(** [typeof a?.match === 'number' ? a.match : 0]; the [match] of a
    string is a method, not a number. *)
Definition match_of (a : json) : number :=
  match get_prop "match" a with
  | Some (JNum n) => n
  | _ => num 0
  end.

(** [(a, b) => mb - ma] *)
Definition by_match_desc (a b : json) : number :=
  num_sub (match_of b) (match_of a).

(** [(children || []).slice().sort(...)] *)
Definition sorted_children (children : option (list json)) : list json :=
  sort by_match_desc (match children with Some l => l | None => [] end).

(** What the component renders: the grid class and its children in
    rendering order. *)
Record grid : Type := { className : string; cells : list json }.

Definition PlpGridComponent (children : option (list json)) (columns : value) : grid :=
  {| className := "grid grid-cols-1 " ++ gridColsClass columns ++ " gap-4 w-full";
     cells := sorted_children children |}.
End PlpGrid.

(** ** lib/tools/generate-ui-tool.ts *)

(** An entry of the registry [components] of
    [config/components-definition.ts]. *)
Record component : Type := {
  name : string;
  parameters : list (string * json)
}.

(** [acc[k] = v] on a plain object: [__proto__] is not an own property. *)
Definition obj_assign (k : string) (v : json) (acc : list (string * json))
  : list (string * json) :=
  if String.eqb k "__proto__" then acc else obj_set k v acc.

Section GenerateUITool.
Variable components : list component.

Definition componentsList : list json :=
  map (fun c => JObj [("$ref", JStr ("#/$defs/" ++ name c))]) components.

(** The value stored under [component.name]. *)
Definition definition_of (c : component) : json :=
  JObj [("type", JStr "object");
        ("properties",
         JObj (obj_spread
                 [("name", JObj [("type", JStr "string");
                                 ("enum", JArr [JStr (name c)])])]
                 (parameters c)));
        ("required", JArr (JStr "name" :: map JStr (obj_keys (parameters c))));
        ("additionalProperties", JBool false)].

(** The step of the [reduce]: [acc[component.name] = {...}]. *)
Definition assign_definition (acc : list (string * json)) (c : component)
  : list (string * json) :=
  obj_assign (name c) (definition_of c) acc.

Definition componentsDefinitions : list (string * json) :=
  fold_left assign_definition components [].

Definition generateUITool : json :=
  JObj [("name", JStr "generate_ui");
        ("description",
         JStr "Generate UI components dynamically to display relevant information.");
        ("parameters",
         JObj [("type", JStr "object");
               ("properties", JObj [("component", JObj [("anyOf", JArr componentsList)])]);
               ("required", JArr [JStr "component"]);
               ("additionalProperties", JBool false);
               ("$defs",
                JObj (obj_spread
                        [("component", JObj [("anyOf", JArr componentsList)])]
                        componentsDefinitions))]);
        ("strict", JBool true)].
End GenerateUITool.

(** ** Acceptance of a value by a schema

    The schema is handed to a validator outside these sources; what is
    embedded here is the meaning of the keywords the builder emits
    ([type], [enum], [properties], [required], [additionalProperties],
    [anyOf], [$ref]) and of [items]; other keywords are annotations. *)

Fixpoint json_eqb (a b : json) {struct a} : bool :=
  match a, b with
  | JNull, JNull => true
  | JBool x, JBool y => Bool.eqb x y
  | JNum x, JNum y => num_eqb x y
  | JStr x, JStr y => String.eqb x y
  | JArr xs, JArr ys =>
      (fix go (xs ys : list json) : bool :=
         match xs, ys with
         | [], [] => true
         | x :: xs', y :: ys' => json_eqb x y && go xs' ys'
         | _, _ => false
         end) xs ys
  | JObj xs, JObj ys =>
      (fix go (xs : list (string * json)) : bool :=
         match xs with
         | [] => true
         | (k, v) :: xs' =>
             match obj_get k ys with
             | Some w => json_eqb v w
             | None => false
             end && go xs'
         end) xs && (List.length xs =? List.length ys)%nat
  | _, _ => false
  end.

Definition is_integer (n : number) : bool :=
  match n with
  | Fin q => Qeq_bool q (inject_Z (Qtrunc q))
  | _ => false
  end.

Definition has_type (t : string) (inst : json) : bool :=
  match inst with
  | JNull => String.eqb t "null"
  | JBool _ => String.eqb t "boolean"
  | JNum n => String.eqb t "number" || (String.eqb t "integer" && is_integer n)
  | JStr _ => String.eqb t "string"
  | JArr _ => String.eqb t "array"
  | JObj _ => String.eqb t "object"
  end.

Definition type_ok (a inst : json) : bool :=
  match a with
  | JStr t => has_type t inst
  | JArr ts => existsb (fun t => match t with
                                 | JStr s => has_type s inst
                                 | _ => false
                                 end) ts
  | _ => true
  end.

Definition enum_ok (a inst : json) : bool :=
  match a with
  | JArr vs => existsb (json_eqb inst) vs
  | _ => true
  end.

Definition has_key (k : string) (kv : list (string * json)) : bool :=
  match obj_get k kv with Some _ => true | None => false end.

Definition required_ok (a inst : json) : bool :=
  match a, inst with
  | JArr names, JObj kv =>
      forallb (fun n => match n with JStr s => has_key s kv | _ => true end) names
  | _, _ => true
  end.

(** [additionalProperties: false] next to the keywords [siblings]. *)
Definition closed_ok (siblings : list (string * json)) (a inst : json) : bool :=
  match a, inst with
  | JBool false, JObj kv =>
      let declared := match obj_get "properties" siblings with
                      | Some (JObj ps) => obj_keys ps
                      | _ => []
                      end in
      forallb (fun k => existsb (String.eqb k) declared) (obj_keys kv)
  | _, _ => true
  end.

Section Accepts.
(** How a reference judges a value. *)
Variable by_ref : string -> json -> bool.

Fixpoint accepts (sch inst : json) {struct sch} : bool :=
  match sch with
  | JBool b => b
  | JObj kws =>
      (fix all (l : list (string * json)) : bool :=
         match l with
         | [] => true
         | (kw, a) :: l' =>
             (if String.eqb kw "properties" then
                match a with
                | JObj props =>
                    (fix each (ps : list (string * json)) : bool :=
                       match ps with
                       | [] => true
                       | (p, sub) :: ps' =>
                           match get_prop p inst with
                           | Some v => accepts sub v
                           | None => true
                           end && each ps'
                       end) props
                | _ => true
                end
              else if String.eqb kw "anyOf" then
                match a with
                | JArr subs =>
                    (fix some (ss : list json) : bool :=
                       match ss with
                       | [] => false
                       | s :: ss' => accepts s inst || some ss'
                       end) subs
                | _ => true
                end
              else if String.eqb kw "items" then
                match inst with
                | JArr vs => forallb (accepts a) vs
                | _ => true
                end
              else if String.eqb kw "$ref" then
                match a with JStr r => by_ref r inst | _ => true end
              else if String.eqb kw "type" then type_ok a inst
              else if String.eqb kw "enum" then enum_ok a inst
              else if String.eqb kw "required" then required_ok a inst
              else if String.eqb kw "additionalProperties" then closed_ok kws a inst
              else true) && all l'
         end) kws
  | _ => true
  end.
End Accepts.

(** What one keyword [kw] with argument [a], standing among the keywords
    [siblings], asks of a value. *)
Definition keyword_ok (by_ref : string -> json -> bool)
  (siblings : list (string * json)) (kw : string) (a inst : json) : bool :=
  if String.eqb kw "properties" then
    match a with
    | JObj props =>
        forallb (fun ps => match get_prop (fst ps) inst with
                           | Some v => accepts by_ref (snd ps) v
                           | None => true
                           end) props
    | _ => true
    end
  else if String.eqb kw "anyOf" then
    match a with
    | JArr subs => existsb (fun s => accepts by_ref s inst) subs
    | _ => true
    end
  else if String.eqb kw "items" then
    match inst with
    | JArr vs => forallb (accepts by_ref a) vs
    | _ => true
    end
  else if String.eqb kw "$ref" then
    match a with JStr r => by_ref r inst | _ => true end
  else if String.eqb kw "type" then type_ok a inst
  else if String.eqb kw "enum" then enum_ok a inst
  else if String.eqb kw "required" then required_ok a inst
  else if String.eqb kw "additionalProperties" then closed_ok siblings a inst
  else true.

(** A JSON pointer in a URI fragment, [#/a/b]: its unescaped tokens. *)
Fixpoint split_on (sep : ascii) (s : string) : list string :=
  match s with
  | EmptyString => [EmptyString]
  | String c s' =>
      if Ascii.eqb c sep then EmptyString :: split_on sep s'
      else match split_on sep s' with
           | t :: ts => String c t :: ts
           | [] => [String c EmptyString]
           end
  end.

Fixpoint unescape (s : string) : string :=
  match s with
  | EmptyString => EmptyString
  | String c s' =>
      match s' with
      | String d s'' =>
          if Ascii.eqb c "~" && Ascii.eqb d "1" then String "/" (unescape s'')
          else if Ascii.eqb c "~" && Ascii.eqb d "0" then String "~" (unescape s'')
          else String c (unescape s')
      | EmptyString => String c EmptyString
      end
  end.

Fixpoint walk (tokens : list string) (x : json) : option json :=
  match tokens with
  | [] => Some x
  | t :: ts => match get_prop t x with
               | Some y => walk ts y
               | None => None
               end
  end.

Definition resolve (root : json) (ref : string) : option json :=
  match ref with
  | String "#" EmptyString => Some root
  | String "#" (String "/" rest) => walk (map unescape (split_on "/" rest)) root
  | _ => None
  end.

(** Acceptance with references followed [fuel] times. *)
Fixpoint by_ref_in (root : json) (fuel : nat) (ref : string) (inst : json) : bool :=
  match fuel with
  | O => false
  | S n => match resolve root ref with
           | Some s => accepts (by_ref_in root n) s inst
           | None => false
           end
  end.

Definition validate (fuel : nat) (root sch inst : json) : bool :=
  accepts (by_ref_in root fuel) sch inst.

(** The schema of the arguments of [generate_ui]. *)
Definition tool_parameters (components : list component) : json :=
  match get_prop "parameters" (generateUITool components) with
  | Some s => s
  | None => JNull
  end.

(** Acceptance of the arguments [args] of a [generate_ui] call. *)
Definition accepts_call (fuel : nat) (components : list component) (args : json) : bool :=
  validate fuel (tool_parameters components) (tool_parameters components) args.

(** In the words of the specification: a syntactically valid instance of
    a component is an object whose [name] is the component's, that has
    every declared parameter with a value its declaration allows, and
    that has no other field. *)
Definition valid_instance (judge : json -> json -> bool) (c : component) (inst : json)
  : Prop :=
  exists kv,
    inst = JObj kv /\
    obj_get "name" kv = Some (JStr (name c)) /\
    (forall p frag, In (p, frag) (parameters c) ->
                    exists v, obj_get p kv = Some v /\ judge frag v = true) /\
    (forall k, In k (obj_keys kv) -> k = "name" \/ In k (obj_keys (parameters c))).

(** A name that is one plain token of a JSON pointer. *)
Fixpoint plain_token (s : string) : bool :=
  match s with
  | EmptyString => true
  | String c s' => negb (Ascii.eqb c "/") && negb (Ascii.eqb c "~") && plain_token s'
  end.

(** The registry as the data model has it: names are unique keys and
    plain tokens, [name] is the discriminator and not a parameter, and
    each parameter set is an object (no key twice). *)
Definition wf_component (c : component) : Prop :=
  plain_token (name c) = true /\
  name c <> "__proto__" /\
  ~ In "name" (obj_keys (parameters c)) /\
  NoDup (obj_keys (parameters c)).

Definition wf_registry (components : list component) : Prop :=
  NoDup (map name components) /\ Forall wf_component components.

(** ** components/header.tsx: the search box *)

(** [c.toLowerCase()] on a code unit below 256: the letters A-Z and the
    capital letters of Latin-1, each mapped to one code unit.  (Outside
    this range the case mapping of the language can change the length of
    a text.) *)
Definition lower_char (c : ascii) : ascii :=
  let n := nat_of_ascii c in
  if ((65 <=? n) && (n <=? 90) || (192 <=? n) && (n <=? 214)
      || (216 <=? n) && (n <=? 222))%nat
  then ascii_of_nat (n + 32) else c.

Fixpoint string_map (f : ascii -> ascii) (s : string) : string :=
  match s with
  | EmptyString => EmptyString
  | String c s' => String (f c) (string_map f s')
  end.

Definition toLowerCase (s : string) : string := string_map lower_char s.

Section Header.
Context {prims : JsPrims}.

(** [['true', '1', 'yes', 'on'].includes(String(v ?? '').trim().toLowerCase())] *)
Definition parseBool (v : value) : bool :=
  let s := match v with
           | None | Some JNull => ""
           | Some j => ToString j
           end in
  existsb (String.eqb (toLowerCase (trim s))) ["true"; "1"; "yes"; "on"].

(** What [runSearch(q)] hands to [search_redis]; [None] when the guard
    [!qTrim || qTrim.length < MIN_CHARS] returns before any search. *)
Definition runSearch_params (MIN_CHARS : number) (q : string)
  : option (list (string * json)) :=
  let qTrim := trim q in
  if is_empty qTrim || num_ltb (num (Z.of_nat (String.length qTrim))) MIN_CHARS
  then None
  else Some [("query_text", JStr qTrim); ("include_details", JBool true)].

(** [x?.similarity ?? 0], as the subtraction reads it. *)
Definition similarity (x : json) : number :=
  match get_prop "similarity" x with
  | None | Some JNull => num 0
  | Some v => ToNumber v
  end.

(** [(a, b) => (b?.similarity ?? 0) - (a?.similarity ?? 0)] *)
Definition by_similarity_desc (a b : json) : number :=
  num_sub (similarity b) (similarity a).

(** [(res?.items || []).slice().sort(...)]; [None] when [items] is truthy
    and not an array, and the chain throws. *)
Definition listed (res : json) : option (list json) :=
  match get_prop "items" res with
  | Some (JArr l) => Some (sort by_similarity_desc l)
  | Some x => if truthy x then None else Some []
  | None => Some []
  end.

(** The state of the box that a search touches. *)
Record search_box : Type := {
  results : list json;
  open : bool;
  activeIndex : Z;
  loading : bool
}.

(** The state after [runSearch] got the answer [res]. *)
Definition search_done (res : json) : option search_box :=
  match listed res with
  | Some items =>
      Some {| results := items;
              open := negb (List.length items =? 0)%nat;
              activeIndex := if (List.length items =? 0)%nat then (-1)%Z else 0%Z;
              loading := false |}
  | None => None
  end.
End Header.

(** [results.length ? (prev + 1 + results.length) % results.length : -1] *)
Definition arrow_down (n prev : Z) : Z :=
  if (n =? 0)%Z then (-1)%Z else Z.rem (prev + 1 + n) n.

(** [results.length ? (prev - 1 + results.length) % results.length : -1] *)
Definition arrow_up (n prev : Z) : Z :=
  if (n =? 0)%Z then (-1)%Z else Z.rem (prev - 1 + n) n.

(** ** The items of a search response, as a caller reads them *)

(** [JSON.stringify] writes NaN and the infinities as [null]. *)
Definition written_number (n : number) : json :=
  match n with
  | Fin _ => JNum n
  | _ => JNull
  end.

Definition field_if {A : Type} (k : string) (f : A -> json) (x : option A)
  : list (string * json) :=
  match x with Some a => [(k, f a)] | None => [] end.

Definition null_or (x : option string) : json :=
  match x with Some s => JStr s | None => JNull end.

(** The row after [JSON.stringify] and [response.json()]: a property
    that is [undefined] is left out. *)
Definition row_json (r : row) : json :=
  JObj (field_if "code" JStr (code r)
        ++ field_if "title" JStr (title r)
        ++ [("brand", null_or (brand r));
            ("category", null_or (category r));
            ("keywords", null_or (keywords r))]
        ++ field_if "price" written_number (price r)
        ++ field_if "score" written_number (score r)
        ++ field_if "product" (fun j => j) (product r))%list.

(** The body of an answer of the search route, as [response.json()]
    gives it to [search_redis]. *)
Definition payload_json (p : payload) : json :=
  match p with
  | ErrorPayload e d => JObj (("error", JStr e) :: field_if "details" JStr d)
  | SearchPayload n k lo hi s m items =>
      JObj [("count", JNum (num (Z.of_nat n)));
            ("k", written_number k);
            ("filters", JObj (field_if "min_price" (fun j => j) lo
                              ++ field_if "max_price" (fun j => j) hi)%list);
            ("sort_by", JStr s);
            ("mode_used", JStr m);
            ("items", JArr (map row_json items))]
  | ProductPayload f c j => JObj [("found", JBool f); ("code", c); ("product", j)]
  end.

(** ** config/functions.ts: get_product *)

(** The query built by [qs.set('code', ...)] and [qs.set('id', ...)],
    each under [if (params.x)]. *)
Definition get_product_query (code id : option string) : list (string * string) :=
  let qs := [] in
  let qs := match code with
            | Some c => if is_empty c then qs else obj_set "code" c qs
            | None => qs
            end in
  match id with
  | Some i => if is_empty i then qs else obj_set "id" i qs
  | None => qs
  end.

(** ** lib/redis.ts: getRedisClient *)

Record client_handle : Type := { client_url : string }.

Inductive client_call : Type :=
| createClient (url : string)
| on_error
| connect.

(** One call of [getRedisClient] in the module state [st] (the variable
    [client]): the new state, the calls made on the library, and what the
    promise settles to.  [created] is what [createClient] does (it may
    throw), [isOpen] what the new client says, [connected] what
    [client.connect()] settles to. *)
Definition getRedisClient_call (REDIS_URL : option string)
  (created : outcome unit) (isOpen : bool) (connected : outcome unit)
  (st : option client_handle)
  : option client_handle * list client_call * outcome client_handle :=
  match st with
  | Some c => (Some c, [], Fulfilled c)
  | None =>
      let url := env_or REDIS_URL "redis://localhost:6379" in
      match created with
      | Rejected e => (None, [createClient url], Rejected e)
      | Fulfilled _ =>
          let c := {| client_url := url |} in
          if isOpen then (Some c, [createClient url; on_error], Fulfilled c)
          else match connected with
               | Fulfilled _ => (Some c, [createClient url; on_error; connect], Fulfilled c)
               | Rejected e => (Some c, [createClient url; on_error; connect], Rejected e)
               end
      end
  end.

(** What the library does at each call of a run. *)
Record library_answers : Type := {
  answer_created : outcome unit;
  answer_isOpen : bool;
  answer_connected : outcome unit
}.

(** Successive calls of [getRedisClient], from the state [st]. *)
Fixpoint getRedisClient_calls (REDIS_URL : option string)
  (answers : list library_answers) (st : option client_handle)
  : option client_handle * list client_call * list (outcome client_handle) :=
  match answers with
  | [] => (st, [], [])
  | a :: rest =>
      let '(st1, calls1, out) :=
        getRedisClient_call REDIS_URL (answer_created a) (answer_isOpen a)
          (answer_connected a) st in
      let '(st2, calls2, outs) := getRedisClient_calls REDIS_URL rest st1 in
      (st2, (calls1 ++ calls2)%list, out :: outs)
  end.

(** ** config/ui/components.tsx: the chart helpers *)

Definition is_alnum (c : ascii) : bool :=
  let n := nat_of_ascii c in
  ((48 <=? n) && (n <=? 57) || (65 <=? n) && (n <=? 90)
   || (97 <=? n) && (n <=? 122))%nat.

(** [key.toLowerCase().replace(/[^a-zA-Z0-9]/g, '_')] *)
Definition formatKey (key : string) : string :=
  string_map (fun c => if is_alnum c then c else "_"%char) (toLowerCase key).

(** A column as the chart receives it: [{ label?: string; value?: string }]. *)
Record chart_column : Type := {
  column_label : option string;
  column_value : option string
}.

(** A row of the chart data. *)
Record chart_datum : Type := {
  datum_id : nat;
  datum_label : string;
  datum_value : number;
  datum_fill : string
}.

Definition has_label (item : chart_column) : bool :=
  match column_label item with
  | Some l => negb (is_empty l)
  | None => false
  end.

Section Charts.
(** [parseFloat] of the language. *)
Variable parseFloat : string -> number.

(** The callback of the [map]: it throws on a column without label. *)
Definition to_datum (index : nat) (item : chart_column) : chart_datum + jserror :=
  if has_label item then
    inl {| datum_id := index;
           datum_label := match column_label item with Some l => l | None => "" end;
           datum_value := match column_value item with
                          | Some v => parseFloat v
                          | None => num 0
                          end;
           datum_fill := "#000000" |}
  else inr ({| err_message := "Label is required"; err_string := "Error: Label is required" |}).

(** [array.map(f)] with the index, stopping at the first throw. *)
Fixpoint map_from (index : nat) (items : list chart_column)
  : list chart_datum + jserror :=
  match items with
  | [] => inl []
  | item :: rest =>
      match to_datum index item with
      | inr e => inr e
      | inl d => match map_from (S index) rest with
                 | inr e => inr e
                 | inl ds => inl (d :: ds)
                 end
      end
  end.

Definition getChartData (columns : list chart_column) : list chart_datum + jserror :=
  map_from 0 (filter has_label columns).
End Charts.

(** [config[formatKey(item.label)] = { label: item.label, color: '#ffffff' }] *)
Definition config_entry (label : string) : json :=
  JObj [("label", JStr label); ("color", JStr "#ffffff")].

Definition getChartConfig (columns : list chart_datum) : list (string * json) :=
  fold_left (fun config item =>
               obj_assign (formatKey (datum_label item))
                 (config_entry (datum_label item)) config)
            columns [].

(** ** Sample runtime primitives and collaborators

    Used to run the handlers on concrete inputs.  [sample_StringToNumber]
    reads the numeric string literals of the language (decimal with
    fraction and exponent, [Infinity], signs, the [0x], [0o] and [0b]
    forms, white space around) without the rounding to a double;
    [sample_NumberToString] prints integers and decimal fractions in
    positional notation, which is what the language prints between
    1e-6 and 1e21; [sample_JSON_parse] knows the documents of
    [sample_documents], [null], [true], [false] and the numbers, and
    throws on every other text. *)

Definition digit_value (base : Z) (c : ascii) : option Z :=
  let n := Z.of_nat (nat_of_ascii c) in
  let v := if ((48 <=? n) && (n <=? 57))%Z then Some (n - 48)%Z
           else if ((97 <=? n) && (n <=? 102))%Z then Some (n - 87)%Z
           else if ((65 <=? n) && (n <=? 70))%Z then Some (n - 55)%Z
           else None in
  match v with
  | Some d => if (d <? base)%Z then Some d else None
  | None => None
  end.

(** The longest run of digits at the head of [s]: its value after [acc],
    the number of digits read after [n], and the rest. *)
Fixpoint read_digits (base : Z) (s : string) (acc : Z) (n : nat) : Z * nat * string :=
  match s with
  | EmptyString => (acc, n, s)
  | String c s' => match digit_value base c with
                   | Some d => read_digits base s' (base * acc + d)%Z (S n)
                   | None => (acc, n, s)
                   end
  end.

(** [e], [E], then an optional sign and digits; nothing is exponent 0. *)
Definition exponent_part (s : string) : option Z :=
  match s with
  | EmptyString => Some 0%Z
  | String c r =>
      if Ascii.eqb c "e" || Ascii.eqb c "E" then
        let (sign, r') :=
          match r with
          | String d r' => if Ascii.eqb d "+" then (1%Z, r')
                           else if Ascii.eqb d "-" then ((-1)%Z, r')
                           else (1%Z, r)
          | EmptyString => (1%Z, r)
          end in
        let '(v, n, rest) := read_digits 10 r' 0 0 in
        if (n =? 0)%nat || negb (is_empty rest) then None else Some (sign * v)%Z
      else None
  end.

(** An unsigned decimal literal: [12], [12.5], [12.], [.5], each with an
    optional exponent. *)
Definition decimal (s : string) : option Q :=
  let '(i, ni, r) := read_digits 10 s 0 0 in
  let '(f, nf, r') :=
    match r with
    | String c r1 => if Ascii.eqb c "." then read_digits 10 r1 0 0 else (0%Z, 0%nat, r)
    | EmptyString => (0%Z, 0%nat, r)
    end in
  if (ni + nf =? 0)%nat then None
  else match exponent_part r' with
       | Some e =>
           Some (Qred ((inject_Z i + Qmake f (Pos.pow 10 (Pos.of_nat nf)))
                       * Qpower (inject_Z 10) e))
       | None => None
       end.

Definition unsigned_literal (s : string) : number :=
  if String.eqb s "Infinity" then PosInf
  else match decimal s with Some q => Fin q | None => NaN end.

(** [0x1f], [0o17], [0b101]. *)
Definition non_decimal (s : string) : option number :=
  match s with
  | String z (String p r) =>
      let base := if Ascii.eqb p "x" || Ascii.eqb p "X" then Some 16%Z
                  else if Ascii.eqb p "o" || Ascii.eqb p "O" then Some 8%Z
                  else if Ascii.eqb p "b" || Ascii.eqb p "B" then Some 2%Z
                  else None in
      match base with
      | Some bs =>
          if Ascii.eqb z "0" then
            let '(v, n, rest) := read_digits bs r 0 0 in
            Some (if (n =? 0)%nat || negb (is_empty rest) then NaN else num v)
          else None
      | None => None
      end
  | _ => None
  end.

Definition sample_StringToNumber (s : string) : number :=
  match trim s with
  | EmptyString => num 0
  | String c s' =>
      match non_decimal (String c s') with
      | Some n => n
      | None =>
          if Ascii.eqb c "-" then num_opp (unsigned_literal s')
          else if Ascii.eqb c "+" then unsigned_literal s'
          else unsigned_literal (String c s')
      end
  end.

(** The digits of [n / d] after the point, for [0 <= n < d], until the
    remainder is 0 or [fuel] digits are written. *)
Fixpoint fraction_digits (fuel : nat) (n d : Z) : string :=
  match fuel with
  | O => ""
  | S fuel' =>
      if (n =? 0)%Z then ""
      else NilZero.string_of_int (Z.to_int (10 * n / d))
           ++ fraction_digits fuel' ((10 * n) mod d)%Z d
  end.

Definition sample_NumberToString (n : number) : string :=
  match n with
  | NaN => "NaN"
  | PosInf => "Infinity"
  | NegInf => "-Infinity"
  | Fin q =>
      let a := Z.abs (Qnum q) in
      let d := Zpos (Qden q) in
      let sign := if (Qnum q <? 0)%Z then "-" else "" in
      let whole := NilZero.string_of_int (Z.to_int (a / d)) in
      if (a mod d =? 0)%Z then sign ++ whole
      else sign ++ whole ++ "." ++ fraction_digits 20 (a mod d) d
  end.

Definition dq : string := String (ascii_of_nat 34) EmptyString.

(** The text [{"k":"v"}]. *)
Definition one_field_text (k v : string) : string :=
  "{" ++ dq ++ k ++ dq ++ ":" ++ dq ++ v ++ dq ++ "}".

Definition sample_documents : list (string * json) :=
  [(one_field_text "code" "LEG-7", JObj [("code", JStr "LEG-7")]);
   (one_field_text "id" "42", JObj [("id", JStr "42")]);
   (one_field_text "title" "Agenda", JObj [("title", JStr "Agenda")])].

(** The white space of JSON: space, tab, line feed, carriage return. *)
Definition is_json_space (c : ascii) : bool :=
  let n := nat_of_ascii c in
  ((n =? 32) || (n =? 9) || (n =? 10) || (n =? 13))%nat.

Fixpoint json_drop (s : string) : string :=
  match s with
  | String c s' => if is_json_space c then json_drop s' else s
  | EmptyString => EmptyString
  end.

Fixpoint json_all_space (s : string) : bool :=
  match s with
  | EmptyString => true
  | String c s' => is_json_space c && json_all_space s'
  end.

Fixpoint json_drop_end (s : string) : string :=
  match s with
  | EmptyString => EmptyString
  | String c s' => if json_all_space s then EmptyString else String c (json_drop_end s')
  end.

(** A JSON number: an optional minus sign, an integer part without a
    leading zero, then an optional fraction and an optional exponent. *)
Definition json_number (s : string) : option Q :=
  let (neg, body) :=
    match s with
    | String c r => if Ascii.eqb c "-" then (true, r) else (false, s)
    | EmptyString => (false, s)
    end in
  let '(_, ni, r) := read_digits 10 body 0 0 in
  let leading_zero :=
    match body with
    | String c (String d _) => Ascii.eqb c "0" && negb (Ascii.eqb d ".")
                               && negb (Ascii.eqb d "e") && negb (Ascii.eqb d "E")
    | _ => false
    end in
  let bare_point :=
    match r with
    | String c r1 => Ascii.eqb c "."
                     && match read_digits 10 r1 0 0 with (_, nf, _) => (nf =? 0)%nat end
    | EmptyString => false
    end in
  if (ni =? 0)%nat || leading_zero || bare_point then None
  else match decimal body with
       | Some q => Some (if neg then Qopp q else q)
       | None => None
       end.

Definition sample_JSON_parse (s : string) : option json :=
  let t := json_drop_end (json_drop s) in
  match obj_get t sample_documents with
  | Some j => Some j
  | None =>
      if String.eqb t "null" then Some JNull
      else if String.eqb t "true" then Some (JBool true)
      else if String.eqb t "false" then Some (JBool false)
      else match json_number t with
           | Some q => Some (JNum (Fin q))
           | None => None
           end
  end.

Definition sample_prims : JsPrims :=
  {| StringToNumber := sample_StringToNumber;
     NumberToString := sample_NumberToString;
     JSON_parse := sample_JSON_parse;
     BufferToString := fun b => b |}.

(** No variable of the environment is set. *)
Definition no_env : process_env :=
  {| env_INDEX_NAME := None; env_JSON_PREFIX := None; env_VEC_PREFIX := None;
     env_EMBED_DIM := None; env_EMBED_MODEL := None |}.

Definition an_error (text : string) : jserror :=
  {| err_message := text; err_string := "Error: " ++ text |}.

Definition has_dialect (args : list arg) : bool :=
  existsb (fun a => match a with AStr s => String.eqb s "DIALECT" | _ => false end) args.

(** Collaborators that answer by the call alone: the provider returns
    [embedding], the index [with_dialect] or [without_dialect] to a
    search, and [detail key] to a [JSON.GET key]. *)
Definition sample_world
  (embedding : outcome (list number))
  (with_dialect without_dialect : outcome reply)
  (detail : string -> outcome reply) : world :=
  fun X _ ev =>
    match ev in event X return outcome X with
    | getRedisClient => Fulfilled tt
    | embeddings_create _ _ _ => embedding
    | sendCommand args =>
        match args with
        | [AStr _; AStr key] => detail key
        | _ => if has_dialect args then with_dialect else without_dialect
        end
    end.

Definition a_vector : outcome (list number) := Fulfilled [num 1; num 0].

Definition no_detail (key : string) : outcome reply := Fulfilled RNull.

(** A search reply: the total, then a key and a field list per document. *)
Definition doc (key : string) (fields : list string) : list reply :=
  [RStr key; RArr (map RStr fields)].

Definition two_docs : reply :=
  RArr (RInt 2
        :: doc "vec:A" ["code"; "A"; "title"; "Agenda"; "price"; "20"; "score"; "0.1"]
        ++ doc "vec:B" ["code"; "B"; "title"; "Penna"; "price"; "10"; "score"; "0.2"])%list.

Definition text_query (fields : list (string * json)) : json :=
  JObj (("query_text", JStr "agenda gatti") :: fields).

Definition codes (r : response) : list (option string) :=
  match items_of r with
  | Some items => map code items
  | None => []
  end.

Definition answer {R : Type} (x : list entry * (R + jserror)) : option R :=
  match snd x with inl r => Some r | inr _ => None end.

(** The search handler run on [text_query fields] against an index that
    answers [raw] to either form of the query. *)
Definition sample_search (raw : reply) (detail : string -> outcome reply)
  (fields : list (string * json)) : list entry * (response + jserror) :=
  run (sample_world a_vector (Fulfilled raw) (Fulfilled raw) detail) []
      (POST (prims := sample_prims) no_env (Fulfilled (text_query fields))).

(** The same request with the detail join switched off. *)
Definition without_details (r : request) : request :=
  {| query_text := query_text r; req_k := req_k r;
     min_price := min_price r; max_price := max_price r;
     include_details := JBool false;
     expanded := expanded r; sort_by := sort_by r |}.

(** A response with the detail payloads taken out of its items. *)
Definition strip (resp : response) : response :=
  {| status := status resp;
     body := match body resp with
             | SearchPayload n k lo hi s m items =>
                 SearchPayload n k lo hi s m (map clear_product items)
             | other => other
             end |}.

(** Detail lookups that fail, and that return text that is not JSON. *)
Definition failing_detail (key : string) : outcome reply :=
  Rejected (an_error "Connection is closed.").

Definition malformed_detail (key : string) : outcome reply :=
  Fulfilled (RStr "{oops").

(** Rows with and without a price. *)
Definition priced (c : string) (p s : Q) : row :=
  {| code := Some c; title := None; brand := None; category := None;
     keywords := None; price := Some (Fin p); score := Some (Fin s);
     product := None |}.

Definition unpriced (c : string) (s : Q) : row :=
  {| code := Some c; title := None; brand := None; category := None;
     keywords := None; price := None; score := Some (Fin s);
     product := None |}.

(** Two outcomes of collecting rows that agree up to the payloads. *)
Definition same_rows (x y : list row + jserror) : Prop :=
  match x, y with
  | inl rows', inl rows => map clear_product rows' = rows
  | inr e', inr e => e' = e
  | _, _ => False
  end.

(** The search handler run on the body [b] against the two-document
    index. *)
Definition sample_search_of (b : json) : list entry * (response + jserror) :=
  run (sample_world a_vector (Fulfilled two_docs) (Fulfilled two_docs) no_detail) []
      (POST (prims := sample_prims) no_env (Fulfilled b)).

(** An embedding provider that refuses the call. *)
Definition quota_error : jserror :=
  an_error "429 You exceeded your current quota, please check your plan and billing details.".

Definition failing_provider_search (b : json) : list entry * (response + jserror) :=
  run (sample_world (Rejected quota_error) (Fulfilled two_docs) (Fulfilled two_docs)
         no_detail) []
      (POST (prims := sample_prims) no_env (Fulfilled b)).

(** Children of a grid, with and without a [match] field. *)
Definition child (id : string) (m : Q) : json :=
  JObj [("name", JStr "item"); ("id", JStr id); ("match", JNum (Fin m))].

Definition child_without_match (id : string) : json :=
  JObj [("name", JStr "item"); ("id", JStr id)].

Definition kids (children : option (list json)) : list json :=
  match children with Some l => l | None => [] end.

(** A store that holds one product, under the key [prod:42]. *)
Definition one_product (key : string) : outcome reply :=
  if String.eqb key "prod:42" then Fulfilled (RStr (one_field_text "code" "LEG-7"))
  else Fulfilled RNull.

Definition sample_lookup (params : list (string * string))
  : list entry * (response + jserror) :=
  run (sample_world a_vector (Fulfilled two_docs) (Fulfilled two_docs) one_product) []
      (GET (prims := sample_prims) no_env params).

(** The first truthy value among a stored product's [code] and [id],
    when the product itself is truthy. *)
Definition own_code (product : json) : option json :=
  if truthy product then
    match get_prop "code" product with
    | Some v => if truthy v then Some v
                else match get_prop "id" product with
                     | Some u => if truthy u then Some u else None
                     | None => None
                     end
    | None => match get_prop "id" product with
              | Some u => if truthy u then Some u else None
              | None => None
              end
    end
  else None.

(** A small registry: a leaf with one string, a leaf with a string and
    a number, and a container of nested components. *)
Definition of_type (t : string) : json := JObj [("type", JStr t)].

Definition sample_components : list component :=
  [{| name := "header"; parameters := [("content", of_type "string")] |};
   {| name := "item";
      parameters := [("id", of_type "string"); ("price", of_type "number")] |};
   {| name := "carousel";
      parameters :=
        [("children",
          JObj [("type", JStr "array");
                ("items", JObj [("$ref", JStr "#/$defs/component")])])] |}].

Definition call_with (node : json) : json := JObj [("component", node)].

Definition a_header : json :=
  JObj [("name", JStr "header"); ("content", JStr "Idee regalo")].

(** ** Orders used in the statements *)

Definition num_lt (a b : number) : Prop := num_compare a b = Some Lt.
Definition num_eq (a b : number) : Prop := num_compare a b = Some Eq.
Definition num_le (a b : number) : Prop := num_lt a b \/ num_eq a b.

(** The order the comparator of the search sorts by: the price key in
    the direction of the mode, then the score key upwards. *)
Definition precedes (o : ordering) (a b : row) : Prop :=
  match o with
  | price_asc => num_lt (price_key a) (price_key b)
  | price_desc => num_lt (price_key b) (price_key a)
  end \/
  (num_eq (price_key a) (price_key b) /\ num_le (score_key a) (score_key b)).

(** Rows without price come last: no row with a finite price stands
    after a row without price. *)
Definition missing_price_last (l : list row) : Prop :=
  forall pre a post, l = (pre ++ a :: post)%list -> price a = None ->
                     Forall (fun b => forall q, price b <> Some (Fin q)) post.

(** A search reply whose second document carries no price. *)
Definition priced_and_unpriced : reply :=
  RArr (RInt 2
        :: doc "vec:A" ["code"; "A"; "price"; "10"; "score"; "0.1"]
        ++ doc "vec:B" ["code"; "B"; "score"; "0.2"])%list.

Definition sound_keys (a : row) : Prop :=
  price a <> Some NaN /\ score a <> Some NaN.

(** The order of the grid: the match value downwards. *)
Definition match_desc (a b : json) : Prop := num_le (match_of b) (match_of a).

(** The count of returned items is at most [min(5, k)]. *)
Definition within_requested (k : number) (items : list row) : bool :=
  num_leb (num (Z.of_nat (List.length items))) (Math_min (num 5) k).

(** ** Shapes of strings and lists used in the statements *)

Fixpoint no_nul (s : string) : bool :=
  match s with
  | EmptyString => true
  | String c s' => negb (is_nul c) && no_nul s'
  end.

(** Every white space character is a space, and is followed by a
    character that is not white space, or by the end. *)
Fixpoint single_spaced (s : string) : bool :=
  match s with
  | EmptyString => true
  | String c s' =>
      (if is_space c
       then Ascii.eqb c " " && match s' with
                               | String d _ => negb (is_space d)
                               | EmptyString => true
                               end
       else true) && single_spaced s'
  end.

Definition starts_with_space (s : string) : bool :=
  match s with
  | String c _ => is_space c
  | EmptyString => false
  end.

Fixpoint string_forall (p : ascii -> bool) (s : string) : bool :=
  match s with
  | EmptyString => true
  | String c s' => p c && string_forall p s'
  end.

(** The characters a chart key is made of. *)
Definition is_key_char (c : ascii) : bool :=
  let n := nat_of_ascii c in
  ((48 <=? n) && (n <=? 57) || (97 <=? n) && (n <=? 122) || (n =? 95))%nat.

(** What [formatKey] makes of one character. *)
Definition key_char (c : ascii) : ascii :=
  if is_alnum (lower_char c) then lower_char c else "_"%char.

(** A row of chart data with the label [l]. *)
Definition datum (i : nat) (l : string) : chart_datum :=
  {| datum_id := i; datum_label := l; datum_value := num 1; datum_fill := "#000000" |}.

(** The codes of the rows that have one, in order. *)
Definition lookup_codes (rows : list row) : list string :=
  flat_map (fun r => match code r with
                     | Some c => if is_empty c then [] else [c]
                     | None => []
                     end) rows.

(** The detail lookup of the code [c], as it is sent. *)
Definition lookup_command (env : process_env) (c : string) : list arg :=
  [AStr "JSON.GET"; AStr (JSON_PREFIX env ++ c)].

(** The commands of a trace that are not index queries. *)
Definition lookups (t : list entry) : list (list arg) :=
  map fst (filter (fun c => negb (is_search c)) (commands t)).

(** What the product lookup makes of the store's answer: the parsed
    text, and [null] for a failed call, an empty answer or a text that
    is not JSON. *)
Definition stored_product {prims : JsPrims} (o : outcome reply) : json :=
  match o with
  | Rejected _ => JNull
  | Fulfilled jraw =>
      match reply_text (Some jraw) with
      | Some jtext =>
          if is_empty jtext then JNull
          else match JSON_parse jtext with Some j => j | None => JNull end
      | None => JNull
      end
  end.

(** The caller's own key, [code] before [id]. *)
Definition requested_code (code id : option string) : json :=
  match code, id with
  | Some c, _ => JStr c
  | None, Some i => JStr i
  | None, None => JNull
  end.

(** A parameter that is set: neither absent nor empty. *)
Definition given (x : option string) : option string :=
  match x with
  | Some s => if is_empty s then None else Some s
  | None => None
  end.

(** Rows with the price key [p] and the score key [s]. *)
Definition same_keys (p s : number) (a : row) : bool :=
  num_eqb (price_key a) p && num_eqb (score_key a) s.

(** Children with the match value [m]. *)
Definition same_match (m : number) (a : json) : bool := num_eqb (match_of a) m.

(** ** The calls of a trace, with what came back *)

(** A command sent to Redis, with its outcome. *)
Definition sent (c : entry) : option (list arg * outcome reply) :=
  match c with
  | Called (sendCommand args) o => Some (args, o)
  | Called _ _ => None
  end.

Fixpoint exchanges (t : list entry) : list (list arg * outcome reply) :=
  match t with
  | [] => []
  | c :: t' => match sent c with
               | Some x => x :: exchanges t'
               | None => exchanges t'
               end
  end.

Definition is_query (x : list arg * outcome reply) : bool := is_search (fst x, true).

(** The replies of the index to the queries that succeeded, in order. *)
Definition index_replies (t : list entry) : list reply :=
  flat_map (fun x => match snd x with
                     | Fulfilled raw => if is_query x then [raw] else []
                     | Rejected _ => []
                     end) (exchanges t).

(** The outcomes of the commands that are not index queries, in order. *)
Definition lookup_outcomes (t : list entry) : list (outcome reply) :=
  map snd (filter (fun x => negb (is_query x)) (exchanges t)).

Definition is_index_query (c : entry) : bool :=
  match sent c with Some x => is_query x | None => false end.

(** A [JSON.GET] of one key. *)
Definition is_lookup (c : entry) : bool :=
  match sent c with
  | Some ([AStr s; AStr _], _) => String.eqb s "JSON.GET"
  | _ => false
  end.

(** The error that ends a handling, read off its last call: a rejected
    call for the client, for an embedding or for an index query. *)
Definition fatal (c : entry) : option jserror :=
  match c with
  | Called getRedisClient (Rejected e) => Some e
  | Called (embeddings_create _ _ _) (Rejected e) => Some e
  | Called (sendCommand args) (Rejected e) =>
      if is_search (args, true) then Some e else None
  | Called _ _ => None
  end.

Definition ending_error (t : list entry) : option jserror :=
  match rev t with
  | c :: _ => fatal c
  | [] => None
  end.

(** The answer of the search route to a failure. *)
Definition failure (e : jserror) : response :=
  {| status := 500;
     body := ErrorPayload "Failed to query Redis" (Some (error_text e)) |}.

(** ** The reply of the index, as the statements read it *)

(** After the total, keys and documents alternate. *)
Fixpoint documents (l : list reply) : list reply :=
  match l with
  | _ :: doc :: rest => doc :: documents rest
  | _ => []
  end.

(** What is wrong with the shape of a reply, if anything: the reply or
    a document is [null], or the last key has no document. *)
Fixpoint docs_error (l : list reply) : option jserror :=
  match l with
  | [] => None
  | [_] => Some (type_error "undefined")
  | _ :: doc :: rest =>
      match elements doc with
      | None => Some (type_error "null")
      | Some _ => docs_error rest
      end
  end.

Definition reply_error (raw : reply) : option jserror :=
  match elements raw with
  | None => Some (type_error "null")
  | Some [] => None
  | Some (_ :: l) => docs_error l
  end.

Section Candidates.
Context {prims : JsPrims}.

(** The row of one document, before any detail is joined. *)
Definition candidate (doc : reply) : row :=
  row_of (doc_fields (match elements doc with Some fs => fs | None => [] end) []).

(** The candidate rows of a reply, in the order of the reply. *)
Definition candidates (raw : reply) : list row :=
  match elements raw with
  | Some (_ :: l) => map candidate (documents l)
  | _ => []
  end.

(** What a detail lookup adds to its row: the parsed text, and nothing
    when the call failed, the answer is empty, or the text is not JSON. *)
Definition detail_of (o : outcome reply) : option json :=
  match o with
  | Rejected _ => None
  | Fulfilled jraw =>
      match reply_text (Some jraw) with
      | Some jtext => if is_empty jtext then None else JSON_parse jtext
      | None => None
      end
  end.

Definition with_detail (r : row) (o : outcome reply) : row :=
  match detail_of o with
  | Some j => set_product r j
  | None => r
  end.
End Candidates.

(** A row that is looked up: the join is on and the row has a code. *)
Definition wants_lookup (details : bool) (r : row) : bool :=
  details && match code r with
             | Some c => negb (is_empty c)
             | None => false
             end.

Definition code_text (r : row) : string :=
  match code r with Some c => c | None => "" end.

(** The candidates with the outcomes of their lookups, the outcomes
    taken in order by the rows that are looked up. *)
Fixpoint joined {prims : JsPrims} (details : bool) (cands : list row)
  (outs : list (outcome reply)) : list row :=
  match cands with
  | [] => []
  | c :: cs =>
      if wants_lookup details c then
        match outs with
        | o :: os => with_detail c o :: joined details cs os
        | [] => c :: joined details cs []
        end
      else c :: joined details cs outs
  end.

(** Code units of ASCII. *)
Definition is_ascii_unit (c : ascii) : bool := (nat_of_ascii c <? 128)%nat.

(** A registry whose one component declares a parameter called [name]. *)
Definition name_clash : list component :=
  [{| name := "card"; parameters := [("name", of_type "string")] |}].

(** ** Facts about numbers *)

Lemma num_compare_total (a b : number) :
  a <> NaN -> b <> NaN -> exists c, num_compare a b = Some c.
Proof.
  destruct a, b; simpl; intros; try congruence; eauto.
Qed.

Lemma num_compare_antisym (a b : number) (c : comparison) :
  num_compare a b = Some c -> num_compare b a = Some (CompOpp c).
Proof.
  destruct a, b; simpl; intros H; inversion H; subst; try reflexivity.
  now rewrite Qcompare_antisym.
Qed.

Lemma num_compare_not_nan (a b : number) (c : comparison) :
  num_compare a b = Some c -> a <> NaN /\ b <> NaN.
Proof.
  destruct a, b; simpl; intros H; split; congruence.
Qed.

Lemma num_eq_refl (a : number) : a <> NaN -> num_eq a a.
Proof.
  unfold num_eq; destruct a; simpl; intros; try congruence.
  f_equal. apply Qeq_alt. reflexivity.
Qed.

Lemma num_eq_sym (a b : number) : num_eq a b -> num_eq b a.
Proof.
  unfold num_eq; intros H. now rewrite (num_compare_antisym _ _ _ H).
Qed.

Lemma num_eq_trans (a b c : number) : num_eq a b -> num_eq b c -> num_eq a c.
Proof.
  unfold num_eq; destruct a, b, c; simpl; try congruence.
  intros H1 H2. injection H1 as H1. injection H2 as H2. f_equal.
  apply Qeq_alt in H1, H2. apply Qeq_alt. now rewrite H1.
Qed.

Lemma num_lt_trans (a b c : number) : num_lt a b -> num_lt b c -> num_lt a c.
Proof.
  unfold num_lt; destruct a, b, c; simpl; try congruence.
  intros H1 H2. injection H1 as H1. injection H2 as H2. f_equal.
  apply Qlt_alt in H1, H2. apply Qlt_alt. now apply Qlt_trans with q0.
Qed.

Lemma num_lt_eq_trans (a b c : number) : num_lt a b -> num_eq b c -> num_lt a c.
Proof.
  unfold num_lt, num_eq; destruct a, b, c; simpl; try congruence.
  intros H1 H2. injection H1 as H1. injection H2 as H2. f_equal.
  apply Qlt_alt in H1. apply Qeq_alt in H2. apply Qlt_alt. now rewrite <- H2.
Qed.

Lemma num_eq_lt_trans (a b c : number) : num_eq a b -> num_lt b c -> num_lt a c.
Proof.
  unfold num_lt, num_eq; destruct a, b, c; simpl; try congruence.
  intros H1 H2. injection H1 as H1. injection H2 as H2. f_equal.
  apply Qeq_alt in H1. apply Qlt_alt in H2. apply Qlt_alt. now rewrite H1.
Qed.

Lemma num_le_trans (a b c : number) : num_le a b -> num_le b c -> num_le a c.
Proof.
  unfold num_le; intros [H1 | H1] [H2 | H2].
  - left; eapply num_lt_trans; eauto.
  - left; eapply num_lt_eq_trans; eauto.
  - left; eapply num_eq_lt_trans; eauto.
  - right; eapply num_eq_trans; eauto.
Qed.

Lemma num_lt_irrefl (a b : number) : num_lt a b -> num_eq a b -> False.
Proof.
  unfold num_lt, num_eq; congruence.
Qed.

Lemma num_eqb_iff (a b : number) : num_eqb a b = true <-> num_eq a b.
Proof.
  unfold num_eqb, num_eq. destruct (num_compare a b) as [[ | | ] | ];
    split; congruence.
Qed.

Lemma num_leb_iff (a b : number) : num_leb a b = true <-> num_le a b.
Proof.
  unfold num_leb, num_le, num_lt, num_eq.
  destruct (num_compare a b) as [[ | | ] | ]; split; intros H;
    try congruence; auto; destruct H; congruence.
Qed.

Lemma Qcompare_sub (p q : Q) : (p - q ?= 0)%Q = (p ?= q)%Q.
Proof.
  destruct (p ?= q)%Q eqn:E.
  - apply Qeq_alt in E. apply Qeq_alt. rewrite E. ring.
  - apply Qlt_alt in E. apply Qlt_alt.
    apply Qlt_minus_iff in E. apply Qlt_minus_iff.
    setoid_replace (0 + - (p - q))%Q with (q + - p)%Q by ring. exact E.
  - apply Qgt_alt in E. apply Qgt_alt.
    apply Qlt_minus_iff in E. setoid_replace (p - q)%Q with (p + - q)%Q by ring.
    exact E.
Qed.

(** The sign of a difference is the comparison of its operands, two
    equal infinities giving NaN. *)
Lemma comes_after_sub (a b : number) :
  comes_after (num_sub a b) = true <-> num_compare a b = Some Gt.
Proof.
  unfold comes_after, num_sign.
  destruct a, b; simpl; try (split; congruence).
  rewrite Qcompare_sub. destruct (q ?= q0)%Q; split; congruence.
Qed.

Lemma comes_after_opp_sub (a b : number) :
  comes_after (num_mul (num (-1)) (num_sub a b)) = true <-> num_compare a b = Some Lt.
Proof.
  unfold comes_after, num_sign.
  destruct a, b; simpl; try (split; congruence).
  setoid_replace (inject_Z (-1) * (q - q0))%Q with (q0 - q)%Q by ring.
  change (inject_Z 0) with 0%Q. rewrite Qcompare_sub, <- Qcompare_antisym.
  destruct (q ?= q0)%Q; simpl; split; congruence.
Qed.

(** ** Facts about arrays: [slice] and [sort] *)

Lemma slice_end_le (len : nat) (e : number) : (slice_end len e <= len)%nat.
Proof.
  destruct e; simpl; try lia.
  destruct (Qtrunc q <? 0)%Z eqn:E; lia.
Qed.

Lemma slice0_length {A : Type} (l : list A) (e : number) :
  List.length (slice0 l e) = slice_end (List.length l) e.
Proof.
  unfold slice0. rewrite length_firstn. pose proof (slice_end_le (List.length l) e). lia.
Qed.

Lemma slice0_In {A : Type} (l : list A) (e : number) (x : A) :
  In x (slice0 l e) -> In x l.
Proof.
  unfold slice0. generalize (slice_end (List.length l) e) as n.
  intros n. revert l. induction n as [ | n IH]; intros [ | y l]; simpl; try tauto.
  intros [H | H]; auto.
Qed.

Lemma slice0_sorted {A : Type} (R : A -> A -> Prop) (l : list A) (e : number) :
  StronglySorted R l -> StronglySorted R (slice0 l e).
Proof.
  unfold slice0. generalize (slice_end (List.length l) e) as n.
  intros n H. revert n. induction H as [ | x l Hs IH Hx]; intros [ | n]; simpl;
    try constructor; auto.
  rewrite Forall_forall in *. intros y Hy. apply Hx.
  revert Hy. clear. revert l. induction n as [ | n IH]; intros [ | z l]; simpl; try tauto.
  intros [H | H]; auto.
Qed.

Lemma slice0_map {A B : Type} (f : A -> B) (l : list A) (e : number) :
  slice0 (map f l) e = map f (slice0 l e).
Proof.
  unfold slice0. rewrite length_map. apply firstn_map.
Qed.

Section SortFacts.
Context {A : Type}.
Variable cmp : A -> A -> number.

Lemma sort_insert_perm (x : A) (l : list A) :
  Permutation (sort_insert cmp x l) (x :: l).
Proof.
  induction l as [ | y l IH]; simpl.
  - reflexivity.
  - destruct (comes_after (cmp x y)).
    + rewrite IH. apply perm_swap.
    + reflexivity.
Qed.

Lemma sort_perm (l : list A) : Permutation (sort cmp l) l.
Proof.
  induction l as [ | x l IH]; simpl.
  - constructor.
  - rewrite sort_insert_perm. now constructor.
Qed.

Lemma sort_length (l : list A) : List.length (sort cmp l) = List.length l.
Proof.
  apply Permutation_length, sort_perm.
Qed.

(** Sortedness, for a comparator that is consistent on the elements
    satisfying [P]. *)
Variable P : A -> Prop.
Variable R : A -> A -> Prop.
Hypothesis R_after : forall x y, P x -> P y -> comes_after (cmp x y) = true -> R y x.
Hypothesis R_keep : forall x y, P x -> P y -> comes_after (cmp x y) = false -> R x y.
Hypothesis R_trans : forall x y z, P x -> P y -> P z -> R x y -> R y z -> R x z.

Lemma sort_insert_sorted (x : A) (l : list A) :
  P x -> Forall P l -> StronglySorted R l -> StronglySorted R (sort_insert cmp x l).
Proof.
  intros Px Pl Hs. induction Hs as [ | y l Hs IH Hy]; simpl.
  - repeat constructor.
  - inversion Pl as [ | ? ? Py Pl']; subst.
    destruct (comes_after (cmp x y)) eqn:E.
    + constructor; [now apply IH | ].
      rewrite Forall_forall in *. intros z Hz.
      apply (Permutation_in _ (sort_insert_perm x l)) in Hz.
      destruct Hz as [<- | Hz]; auto.
    + constructor; [now constructor | ].
      constructor; [now apply R_keep | ].
      rewrite Forall_forall in *. intros z Hz.
      apply R_trans with y; auto.
Qed.

Lemma sort_sorted (l : list A) : Forall P l -> StronglySorted R (sort cmp l).
Proof.
  induction 1 as [ | x l Px Pl IH]; simpl.
  - constructor.
  - apply sort_insert_sorted; auto.
    rewrite Forall_forall in *. intros y Hy.
    apply Pl. now apply (Permutation_in _ (sort_perm l)).
Qed.
End SortFacts.

Lemma sort_insert_map {A B : Type} (f : A -> B) (cmpA : A -> A -> number)
  (cmpB : B -> B -> number) (x : A) (l : list A) :
  (forall a b, cmpB (f a) (f b) = cmpA a b) ->
  sort_insert cmpB (f x) (map f l) = map f (sort_insert cmpA x l).
Proof.
  intros H. induction l as [ | y l IH]; simpl; [reflexivity | ].
  rewrite H. destruct (comes_after (cmpA x y)); simpl; congruence.
Qed.

Lemma sort_map {A B : Type} (f : A -> B) (cmpA : A -> A -> number)
  (cmpB : B -> B -> number) (l : list A) :
  (forall a b, cmpB (f a) (f b) = cmpA a b) ->
  sort cmpB (map f l) = map f (sort cmpA l).
Proof.
  intros H. induction l as [ | x l IH]; simpl; [reflexivity | ].
  rewrite IH. now apply sort_insert_map.
Qed.

(** ** Facts about running programs *)

Lemma run_bind {A B : Type} (w : world) (p : prog A) (f : A -> prog B) :
  forall hist,
    run w hist (bind p f) =
    match run w hist p with
    | (t, inl a) => let (t', r) := run w (hist ++ t)%list (f a) in ((t ++ t')%list, r)
    | (t, inr e) => (t, inr e)
    end.
Proof.
  induction p as [a | e | X ev k IH]; intros hist; simpl.
  - rewrite app_nil_r. now destruct (run w hist (f a)).
  - reflexivity.
  - rewrite IH. destruct (run w (hist ++ [Called ev (w X hist ev)])%list (k (w X hist ev)))
      as [t [a | e]]; [ | reflexivity].
    rewrite <- app_assoc. simpl.
    now destruct (run w (hist ++ Called ev (w X hist ev) :: t)%list (f a)).
Qed.

Lemma run_try_catch {A : Type} (w : world) (p : prog A) (h : jserror -> prog A) :
  forall hist,
    run w hist (try_catch p h) =
    match run w hist p with
    | (t, inl a) => (t, inl a)
    | (t, inr e) => let (t', r) := run w (hist ++ t)%list (h e) in ((t ++ t')%list, r)
    end.
Proof.
  induction p as [a | e | X ev k IH]; intros hist; simpl.
  - reflexivity.
  - rewrite app_nil_r. now destruct (run w hist (h e)).
  - rewrite IH. destruct (run w (hist ++ [Called ev (w X hist ev)])%list (k (w X hist ev)))
      as [t [a | e]]; [reflexivity | ].
    rewrite <- app_assoc. simpl.
    now destruct (run w (hist ++ Called ev (w X hist ev) :: t)%list (h e)).
Qed.

Lemma run_await {X : Type} (w : world) (hist : list entry) (ev : event X) :
  run w hist (await ev) =
  ([Called ev (w X hist ev)],
   match w X hist ev with Fulfilled x => inl x | Rejected e => inr e end).
Proof.
  unfold await; simpl. now destruct (w X hist ev).
Qed.

Lemma commands_app (t t' : list entry) :
  commands (t ++ t') = (commands t ++ commands t')%list.
Proof.
  induction t as [ | c t IH]; simpl; [reflexivity | ].
  destruct (command_of c); simpl; now rewrite IH.
Qed.

Lemma searches_app (t t' : list entry) :
  searches (t ++ t') = (searches t ++ searches t')%list.
Proof.
  unfold searches. now rewrite commands_app, filter_app.
Qed.

Lemma embedded_app (t t' : list entry) :
  embedded (t ++ t') = (embedded t ++ embedded t')%list.
Proof.
  induction t as [ | [X ev o] t IH]; simpl; [reflexivity | ].
  destruct ev; simpl; now rewrite IH.
Qed.

(** ** The search handler: the calls it makes *)

Arguments query_index : simpl never.
Arguments collect_rows : simpl never.
Arguments search_response : simpl never.
Arguments argsWithDialect : simpl never.
Arguments argsNoDialect : simpl never.
Arguments destructure : simpl never.
Arguments expandedQuery : simpl never.

Ltac run_step :=
  repeat (rewrite ?run_bind, ?run_try_catch, ?run_await; cbn).

Section SearchFacts.
Context {prims : JsPrims}.
Variable env : process_env.

Lemma args_dialect_split (r : request) (vec : buffer) :
  argsWithDialect env r vec
  = (argsNoDialect env r vec ++ [AStr "DIALECT"; AStr "2"])%list.
Proof.
  reflexivity.
Qed.

Lemma is_search_with_dialect (r : request) (vec : buffer) (ok : bool) :
  is_search (argsWithDialect env r vec, ok) = true.
Proof.
  reflexivity.
Qed.

Lemma is_search_no_dialect (r : request) (vec : buffer) (ok : bool) :
  is_search (argsNoDialect env r vec, ok) = true.
Proof.
  reflexivity.
Qed.

(** The detail lookup of one row always returns a row, the same up to
    its detail payload, and sends no index query. *)
Lemma join_detail_returns (w : world) (hist : list entry) (details : bool) (r : row) :
  exists t r',
    run w hist (join_detail env details r) = (t, inl r') /\
    searches t = [] /\
    clear_product r' = clear_product r.
Proof.
  unfold join_detail.
  destruct (code r) as [c | ]; [ | now exists [], r].
  destruct (details && negb (is_empty c)); [ | now exists [], r].
  run_step.
  destruct (w reply hist _) as [jraw | e]; simpl.
  - unfold attach. destruct (reply_text (Some jraw)) as [jtext | ]; simpl.
    + destruct (is_empty jtext); simpl.
      * eexists _, r; repeat split.
      * destruct (JSON_parse jtext) as [j | ]; simpl.
        -- eexists _, (set_product r j); repeat split.
        -- eexists _, r; repeat split.
    + eexists _, r; repeat split.
  - eexists _, r; repeat split.
Qed.

Lemma collect_searches (w : world) (details : bool) (l : list reply) :
  forall hist, searches (fst (run w hist (collect env details l))) = [].
Proof.
  assert (H : (forall hist, searches (fst (run w hist (collect env details l))) = []) /\
              (forall x hist,
                  searches (fst (run w hist (collect env details (x :: l)))) = [])).
  { induction l as [ | y l [IH1 IH2]]; split; intros; try reflexivity.
    - apply IH2.
    - cbn [collect]. destruct (elements y) as [fs | ]; [ | reflexivity].
      run_step.
      destruct (join_detail_returns w hist details (row_of (doc_fields fs [])))
        as (t & r' & -> & Ht & _).
      run_step. specialize (IH1 (hist ++ t)%list).
      destruct (run w (hist ++ t)%list (collect env details l)) as [t' [rs | e]];
        simpl in *; rewrite ?app_nil_r, searches_app, Ht, IH1; reflexivity. }
  apply H.
Qed.

Lemma collect_rows_searches (w : world) (details : bool) (raw : reply) (hist : list entry) :
  searches (fst (run w hist (collect_rows env details raw))) = [].
Proof.
  unfold collect_rows. destruct (elements raw) as [[ | x l] | ]; try reflexivity.
  apply collect_searches.
Qed.
(** The index query, call by call. *)
Lemma run_query_index (w : world) (hist : list entry) (r : request) (vec : buffer) :
  run w hist (query_index env r vec) =
  let first := sendCommand (argsWithDialect env r vec) in
  let c := Called first (w reply hist first) in
  match w reply hist first with
  | Fulfilled raw => ([c], inl raw)
  | Rejected _ =>
      let second := sendCommand (argsNoDialect env r vec) in
      let o := w reply (hist ++ [c])%list second in
      ([c; Called second o],
       match o with Fulfilled raw => inl raw | Rejected e => inr e end)
  end.
Proof.
  unfold query_index. run_step.
  destruct (w reply hist (sendCommand (argsWithDialect env r vec))) as [raw | e];
    simpl; [reflexivity | ].
  now destruct (w reply _ (sendCommand (argsNoDialect env r vec))).
Qed.

(** The handler after validation, stage by stage. *)
Lemma run_handle (w : world) (hist : list entry) (r : request) :
  missing_query_text (query_text r) = false ->
  run w hist (handle env r) =
  let c1 := Called getRedisClient (w unit hist getRedisClient) in
  match w unit hist getRedisClient with
  | Rejected e => ([c1], inr e)
  | Fulfilled _ =>
      let h1 := (hist ++ [c1])%list in
      let ev := embeddings_create (embedModel env) [expandedQuery r] (embDim env) in
      let c2 := Called ev (w (list number) h1 ev) in
      match w (list number) h1 ev with
      | Rejected e => ([c1; c2], inr e)
      | Fulfilled emb =>
          let h2 := (h1 ++ [c2])%list in
          let (tq, rq) := run w h2 (query_index env r (Float32Buffer emb)) in
          match rq with
          | inr e => (c1 :: c2 :: tq, inr e)
          | inl raw =>
              let (tc, rc) :=
                run w (h2 ++ tq)%list
                  (collect_rows env (truthy (include_details r)) raw) in
              ((c1 :: c2 :: tq ++ tc)%list,
               match rc with
               | inl items => inl (search_response r items)
               | inr e => inr e
               end)
          end
      end
  end.
Proof.
  intros Hq. unfold handle. rewrite Hq.
  rewrite run_bind, run_await.
  destruct (w unit hist getRedisClient) as [[] | e]; [ | reflexivity].
  cbv beta iota zeta. rewrite run_bind, run_await.
  match goal with
  | |- context [w (list number) ?h ?ev] => destruct (w (list number) h ev) as [emb | e]
  end; [ | reflexivity].
  cbv beta iota zeta. rewrite run_bind.
  match goal with
  | |- context [run w ?h (query_index env ?r ?v)] =>
      destruct (run w h (query_index env r v)) as [tq [raw | e]]
  end; [ | reflexivity].
  rewrite run_bind.
  match goal with
  | |- context [run w ?h (collect_rows env ?d ?x)] =>
      destruct (run w h (collect_rows env d x)) as [tc [items | e]]
  end; cbn [run app]; rewrite ?app_nil_r; reflexivity.
Qed.

Lemma run_POST_body (w : world) (hist : list entry) (b : json) :
  missing_query_text (query_text (destructure b)) = false ->
  run w hist (POST_body env b) =
  let r := destructure b in
  let c1 := Called getRedisClient (w unit hist getRedisClient) in
  match w unit hist getRedisClient with
  | Rejected e => ([c1], inr e)
  | Fulfilled _ =>
      let h1 := (hist ++ [c1])%list in
      let ev := embeddings_create (embedModel env) [expandedQuery r] (embDim env) in
      let c2 := Called ev (w (list number) h1 ev) in
      match w (list number) h1 ev with
      | Rejected e => ([c1; c2], inr e)
      | Fulfilled emb =>
          let h2 := (h1 ++ [c2])%list in
          let (tq, rq) := run w h2 (query_index env r (Float32Buffer emb)) in
          match rq with
          | inr e => (c1 :: c2 :: tq, inr e)
          | inl raw =>
              let (tc, rc) :=
                run w (h2 ++ tq)%list
                  (collect_rows env (truthy (include_details r)) raw) in
              ((c1 :: c2 :: tq ++ tc)%list,
               match rc with
               | inl items => inl (search_response r items)
               | inr e => inr e
               end)
          end
      end
  end.
Proof.
  intros Hq. unfold POST_body. now apply run_handle.
Qed.

(** The handler as a whole: whatever is thrown becomes the 500 response. *)
Lemma run_POST (w : world) (hist : list entry) (b : json) :
  run w hist (POST env (Fulfilled b)) =
  match run w hist (POST_body env b) with
  | (t, inl resp) => (t, inl resp)
  | (t, inr e) =>
      (t, inl {| status := 500;
                 body := ErrorPayload "Failed to query Redis" (Some (error_text e)) |})
  end.
Proof.
  unfold POST. run_step.
  destruct (run w hist (POST_body env b)) as [t [resp | e]]; simpl;
    rewrite ?app_nil_r; reflexivity.
Qed.

Lemma run_POST_rejected (w : world) (hist : list entry) (e : jserror) :
  run w hist (POST env (Rejected e)) =
  ([], inl {| status := 500;
              body := ErrorPayload "Failed to query Redis" (Some (error_text e)) |}).
Proof.
  reflexivity.
Qed.

Lemma run_POST_missing (w : world) (hist : list entry) (b : json) :
  missing_query_text (query_text (destructure b)) = true ->
  run w hist (POST env (Fulfilled b)) =
  ([], inl {| status := 400; body := ErrorPayload "Missing query_text" None |}).
Proof.
  intros Hq. rewrite run_POST. unfold POST_body, handle. now rewrite Hq.
Qed.
End SearchFacts.


Lemma searches_client (o : outcome unit) (t : list entry) :
  searches (Called getRedisClient o :: t) = searches t.
Proof.
  reflexivity.
Qed.

Lemma searches_embedding (m : string) (i : list string) (d : number)
  (o : outcome (list number)) (t : list entry) :
  searches (Called (embeddings_create m i d) o :: t) = searches t.
Proof.
  reflexivity.
Qed.

Lemma searches_command (args : list arg) (o : outcome reply) (t : list entry) :
  is_search (args, true) = true ->
  searches (Called (sendCommand args) o :: t)
  = (args, match o with Fulfilled _ => true | Rejected _ => false end) :: searches t.
Proof.
  intros H. unfold searches. destruct o; simpl; unfold is_search in *; simpl in *;
    now rewrite H.
Qed.

(** C5. The index query is first sent with the dialect flag; when that
    attempt fails it is sent once more, with the same arguments less the
    last two (the flag), and never a third time.  Over every request and
    every behaviour of the collaborators, the index queries of one
    handling are: none, and then the handling stopped before the index
    (unreadable body, missing query text, no Redis client, embedding
    refused); the flagged one alone, succeeding; or the flagged one
    failing, followed by the unflagged one and nothing else. *)
Theorem dialect_fallback_once {prims : JsPrims} (env : process_env) (w : world)
  (hist : list entry) (req_json : outcome json) :
  let t := fst (run w hist (POST env req_json)) in
  (searches t = [] /\
   ((exists e, req_json = Rejected e) \/
    (exists b, req_json = Fulfilled b /\
               missing_query_text (query_text (destructure b)) = true) \/
    (exists e, w unit hist getRedisClient = Rejected e) \/
    (exists b e,
        req_json = Fulfilled b /\
        w (list number)
          (hist ++ [Called getRedisClient (w unit hist getRedisClient)])%list
          (embeddings_create (embedModel env) [expandedQuery (destructure b)]
             (embDim env))
        = Rejected e))) \/
  exists b vec,
    req_json = Fulfilled b /\
    argsWithDialect env (destructure b) vec
    = (argsNoDialect env (destructure b) vec ++ [AStr "DIALECT"; AStr "2"])%list /\
    (searches t = [(argsWithDialect env (destructure b) vec, true)] \/
     exists ok,
       searches t = [(argsWithDialect env (destructure b) vec, false);
                     (argsNoDialect env (destructure b) vec, ok)]).
Proof.
  intros t. subst t.
  destruct req_json as [b | e]; [ | left; split; [reflexivity | eauto]].
  destruct (missing_query_text (query_text (destructure b))) eqn:Hq.
  { left. rewrite run_POST_missing by assumption. split; [reflexivity | eauto]. }
  rewrite run_POST, run_POST_body by assumption. cbv zeta.
  destruct (w unit hist getRedisClient) as [[] | e] eqn:Hc1;
    [ | left; split; [reflexivity | eauto]].
  match goal with
  | |- context [w (list number) ?h ?ev] =>
      destruct (w (list number) h ev) as [emb | e] eqn:Hc2
  end; [ | left; split; [reflexivity | eauto 8]].
  right. exists b, (Float32Buffer emb).
  split; [reflexivity | ]. split; [apply args_dialect_split | ].
  rewrite run_query_index. cbv zeta.
  match goal with
  | |- context [w reply ?h (sendCommand (argsWithDialect ?en ?r ?v))] =>
      destruct (w reply h (sendCommand (argsWithDialect en r v))) as [raw | e1]
  end.
  - left.
    match goal with
    | |- context [run w ?h (collect_rows env ?d ?x)] =>
        pose proof (collect_rows_searches env w d x h) as Hc;
        destruct (run w h (collect_rows env d x)) as [tc [items | e2]]
    end; cbn [fst] in *;
      rewrite searches_client, searches_embedding; cbn [app];
      rewrite searches_command by apply is_search_with_dialect;
      now rewrite Hc.
  - right.
    match goal with
    | |- context [w reply ?h (sendCommand (argsNoDialect ?en ?r ?v))] =>
        destruct (w reply h (sendCommand (argsNoDialect en r v))) as [raw | e2]
    end.
    + exists true.
      match goal with
      | |- context [run w ?h (collect_rows env ?d ?x)] =>
          pose proof (collect_rows_searches env w d x h) as Hc;
          destruct (run w h (collect_rows env d x)) as [tc [items | e3]]
      end; cbn [fst] in *;
        rewrite searches_client, searches_embedding; cbn [app];
        rewrite searches_command by apply is_search_with_dialect;
        rewrite searches_command by apply is_search_no_dialect;
        now rewrite Hc.
    + exists false. cbn [fst].
      rewrite searches_client, searches_embedding.
      rewrite searches_command by apply is_search_with_dialect.
      rewrite searches_command by apply is_search_no_dialect.
      reflexivity.
Qed.

(** ** The search handler: what it returns *)

Section SearchResults.
Context {prims : JsPrims}.
Variable env : process_env.

(** A returned item list is the arranged list of the collected rows. *)
Lemma POST_items (w : world) (hist t : list entry) (req_json : outcome json)
  (resp : response) (items : list row) :
  run w hist (POST env req_json) = (t, inl resp) ->
  items_of resp = Some items ->
  exists b rows,
    req_json = Fulfilled b /\
    resp = search_response (destructure b) rows /\
    items = arrange (order (destructure b)) (kLimit (destructure b)) rows.
Proof.
  destruct req_json as [b | e].
  2:{ rewrite run_POST_rejected. intros [= <- <-]. discriminate. }
  destruct (missing_query_text (query_text (destructure b))) eqn:Hq.
  { rewrite run_POST_missing by assumption. intros [= <- <-]. discriminate. }
  rewrite run_POST, run_POST_body by assumption. cbv zeta.
  destruct (w unit hist getRedisClient) as [[] | e].
  2:{ intros [= <- <-]. discriminate. }
  match goal with
  | |- context [w (list number) ?h ?ev] => destruct (w (list number) h ev) as [emb | e]
  end.
  2:{ intros [= <- <-]. discriminate. }
  match goal with
  | |- context [run w ?h (query_index env ?r ?v)] =>
      destruct (run w h (query_index env r v)) as [tq [raw | e]]
  end.
  2:{ intros [= <- <-]. discriminate. }
  match goal with
  | |- context [run w ?h (collect_rows env ?d ?x)] =>
      destruct (run w h (collect_rows env d x)) as [tc [rows | e]]
  end.
  2:{ intros [= <- <-]. discriminate. }
  intros [= <- <-]. unfold search_response, items_of. cbn [body].
  intros [= <-]. now exists b, rows.
Qed.
End SearchResults.

Lemma Qtrunc_nonneg (m : Q) : (0 <= m)%Q -> (0 <= Qtrunc m)%Z.
Proof.
  unfold Qle, Qtrunc; simpl. intros H.
  apply Z.quot_pos; lia.
Qed.

Lemma Qtrunc_le (m : Q) : (0 <= m)%Q -> (inject_Z (Qtrunc m) <= m)%Q.
Proof.
  intros H. destruct m as [n d]. unfold Qtrunc; cbn [Qnum Qden].
  rewrite Z.quot_div_nonneg; [apply (Qfloor_le (n # d)) | | lia].
  unfold Qle in H; simpl in H. lia.
Qed.

Lemma slice_end_bound (n : nat) (m : Q) :
  (0 <= m)%Q -> (inject_Z (Z.of_nat (slice_end n (Fin m))) <= m)%Q.
Proof.
  intros H. unfold slice_end.
  pose proof (Qtrunc_nonneg m H) as Hr.
  destruct (Qtrunc m <? 0)%Z eqn:E; [apply Z.ltb_lt in E; lia | ].
  apply Qle_trans with (inject_Z (Qtrunc m)); [ | now apply Qtrunc_le].
  rewrite <- Zle_Qle. lia.
Qed.

(** C1, as amended.  When [Number(k)] is a finite number that is not
    negative (an absent [k] counts as 8), the returned list has at most
    5 items, and at most [min(5, k)] when [k] is positive.  A [k] of 0
    stands for the default 5 and does not bound the list by 0. *)
Theorem returned_count_capped {prims : JsPrims} (env : process_env) (w : world)
  (hist t : list entry) (b : json) (q : Q) (resp : response) (items : list row) :
  ToNumber (req_k (destructure b)) = Fin q ->
  (0 <= q)%Q ->
  run w hist (POST env (Fulfilled b)) = (t, inl resp) ->
  items_of resp = Some items ->
  (List.length items <= 5)%nat /\
  ((0 < q)%Q -> within_requested (Fin q) items = true).
Proof.
  intros Hk Hq Hrun Hitems.
  destruct (POST_items env w hist t _ resp items Hrun Hitems) as (b' & rows & [= <-] & _ & ->).
  unfold arrange. rewrite slice0_length, sort_length.
  unfold kLimit, within_requested. rewrite Hk. unfold or5, truthy_number.
  rewrite slice0_length, sort_length.
  destruct (Qeq_bool q 0) eqn:E0; cbn [negb].
  - split.
    + change (Math_min (num 5) (num 5)) with (num 5).
      pose proof (slice_end_bound (List.length rows) (inject_Z 5)) as H5.
      unfold num in *. rewrite <- Zle_Qle in H5. specialize (H5 ltac:(discriminate)). lia.
    + intros Hpos. apply Qeq_bool_iff in E0. rewrite E0 in Hpos. discriminate.
  - assert (Hm : exists m, Math_min (num 5) (Fin q) = Fin m /\ (0 <= m)%Q /\
                           (m <= 5)%Q /\ (m <= q)%Q).
    { unfold Math_min, num; cbn [num_compare].
      destruct (inject_Z 5 ?= q)%Q eqn:E.
      - exists (inject_Z 5). apply Qeq_alt in E. repeat split; try discriminate.
        rewrite <- E. apply Qle_refl.
      - exists (inject_Z 5). apply Qlt_alt in E. repeat split; try discriminate.
        now apply Qlt_le_weak.
      - exists q. apply Qgt_alt in E. repeat split; auto using Qle_refl.
        now apply Qlt_le_weak. }
    destruct Hm as (m & -> & Hm0 & Hm5 & Hmq).
    pose proof (slice_end_bound (List.length rows) m Hm0) as Hb.
    split.
    + assert (H5 : (inject_Z (Z.of_nat (slice_end (List.length rows) (Fin m))) <= inject_Z 5)%Q)
        by (eapply Qle_trans; eauto).
      rewrite <- Zle_Qle in H5. lia.
    + intros _. unfold num_leb, num; cbn [num_compare].
      destruct (inject_Z (Z.of_nat (slice_end (List.length rows) (Fin m))) ?= m)%Q
        eqn:E; try reflexivity.
      apply Qle_alt in Hb. contradiction.
Qed.

Lemma returned_count_capped_witness :
  ToNumber (prims := sample_prims)
    (req_k (destructure (text_query [("k", JNum (num 3))]))) = Fin 3 /\
  (0 <= 3)%Q /\
  exists t resp items,
    sample_search two_docs no_detail [("k", JNum (num 3))] = (t, inl resp) /\
    items_of resp = Some items /\
    (List.length items <= 5)%nat /\
    ((0 < 3)%Q -> within_requested (Fin 3) items = true).
Proof.
  split; [reflexivity | ]. split; [discriminate | ].
  do 3 eexists. split; [vm_compute; reflexivity | ]. split; [reflexivity | ].
  eapply (returned_count_capped (prims := sample_prims) no_env
            (sample_world a_vector (Fulfilled two_docs) (Fulfilled two_docs) no_detail)
            [] _ (text_query [("k", JNum (num 3))]) 3).
  - reflexivity.
  - discriminate.
  - vm_compute. reflexivity.
  - reflexivity.
Defined.

(** C1 as stated fails at [k = 0]: two candidates are returned, more
    than [min(5, 0)]. *)
Lemma zero_k_is_not_a_bound :
  exists t resp items,
    sample_search two_docs no_detail [("k", JNum (num 0))] = (t, inl resp) /\
    items_of resp = Some items /\
    List.length items = 2%nat /\
    within_requested (num 0) items = false.
Proof.
  do 3 eexists. split; [vm_compute; reflexivity | ].
  split; [reflexivity | ]. split; reflexivity.
Qed.

(** The mode is [price_desc] for that very string and [price_asc] for
    everything else: [relevance], an absent [sort_by], any other value. *)
Lemma order_spec `{JsPrims} (b : json) :
  order (destructure b) =
  match sort_by (destructure b) with
  | Some (JStr s) => if String.eqb s "price_desc" then price_desc else price_asc
  | _ => price_asc
  end.
Proof.
  reflexivity.
Qed.


(** ** The final ordering *)

Lemma comes_after_one_mul (x : number) :
  comes_after (num_mul (num 1) x) = comes_after x.
Proof.
  destruct x; try reflexivity.
  unfold comes_after, num_sign, num_mul, num; cbn [num_compare].
  now setoid_replace (inject_Z 1 * q)%Q with q by ring.
Qed.

Lemma price_key_sound (a : row) : sound_keys a -> price_key a <> NaN.
Proof.
  unfold sound_keys, price_key. intros [H _]. destruct (price a); congruence.
Qed.

Lemma score_key_sound (a : row) : sound_keys a -> score_key a <> NaN.
Proof.
  unfold sound_keys, score_key, num. intros [_ H]. destruct (score a); congruence.
Qed.

Section CompareRows.
Variable o : ordering.

Lemma compare_rows_after (x y : row) :
  sound_keys x -> sound_keys y ->
  comes_after (compare_rows o x y) = true -> precedes o y x.
Proof.
  intros Hx Hy. unfold compare_rows, precedes.
  destruct (num_eqb (price_key x) (price_key y)) eqn:E.
  - apply num_eqb_iff in E. intros H. apply comes_after_sub in H.
    right. split; [now apply num_eq_sym | ].
    left. apply (num_compare_antisym _ _ _ H).
  - destruct o; cbn [dir].
    + rewrite comes_after_one_mul. intros H. apply comes_after_sub in H.
      left. apply (num_compare_antisym _ _ _ H).
    + intros H. apply comes_after_opp_sub in H. now left.
Qed.

Lemma compare_rows_keep (x y : row) :
  sound_keys x -> sound_keys y ->
  comes_after (compare_rows o x y) = false -> precedes o x y.
Proof.
  intros Hx Hy. unfold compare_rows, precedes.
  destruct (num_compare_total (price_key x) (price_key y)) as [cp Hcp];
    auto using price_key_sound.
  destruct (num_compare_total (score_key x) (score_key y)) as [cs Hcs];
    auto using score_key_sound.
  unfold num_eqb. rewrite Hcp.
  destruct cp.
  - intros H. right. split; [exact Hcp | ].
    destruct cs; [now right | now left | ].
    apply comes_after_sub in Hcs. congruence.
  - destruct o; cbn [dir]; intros H.
    + now left.
    + apply comes_after_opp_sub in Hcp. congruence.
  - destruct o; cbn [dir]; intros H.
    + rewrite comes_after_one_mul in H. apply comes_after_sub in Hcp. congruence.
    + left. apply (num_compare_antisym _ _ _ Hcp).
Qed.

Lemma precedes_trans (x y z : row) :
  precedes o x y -> precedes o y z -> precedes o x z.
Proof.
  unfold precedes. intros [H1 | [H1 S1]] [H2 | [H2 S2]].
  - left. destruct o; eapply num_lt_trans; eauto.
  - left. destruct o; [eapply num_lt_eq_trans; eauto | ].
    eapply num_eq_lt_trans; eauto using num_eq_sym.
  - left. destruct o; [eapply num_eq_lt_trans; eauto | ].
    eapply num_lt_eq_trans; eauto using num_eq_sym.
  - right. split; [eapply num_eq_trans | eapply num_le_trans]; eauto.
Qed.
End CompareRows.

Lemma sorted_tail {A : Type} (R : A -> A -> Prop) (pre : list A) (a : A) (post : list A) :
  StronglySorted R (pre ++ a :: post) -> Forall (R a) post.
Proof.
  induction pre as [ | x pre IH]; simpl; intros H; inversion H; subst; auto.
Qed.

Example price_asc_order :
  map code (arrange price_asc (num 5)
              [priced "A" 10 0.1; unpriced "B" 0.2; priced "C" 10 0.05])
  = [Some "C"; Some "A"; Some "B"].
Proof.
  reflexivity.
Qed.

(** C3 as stated fails for [price_desc]: the candidate without price is
    returned first, before the priced one. *)
Lemma price_desc_puts_unpriced_first :
  exists t resp items,
    sample_search priced_and_unpriced no_detail [("sort_by", JStr "price_desc")]
    = (t, inl resp) /\
    items_of resp = Some items /\
    map code items = [Some "B"; Some "A"] /\
    ~ missing_price_last items.
Proof.
  do 3 eexists. split; [vm_compute; reflexivity | ].
  split; [reflexivity | ]. split; [reflexivity | ].
  intros H. specialize (H [] _ _ eq_refl eq_refl).
  inversion H as [ | ? ? Hp _]; subst. now apply (Hp 10%Q).
Qed.

(** A price that is not numeric text is NaN, which the comparator takes
    for a number: its key is NaN, not +infinity. *)
Example non_numeric_price_is_nan :
  price_key (row_of (prims := sample_prims) [("code", "A"); ("price", "n/a")]) = NaN.
Proof.
  reflexivity.
Qed.

(** ** The default mode *)

(** A list that the comparator already keeps in order is left as it is. *)
Lemma sort_kept {A : Type} (cmp : A -> A -> number) (l : list A) :
  StronglySorted (fun a b => comes_after (cmp a b) = false) l -> sort cmp l = l.
Proof.
  induction 1 as [ | x l Hs IH Hx]; [reflexivity | ].
  cbn [sort fold_right]. fold (sort cmp l). rewrite IH.
  destruct l as [ | y l']; [reflexivity | ].
  inversion Hx as [ | ? ? Hy _]; subst. cbn [sort_insert]. now rewrite Hy.
Qed.

(** ** The detail join *)

Section DetailJoin.
Context {prims : JsPrims}.
Variable env : process_env.

(** One row: the lookup always hands a row back, and a payload is
    attached only when the lookup was fulfilled with text that parses. *)
Lemma join_detail_row (w : world) (hist : list entry) (r : row) :
  exists t r',
    run w hist (join_detail env true r) = (t, inl r') /\
    (r' = r \/
     exists c jraw jtext j,
       code r = Some c /\
       w reply hist (sendCommand [AStr "JSON.GET"; AStr (JSON_PREFIX env ++ c)])
       = Fulfilled jraw /\
       reply_text (Some jraw) = Some jtext /\
       JSON_parse jtext = Some j /\
       r' = set_product r j).
Proof.
  unfold join_detail.
  destruct (code r) as [c | ] eqn:Hc; [ | exists [], r; auto].
  cbn [andb]. destruct (negb (is_empty c)); [ | exists [], r; auto].
  rewrite run_try_catch, run_bind, run_await.
  destruct (w reply hist _) as [jraw | e] eqn:Hw; cbv beta iota zeta.
  - unfold attach. destruct (reply_text (Some jraw)) as [jtext | ] eqn:Ht.
    + destruct (is_empty jtext).
      * eexists _, r. split; [reflexivity | auto].
      * destruct (JSON_parse jtext) as [j | ] eqn:Hj.
        -- eexists _, (set_product r j). split; [reflexivity | ].
           right. now exists c, jraw, jtext, j.
        -- eexists _, r. split; [reflexivity | auto].
    + eexists _, r. split; [reflexivity | auto].
  - eexists _, r. split; [reflexivity | auto].
Qed.

Lemma join_detail_off (w : world) (hist : list entry) (r : row) :
  run w hist (join_detail env false r) = ([], inl r).
Proof.
  unfold join_detail. now destruct (code r).
Qed.

(** The rows collected with the join are those collected without it,
    up to the payloads; the loop throws with the join exactly when it
    throws without. *)
Lemma collect_same_rows (details : bool) (l : list reply) (w w' : world) :
  forall hist hist',
    same_rows (snd (run w hist (collect env details l)))
              (snd (run w' hist' (collect env false l))).
Proof.
  assert (H : (forall hist hist',
                  same_rows (snd (run w hist (collect env details l)))
                            (snd (run w' hist' (collect env false l)))) /\
              (forall x hist hist',
                  same_rows (snd (run w hist (collect env details (x :: l))))
                            (snd (run w' hist' (collect env false (x :: l)))))).
  { induction l as [ | y l [IH1 IH2]]; split; intros; try reflexivity.
    - apply IH2.
    - cbn [collect]. destruct (elements y) as [fs | ]; [ | reflexivity].
      rewrite !run_bind, join_detail_off.
      destruct (join_detail_returns env w hist details (row_of (doc_fields fs [])))
        as (t & r' & -> & _ & Hr).
      cbv beta iota zeta. rewrite !run_bind.
      specialize (IH1 (hist ++ t)%list (hist' ++ [])%list).
      destruct (run w (hist ++ t)%list (collect env details l)) as [t1 [rs' | e']];
        destruct (run w' (hist' ++ [])%list (collect env false l)) as [t2 [rs | e]];
        cbn [snd same_rows map app run] in *; try contradiction;
        [rewrite Hr, IH1; reflexivity | assumption]. }

  apply H.
Qed.

Lemma collect_rows_same_rows (details : bool) (raw : reply) (w w' : world)
  (hist hist' : list entry) :
  same_rows (snd (run w hist (collect_rows env details raw)))
            (snd (run w' hist' (collect_rows env false raw))).
Proof.
  unfold collect_rows. destruct (elements raw) as [[ | x l] | ]; try reflexivity.
  apply collect_same_rows.
Qed.

Lemma compare_rows_clear (o : ordering) (a b : row) :
  compare_rows o (clear_product a) (clear_product b) = compare_rows o a b.
Proof.
  reflexivity.
Qed.

Lemma arrange_clear (o : ordering) (limit : number) (rows : list row) :
  map clear_product (arrange o limit rows) = arrange o limit (map clear_product rows).
Proof.
  unfold arrange.
  rewrite (sort_map clear_product (compare_rows o) (compare_rows o)) by reflexivity.
  now rewrite slice0_map.
Qed.

Lemma search_response_strip (r : request) (rows : list row) :
  strip (search_response r rows)
  = search_response (without_details r) (map clear_product rows).
Proof.
  unfold strip, search_response. cbn [status body].
  change (order (without_details r)) with (order r).
  change (kLimit (without_details r)) with (kLimit r).
  cbn [min_price max_price without_details].
  now rewrite <- arrange_clear, length_map.
Qed.
End DetailJoin.

(** Both lookups failing, and both returning text that is not JSON: the
    two candidates are returned, none with a payload. *)
Example failed_lookups_keep_candidates :
  (exists t resp items,
      sample_search two_docs failing_detail [] = (t, inl resp) /\
      status resp = 200%Z /\
      items_of resp = Some items /\
      map code items = [Some "B"; Some "A"] /\
      map product items = [None; None]) /\
  (exists t resp items,
      sample_search two_docs malformed_detail [] = (t, inl resp) /\
      status resp = 200%Z /\
      items_of resp = Some items /\
      map code items = [Some "B"; Some "A"] /\
      map product items = [None; None]).
Proof.
  split; do 3 eexists; (split; [vm_compute; reflexivity | ]); repeat split.
Qed.

(** ** The query text *)

Lemma nul_is_not_space (c : ascii) : is_nul c = true -> is_space c = false.
Proof.
  unfold is_nul, is_space. intros H. apply Nat.eqb_eq in H. now rewrite H.
Qed.

Lemma drop_spaces_all (s : string) : all_spaces s = true -> drop_spaces s = "".
Proof.
  induction s as [ | c s IH]; simpl; [reflexivity | ].
  destruct (is_space c); simpl; [exact IH | discriminate].
Qed.

Lemma drop_spaces_empty (s : string) : drop_spaces s = "" -> all_spaces s = true.
Proof.
  induction s as [ | c s IH]; simpl; [reflexivity | ].
  destruct (is_space c); simpl; [exact IH | discriminate].
Qed.

Lemma drop_spaces_head (s : string) (c : ascii) (s' : string) :
  drop_spaces s = String c s' -> is_space c = false.
Proof.
  induction s as [ | d s IH]; simpl; [discriminate | ].
  destruct (is_space d) eqn:E; [exact IH | ].
  intros [= <- <-]. exact E.
Qed.

Lemma trim_empty_iff (s : string) : trim s = "" <-> all_spaces s = true.
Proof.
  unfold trim. split.
  - destruct (drop_spaces s) as [ | c s'] eqn:E.
    + intros _. now apply drop_spaces_empty.
    + apply drop_spaces_head in E. simpl. rewrite E. simpl. discriminate.
  - intros H. now rewrite drop_spaces_all.
Qed.

Lemma replace_nul_spaces (s : string) :
  all_spaces s = true -> all_spaces (replace_nul s) = true.
Proof.
  induction s as [ | c s IH]; simpl; [reflexivity | ].
  intros H. apply andb_true_iff in H as [Hc Hs].
  destruct (is_nul c) eqn:E.
  - apply nul_is_not_space in E. congruence.
  - now rewrite Hc, IH.
Qed.

Lemma collapse_spaces_spaces (s : string) :
  all_spaces s = true -> all_spaces (collapse_spaces s) = true.
Proof.
  induction s as [ | c s IH]; [reflexivity | ].
  intros H. cbn [all_spaces] in H. apply andb_true_iff in H as [Hc Hs].
  cbn [collapse_spaces]. rewrite Hc.
  destruct s as [ | d s']; [reflexivity | ].
  cbn [all_spaces] in Hs. pose proof Hs as Hs'.
  apply andb_true_iff in Hs' as [Hd _]. rewrite Hd.
  apply IH. cbn [all_spaces]. exact Hs.
Qed.

(** A text that trims to nothing is normalised to the placeholder. *)
Lemma sanitize_blank `{JsPrims} (s : string) :
  trim s = "" -> sanitize (Some (JStr s)) 12000 = ".".
Proof.
  intros Hs. apply trim_empty_iff in Hs.
  unfold sanitize. cbn [ToString].
  assert (E : trim (collapse_spaces (replace_nul s)) = "").
  { apply trim_empty_iff. now apply collapse_spaces_spaces, replace_nul_spaces. }
  rewrite E. reflexivity.
Qed.

(** C7, as amended.  A request whose [query_text] is absent, is not a
    string or is the empty string is answered with status 400 before any
    call is made, to the embedding provider or to Redis.  A [query_text]
    that is not empty but trims to nothing (white space only) is not
    rejected: it is normalised to ["."], and once the Redis client is
    there the embedding of that placeholder is requested. *)
Theorem query_text_validation {prims : JsPrims} (env : process_env) (w : world)
  (hist : list entry) (b : json) :
  (missing_query_text (query_text (destructure b)) = true ->
   run w hist (POST env (Fulfilled b))
   = ([], inl {| status := 400; body := ErrorPayload "Missing query_text" None |})) /\
  (forall s,
      query_text (destructure b) = Some (JStr s) -> s <> "" -> trim s = "" ->
      sanitize (query_text (destructure b)) 12000 = "." /\
      exists o t',
        fst (run w hist (POST env (Fulfilled b))) = Called getRedisClient o :: t' /\
        (o = Fulfilled tt ->
         exists input o' t'',
           t' = Called (embeddings_create (embedModel env) [input] (embDim env)) o' :: t'' /\
           (input = "." \/ input = ". alternative simili correlati"))).
Proof.
  split; [apply run_POST_missing | ].
  intros s Hq Hne Hs.
  assert (Hsan : sanitize (query_text (destructure b)) 12000 = ".")
    by (rewrite Hq; now apply sanitize_blank).
  split; [exact Hsan | ].
  assert (Hm : missing_query_text (query_text (destructure b)) = false).
  { rewrite Hq. destruct s; [contradiction | reflexivity]. }
  rewrite run_POST, run_POST_body by assumption. cbv zeta.
  assert (Hin : expandedQuery (destructure b) = "." \/
                expandedQuery (destructure b) = ". alternative simili correlati").
  { unfold expandedQuery. rewrite Hsan.
    destruct (truthy_value (expanded (destructure b))); auto. }
  destruct (w unit hist getRedisClient) as [[] | e].
  - match goal with
    | |- context [w (list number) ?h ?ev] => destruct (w (list number) h ev) as [emb | e]
    end.
    + match goal with
      | |- context [run w ?h (query_index env ?r ?v)] =>
          destruct (run w h (query_index env r v)) as [tq [raw | e]]
      end.
      * match goal with
        | |- context [run w ?h (collect_rows env ?d ?x)] =>
            destruct (run w h (collect_rows env d x)) as [tc [rows | e]]
        end; cbn [fst]; eexists _, _; (split; [reflexivity | ]);
          intros _; eexists _, _, _; (split; [reflexivity | exact Hin]).
      * cbn [fst]. eexists _, _. split; [reflexivity | ].
        intros _. eexists _, _, _. split; [reflexivity | exact Hin].
    + cbn [fst]. eexists _, _. split; [reflexivity | ].
      intros _. eexists _, _, _. split; [reflexivity | exact Hin].
  - cbn [fst]. eexists _, _. split; [reflexivity | ]. discriminate.
Qed.

Lemma query_text_validation_witness :
  (missing_query_text (query_text (destructure (JObj [("query_text", JStr "")]))) = true /\
   sample_search_of (JObj [("query_text", JStr "")])
   = ([], inl {| status := 400; body := ErrorPayload "Missing query_text" None |})) /\
  (query_text (destructure (JObj [("query_text", JStr "   ")])) = Some (JStr "   ") /\
   "   " <> "" /\ trim "   " = "" /\
   sanitize (prims := sample_prims)
     (query_text (destructure (JObj [("query_text", JStr "   ")]))) 12000 = ".").
Proof.
  pose proof (query_text_validation (prims := sample_prims) no_env
                (sample_world a_vector (Fulfilled two_docs) (Fulfilled two_docs) no_detail)
                [] (JObj [("query_text", JStr "")])) as [H1 _].
  pose proof (query_text_validation (prims := sample_prims) no_env
                (sample_world a_vector (Fulfilled two_docs) (Fulfilled two_docs) no_detail)
                [] (JObj [("query_text", JStr "   ")])) as [_ H2].
  split.
  - split; [reflexivity | ]. exact (H1 eq_refl).
  - split; [reflexivity | ]. split; [discriminate | ]. split; [reflexivity | ].
    exact (proj1 (H2 "   " eq_refl ltac:(discriminate) eq_refl)).
Defined.

(** C7 as stated fails on white space: the text of three spaces trims
    to nothing, yet the request is served (status 200) and the
    placeholder ["."] is sent to the embedding provider. *)
Lemma blank_query_is_embedded :
  trim "   " = "" /\
  exists t resp,
    sample_search_of (JObj [("query_text", JStr "   ")]) = (t, inl resp) /\
    status resp = 200%Z /\
    embedded t = [["."]].
Proof.
  split; [reflexivity | ].
  do 2 eexists. split; [vm_compute; reflexivity | ]. split; reflexivity.
Qed.

(** ** Failures of the search *)

(** C8 as stated fails when the embedding provider refuses the call:
    the text of the provider's error is in the response. *)
Lemma provider_error_text_is_returned :
  exists t resp,
    failing_provider_search (text_query []) = (t, inl resp) /\
    status resp = 500%Z /\
    body resp = ErrorPayload "Failed to query Redis" (Some (err_message quota_error)).
Proof.
  do 2 eexists. split; [vm_compute; reflexivity | ]. split; reflexivity.
Qed.

(** ** The PLP grid *)

Section PlpGridFacts.
Context {prims : JsPrims}.

Lemma by_match_after (x y : json) :
  match_of x <> NaN -> match_of y <> NaN ->
  comes_after (by_match_desc x y) = true -> match_desc y x.
Proof.
  intros _ _ H. apply comes_after_sub in H.
  left. apply (num_compare_antisym _ _ _ H).
Qed.

Lemma by_match_keep (x y : json) :
  match_of x <> NaN -> match_of y <> NaN ->
  comes_after (by_match_desc x y) = false -> match_desc x y.
Proof.
  intros Hx Hy H. unfold match_desc, by_match_desc in *.
  destruct (num_compare_total (match_of y) (match_of x)) as [c Hc]; auto.
  destruct c; [now right | now left | ].
  apply comes_after_sub in Hc. congruence.
Qed.

Lemma match_desc_trans (x y z : json) :
  match_desc x y -> match_desc y z -> match_desc x z.
Proof.
  unfold match_desc. intros H1 H2. eapply num_le_trans; eauto.
Qed.

(** The class for a finite numeric [columns]. *)
Lemma gridColsClass_number (q : Q) :
  gridColsClass (Some (JNum (Fin q))) =
  if Qle_bool 6 q then "md:grid-cols-6"
  else if Qeq_bool q 2 then "md:grid-cols-2"
  else if Qeq_bool q 4 then "md:grid-cols-4"
  else if Qeq_bool q 5 then "md:grid-cols-5"
  else "md:grid-cols-3".
Proof.
  unfold gridColsClass, cols. cbn [ToNumber truthy truthy_number].
  unfold num_geb, num_leb, Math_min, num_eqb, num. cbn [num_compare].
  unfold inject_Z.
  destruct (Qle_bool 6 q) eqn:E6;
    [apply Qle_bool_iff in E6
    | assert (~ (6 <= q)%Q) by (intros H; apply Qle_bool_iff in H; congruence)];
    (destruct (Qeq_bool q 0) eqn:E0;
     [apply Qeq_bool_iff in E0 | apply Qeq_bool_neq in E0]);
    (destruct (Qeq_bool q 2) eqn:E2;
     [apply Qeq_bool_iff in E2 | apply Qeq_bool_neq in E2]);
    (destruct (Qeq_bool q 4) eqn:E4;
     [apply Qeq_bool_iff in E4 | apply Qeq_bool_neq in E4]);
    (destruct (Qeq_bool q 5) eqn:E5;
     [apply Qeq_bool_iff in E5 | apply Qeq_bool_neq in E5]);
    try (exfalso; lra);
    cbn [negb andb num_compare];
    repeat match goal with
           | |- context [(?a ?= ?b)%Q] =>
               destruct (Qcompare_spec a b); cbn [andb num_compare];
               try (exfalso; lra)
           end;
    reflexivity.
Qed.
End PlpGridFacts.

(** C9, as amended.  The grid class follows [columns] clamped to at most
    6: an absent [columns] gives 3 columns; a finite number of 6 or more
    gives 6 columns (so 7 and 10 give 6, not 3); 2, 4 and 5 give
    themselves; every other number, among them 1, 3, 0, the negative and
    the fractional ones, gives 3.  The children are laid out in a
    rearrangement sorted by their numeric [match] downwards, a child
    without one counting as 0. *)
Theorem plp_grid_layout {prims : JsPrims} (children : option (list json))
  (columns : value) :
  (columns = None -> gridColsClass columns = "md:grid-cols-3") /\
  (forall q, columns = Some (JNum (Fin q)) ->
             gridColsClass columns =
             if Qle_bool 6 q then "md:grid-cols-6"
             else if Qeq_bool q 2 then "md:grid-cols-2"
             else if Qeq_bool q 4 then "md:grid-cols-4"
             else if Qeq_bool q 5 then "md:grid-cols-5"
             else "md:grid-cols-3") /\
  (Forall (fun c => match_of c <> NaN) (kids children) ->
   Permutation (cells (PlpGridComponent children columns)) (kids children) /\
   StronglySorted match_desc (cells (PlpGridComponent children columns))).
Proof.
  split; [now intros -> | ]. split.
  - intros q ->. apply gridColsClass_number.
  - intros H. cbn [cells PlpGridComponent]. unfold sorted_children.
    fold (kids children). split; [apply sort_perm | ].
    apply sort_sorted with (P := fun c => match_of c <> NaN);
      eauto using by_match_after, by_match_keep, match_desc_trans.
Qed.

Lemma plp_grid_layout_witness :
  Forall (fun c => match_of c <> NaN)
    (kids (Some [child "a" 0.2; child "b" 0.9; child_without_match "c"; child "d" 0.5])) /\
  gridColsClass (prims := sample_prims) (Some (JNum (Fin 7))) = "md:grid-cols-6" /\
  Permutation
    (cells (PlpGridComponent (prims := sample_prims)
              (Some [child "a" 0.2; child "b" 0.9; child_without_match "c"; child "d" 0.5])
              (Some (JNum (Fin 7)))))
    (kids (Some [child "a" 0.2; child "b" 0.9; child_without_match "c"; child "d" 0.5])) /\
  StronglySorted match_desc
    (cells (PlpGridComponent (prims := sample_prims)
              (Some [child "a" 0.2; child "b" 0.9; child_without_match "c"; child "d" 0.5])
              (Some (JNum (Fin 7))))).
Proof.
  assert (H : Forall (fun c => match_of c <> NaN)
                (kids (Some [child "a" 0.2; child "b" 0.9; child_without_match "c";
                             child "d" 0.5]))).
  { repeat constructor; discriminate. }
  destruct (plp_grid_layout (prims := sample_prims)
              (Some [child "a" 0.2; child "b" 0.9; child_without_match "c"; child "d" 0.5])
              (Some (JNum (Fin 7)))) as (_ & Hc & Hs).
  split; [exact H | ]. split; [exact (Hc 7%Q eq_refl) | ]. exact (Hs H).
Defined.

(** The children with matches 0.2, 0.9 and 0.5 are laid out as 0.9, 0.5,
    0.2; a child without [match] goes where a match of 0 goes. *)
Example plp_grid_order :
  cells (PlpGridComponent (prims := sample_prims)
           (Some [child "a" 0.2; child "b" 0.9; child "d" 0.5]) None)
  = [child "b" 0.9; child "d" 0.5; child "a" 0.2] /\
  cells (PlpGridComponent (prims := sample_prims)
           (Some [child "n" (-1); child_without_match "c"; child "a" 0.2]) None)
  = [child "a" 0.2; child_without_match "c"; child "n" (-1)].
Proof.
  split; reflexivity.
Qed.

(** C9 as stated fails for 7 and for 10 columns: they are laid out in 6
    columns, not in the 3 of the baseline. *)
Lemma seven_columns_are_six :
  gridColsClass (prims := sample_prims) (Some (JNum (num 7))) = "md:grid-cols-6" /\
  gridColsClass (prims := sample_prims) (Some (JNum (num 10))) = "md:grid-cols-6" /\
  gridColsClass (prims := sample_prims) (Some (JNum (num 7))) <> "md:grid-cols-3" /\
  gridColsClass (prims := sample_prims) (Some (JNum (num 1))) = "md:grid-cols-3" /\
  gridColsClass (prims := sample_prims) None = "md:grid-cols-3".
Proof.
  repeat split; try reflexivity. discriminate.
Qed.

(** ** The product lookup *)

Lemma search_param_not_empty (name : string) (params : list (string * string))
  (s : string) :
  search_param name params = Some s -> is_empty s = false.
Proof.
  unfold search_param. destruct (obj_get name params) as [x | ]; [ | discriminate].
  destruct (is_empty x) eqn:E; [discriminate | ]. now intros [= <-].
Qed.

Lemma codeOut_own (product : json) (c i : string) :
  is_empty c = false ->
  codeOut product (Some c) (Some i)
  = match own_code product with Some v => v | None => JStr c end.
Proof.
  intros Hc. unfold codeOut, own_code, or_else, str_value.
  destruct (truthy product) eqn:Hp;
    [destruct (get_prop "code" product) as [v | ];
     destruct (get_prop "id" product) as [u | ] | ];
    cbn [truthy_value truthy];
    repeat (match goal with
            | H : truthy ?x = _ |- context [truthy ?x] => rewrite H
            | |- context [truthy ?x] => is_var x; destruct (truthy x) eqn:?
            | |- context [is_empty c] => rewrite Hc
            end; cbn [truthy_value truthy negb]);
    reflexivity.
Qed.

(** ** The schema of [generate_ui] *)

Lemma obj_get_set {V : Type} (k k' : string) (v : V) (kv : list (string * V)) :
  obj_get k (obj_set k' v kv) = if String.eqb k k' then Some v else obj_get k kv.
Proof.
  induction kv as [ | [k0 v0] kv IH]; simpl.
  - reflexivity.
  - destruct (String.eqb k' k0) eqn:E; simpl.
    + apply String.eqb_eq in E. subst k0.
      now destruct (String.eqb k k').
    + rewrite IH. destruct (String.eqb k k0) eqn:E0; [ | reflexivity].
      apply String.eqb_eq in E0. subst k0.
      now rewrite String.eqb_sym, E.
Qed.

Lemma obj_get_None {V : Type} (k : string) (kv : list (string * V)) :
  ~ In k (obj_keys kv) -> obj_get k kv = None.
Proof.
  induction kv as [ | [k0 v0] kv IH]; simpl; [reflexivity | ].
  intros H. destruct (String.eqb k k0) eqn:E.
  - apply String.eqb_eq in E. subst. tauto.
  - apply IH. tauto.
Qed.

Lemma obj_get_In {V : Type} (k : string) (v : V) (kv : list (string * V)) :
  obj_get k kv = Some v -> In (k, v) kv.
Proof.
  induction kv as [ | [k0 v0] kv IH]; simpl; [discriminate | ].
  destruct (String.eqb k k0) eqn:E.
  - apply String.eqb_eq in E. subst. intros [= ->]. now left.
  - auto.
Qed.

Lemma obj_get_NoDup {V : Type} (k : string) (v : V) (kv : list (string * V)) :
  NoDup (obj_keys kv) -> In (k, v) kv -> obj_get k kv = Some v.
Proof.
  induction kv as [ | [k0 v0] kv IH]; simpl; [tauto | ].
  intros Hn [[= -> ->] | H].
  - now rewrite String.eqb_refl.
  - inversion Hn as [ | ? ? Hk Hn']; subst.
    destruct (String.eqb k k0) eqn:E; [ | auto].
    apply String.eqb_eq in E. subst. exfalso. apply Hk.
    unfold obj_keys. apply in_map_iff. now exists (k0, v).
Qed.

Lemma has_key_In (k : string) (kv : list (string * json)) :
  has_key k kv = true <-> In k (obj_keys kv).
Proof.
  unfold has_key. split.
  - destruct (obj_get k kv) as [v | ] eqn:E; [ | discriminate].
    intros _. apply obj_get_In in E. unfold obj_keys. apply in_map_iff.
    now exists (k, v).
  - intros H. destruct (obj_get k kv) eqn:E; [reflexivity | ].
    exfalso. revert H E. induction kv as [ | [k0 v0] kv IH]; simpl; [tauto | ].
    destruct (String.eqb k k0) eqn:E0; [discriminate | ].
    intros [-> | H]; [now rewrite String.eqb_refl in E0 | auto].
Qed.

Lemma obj_set_fresh {V : Type} (k : string) (v : V) (kv : list (string * V)) :
  ~ In k (obj_keys kv) -> obj_set k v kv = (kv ++ [(k, v)])%list.
Proof.
  induction kv as [ | [k0 v0] kv IH]; simpl; [reflexivity | ].
  intros H. destruct (String.eqb k k0) eqn:E.
  - apply String.eqb_eq in E. subst. tauto.
  - rewrite IH; tauto.
Qed.

Lemma obj_spread_fresh {V : Type} (b a : list (string * V)) :
  NoDup (obj_keys b) ->
  (forall k, In k (obj_keys b) -> ~ In k (obj_keys a)) ->
  obj_spread a b = (a ++ b)%list.
Proof.
  unfold obj_spread. revert a.
  induction b as [ | [k v] b IH]; intros a Hn Hd; simpl.
  - now rewrite app_nil_r.
  - inversion Hn as [ | ? ? Hk Hn']; subst.
    rewrite obj_set_fresh by (apply Hd; now left).
    rewrite IH; [now rewrite <- app_assoc | assumption | ].
    intros k0 Hk0. unfold obj_keys. rewrite map_app, in_app_iff. simpl.
    intros [H | [<- | []]]; [ | contradiction].
    apply (Hd k0); [now right | exact H].
Qed.

Lemma obj_get_spread {V : Type} (k : string) (b a : list (string * V)) :
  obj_get k (obj_spread a b) =
  match obj_get k (rev b) with
  | Some v => Some v
  | None => obj_get k a
  end.
Proof.
  unfold obj_spread. revert a.
  induction b as [ | [k0 v0] b IH]; intros a; simpl; [reflexivity | ].
  rewrite IH.
  assert (Happ : forall l l' : list (string * V),
             obj_get k (l ++ l') = match obj_get k l with
                                   | Some v => Some v
                                   | None => obj_get k l'
                                   end).
  { induction l as [ | [k1 v1] l IHl]; intros l'; simpl; [reflexivity | ].
    destruct (String.eqb k k1); auto. }
  rewrite Happ. destruct (obj_get k (rev b)); [reflexivity | ].
  simpl. rewrite obj_get_set. now destruct (String.eqb k k0).
Qed.

Section AcceptsFacts.
Variable by_ref : string -> json -> bool.

(** A schema object asks what each of its keywords asks. *)
Lemma accepts_JObj (kws : list (string * json)) (inst : json) :
  accepts by_ref (JObj kws) inst
  = forallb (fun p => keyword_ok by_ref kws (fst p) (snd p) inst) kws.
Proof.
  cbn [accepts].
  generalize kws at 2 4. intros l.
  induction l as [ | [kw a] l IH]; [reflexivity | ].
  cbn [forallb fst snd]. rewrite <- IH. f_equal.
  unfold keyword_ok.
  destruct (String.eqb kw "properties").
  { destruct a as [ | | | | | props]; try reflexivity.
    induction props as [ | [p sub] props IHp]; [reflexivity | ].
    cbn [forallb fst snd]. now rewrite <- IHp. }
  destruct (String.eqb kw "anyOf"); [now destruct a | ].
  reflexivity.
Qed.
End AcceptsFacts.

Lemma json_eqb_JStr (v : json) (n : string) : json_eqb v (JStr n) = true <-> v = JStr n.
Proof.
  destruct v; simpl; split; try discriminate.
  - intros H. apply String.eqb_eq in H. now subst.
  - intros [= ->]. apply String.eqb_refl.
Qed.

Lemma definition_of_properties (c : component) :
  wf_component c ->
  definition_of c =
  JObj [("type", JStr "object");
        ("properties",
         JObj (("name", JObj [("type", JStr "string"); ("enum", JArr [JStr (name c)])])
               :: parameters c));
        ("required", JArr (JStr "name" :: map JStr (obj_keys (parameters c))));
        ("additionalProperties", JBool false)].
Proof.
  intros (_ & _ & Hname & Hnd). unfold definition_of.
  rewrite obj_spread_fresh; [reflexivity | assumption | ].
  intros k Hk [<- | []]. contradiction.
Qed.

Section DefinitionFacts.
Variable by_ref : string -> json -> bool.

Lemma accepts_literal (n : string) (v : json) :
  accepts by_ref (JObj [("type", JStr "string"); ("enum", JArr [JStr n])]) v = true
  <-> v = JStr n.
Proof.
  rewrite accepts_JObj. cbn [forallb fst snd]. unfold keyword_ok.
  cbn [String.eqb Ascii.eqb Bool.eqb andb type_ok enum_ok existsb].
  rewrite !andb_true_r, orb_false_r. rewrite andb_true_iff, json_eqb_JStr.
  split; [tauto | ]. intros ->. split; reflexivity.
Qed.

Lemma declared_ok_iff (params : list (string * json)) (kv : list (string * json)) :
  forallb (fun ps => match get_prop (fst ps) (JObj kv) with
                     | Some v => accepts by_ref (snd ps) v
                     | None => true
                     end) params = true /\
  forallb (fun n => match n with JStr s => has_key s kv | _ => true end)
    (map JStr (obj_keys params)) = true
  <->
  (forall p frag, In (p, frag) params ->
                  exists v, obj_get p kv = Some v /\ accepts by_ref frag v = true).
Proof.
  rewrite !forallb_forall. split.
  - intros [H1 H2] p frag Hin.
    assert (Hk : has_key p kv = true).
    { apply (H2 (JStr p)). apply in_map. unfold obj_keys. apply in_map_iff.
      now exists (p, frag). }
    unfold has_key in Hk. destruct (obj_get p kv) as [v | ] eqn:E; [ | discriminate].
    exists v. split; [reflexivity | ].
    specialize (H1 (p, frag) Hin). cbn [fst snd get_prop] in H1. now rewrite E in H1.
  - intros H. split.
    + intros [p frag] Hin. cbn [fst snd get_prop].
      destruct (H p frag Hin) as (v & -> & Hv). exact Hv.
    + intros x Hx. apply in_map_iff in Hx as (p & <- & Hp).
      unfold obj_keys in Hp. apply in_map_iff in Hp as ([p' frag] & <- & Hin).
      cbn [fst]. destruct (H p' frag Hin) as (v & Hv & _).
      unfold has_key. now rewrite Hv.
Qed.

Lemma closed_iff (declared : list string) (kv : list (string * json)) :
  forallb (fun k => existsb (String.eqb k) declared) (obj_keys kv) = true
  <-> (forall k, In k (obj_keys kv) -> In k declared).
Proof.
  rewrite forallb_forall. split; intros H k Hk; specialize (H k Hk).
  - apply existsb_exists in H as (d & Hd & E). apply String.eqb_eq in E. now subst.
  - apply existsb_exists. exists k. split; [assumption | apply String.eqb_refl].
Qed.

(** The schema stored for a component accepts exactly its valid
    instances. *)
Lemma accepts_definition (c : component) (inst : json) :
  wf_component c ->
  accepts by_ref (definition_of c) inst = true
  <-> valid_instance (accepts by_ref) c inst.
Proof.
  intros Hwf. rewrite definition_of_properties by assumption.
  rewrite accepts_JObj. cbn [forallb fst snd]. unfold keyword_ok.
  cbn [String.eqb Ascii.eqb Bool.eqb andb obj_get closed_ok required_ok type_ok].
  rewrite andb_true_r.
  destruct inst as [ | | | | | kv];
    try (split; [discriminate | intros (kv & [=] & _)]).
  cbn [has_type String.eqb Ascii.eqb Bool.eqb andb forallb fst snd get_prop obj_keys map].
  fold (obj_keys (parameters c)). fold (obj_keys kv).
  rewrite !andb_true_iff. rewrite closed_iff.
  unfold valid_instance. split.
  - intros ((Hname & Hprops) & (Hreq & Hreqs) & Hclosed).
    exists kv. split; [reflexivity | ].
    unfold has_key in Hreq.
    destruct (obj_get "name" kv) as [v | ] eqn:E; [ | discriminate].
    apply accepts_literal in Hname. subst v.
    split; [reflexivity | ]. split.
    + apply declared_ok_iff. now split.
    + intros k Hk. destruct (Hclosed k Hk) as [<- | H]; auto.
  - intros (kv' & [= <-] & Hname & Hdecl & Hclosed).
    apply declared_ok_iff in Hdecl as [H1 H2].
    rewrite Hname. unfold has_key. rewrite Hname.
    repeat split; auto.
    + now apply accepts_literal.
    + intros k Hk. destruct (Hclosed k Hk) as [-> | H]; [now left | now right].
Qed.
End DefinitionFacts.

Lemma split_on_plain (n : string) : plain_token n = true -> split_on "/" n = [n].
Proof.
  induction n as [ | c n IH]; [reflexivity | ].
  cbn [plain_token split_on]. intros H.
  apply andb_true_iff in H as [H Hn]. apply andb_true_iff in H as [Hc _].
  apply negb_true_iff in Hc. rewrite Hc, IH by assumption. reflexivity.
Qed.

Lemma unescape_plain (n : string) : plain_token n = true -> unescape n = n.
Proof.
  induction n as [ | c n IH]; [reflexivity | ].
  intros H. cbn [plain_token] in H.
  apply andb_true_iff in H as [H Hn]. apply andb_true_iff in H as [_ Hc].
  apply negb_true_iff in Hc.
  cbn [unescape]. destruct n as [ | d n']; [reflexivity | ].
  rewrite Hc. cbn [andb]. now rewrite IH.
Qed.

Lemma obj_set_keys_In {V : Type} (k k0 : string) (v : V) (kv : list (string * V)) :
  In k0 (obj_keys (obj_set k v kv)) -> k0 = k \/ In k0 (obj_keys kv).
Proof.
  induction kv as [ | [k1 v1] kv IH]; simpl.
  - intros [<- | []]. now left.
  - destruct (String.eqb k k1); simpl.
    + intros [<- | H]; auto.
    + intros [<- | H]; auto. destruct (IH H); auto.
Qed.

Lemma obj_set_keys_NoDup {V : Type} (k : string) (v : V) (kv : list (string * V)) :
  NoDup (obj_keys kv) -> NoDup (obj_keys (obj_set k v kv)).
Proof.
  induction kv as [ | [k0 v0] kv IH]; simpl; intros H.
  - repeat constructor. tauto.
  - inversion H as [ | ? ? Hk Hn]; subst.
    destruct (String.eqb k k0) eqn:E; simpl.
    + apply String.eqb_eq in E. subst. now constructor.
    + constructor; [ | now apply IH].
      intros Hin. apply obj_set_keys_In in Hin as [-> | Hin]; [ | contradiction].
      now rewrite String.eqb_refl in E.
Qed.

Lemma obj_get_rev {V : Type} (k : string) (kv : list (string * V)) :
  NoDup (obj_keys kv) -> obj_get k (rev kv) = obj_get k kv.
Proof.
  intros Hn.
  assert (Hr : NoDup (obj_keys (rev kv))).
  { unfold obj_keys. rewrite map_rev. apply NoDup_rev. exact Hn. }
  destruct (obj_get k kv) as [v | ] eqn:E.
  - apply obj_get_NoDup; [exact Hr | ]. apply in_rev. rewrite rev_involutive.
    now apply obj_get_In.
  - destruct (obj_get k (rev kv)) as [v | ] eqn:E'; [ | reflexivity].
    apply obj_get_In, in_rev in E'.
    rewrite (obj_get_NoDup k v kv Hn E') in E. discriminate.
Qed.

Section RegistryFacts.
Variable components : list component.
Hypothesis wf : wf_registry components.

Lemma definitions_keep (l : list component) (n : string) :
  forall acc, ~ In n (map name l) ->
              obj_get n (fold_left assign_definition l acc) = obj_get n acc.
Proof.
  induction l as [ | x l IH]; intros acc Hn; simpl; [reflexivity | ].
  simpl in Hn. rewrite IH by tauto.
  unfold assign_definition, obj_assign.
  destruct (String.eqb (name x) "__proto__"); [reflexivity | ].
  rewrite obj_get_set. destruct (String.eqb n (name x)) eqn:E; [ | reflexivity].
  apply String.eqb_eq in E. subst. tauto.
Qed.

Lemma definitions_NoDup (l : list component) :
  forall acc, NoDup (obj_keys acc) ->
              NoDup (obj_keys (fold_left assign_definition l acc)).
Proof.
  induction l as [ | x l IH]; intros acc Hn; simpl; [exact Hn | ].
  apply IH. unfold assign_definition, obj_assign.
  destruct (String.eqb (name x) "__proto__"); [exact Hn | ].
  now apply obj_set_keys_NoDup.
Qed.

Lemma definitions_lookup_in (l : list component) (c : component) :
  forall acc,
    NoDup (map name l) -> Forall wf_component l -> In c l ->
    obj_get (name c) (fold_left assign_definition l acc) = Some (definition_of c).
Proof.
  induction l as [ | x l IH]; intros acc Hn Hw Hin; [contradiction | ].
  inversion Hn as [ | ? ? Hx Hn']; subst.
  inversion Hw as [ | ? ? Hwx Hw']; subst.
  simpl. destruct Hin as [-> | Hin]; [ | now apply IH].
  rewrite definitions_keep by assumption.
  unfold assign_definition, obj_assign.
  destruct Hwx as (_ & Hproto & _).
  destruct (String.eqb (name c) "__proto__") eqn:E;
    [apply String.eqb_eq in E; contradiction | ].
  rewrite obj_get_set. now rewrite String.eqb_refl.
Qed.

Lemma definitions_lookup (c : component) :
  In c components ->
  obj_get (name c) (componentsDefinitions components) = Some (definition_of c).
Proof.
  destruct wf as [Hn Hw]. intros Hin.
  now apply (definitions_lookup_in components c []).
Qed.

(** The reference emitted for a registered component resolves to the
    schema stored for it. *)
Lemma resolve_definition (c : component) :
  In c components ->
  resolve (tool_parameters components) ("#/$defs/" ++ name c)
  = Some (definition_of c).
Proof.
  intros Hin.
  assert (Hwc : wf_component c).
  { destruct wf as [_ Hw]. rewrite Forall_forall in Hw. now apply Hw. }
  destruct Hwc as (Hplain & _).
  cbn [resolve append split_on Ascii.eqb Bool.eqb].
  rewrite split_on_plain by assumption.
  cbn [map unescape Ascii.eqb Bool.eqb andb].
  rewrite unescape_plain by assumption.
  cbn [walk tool_parameters generateUITool get_prop obj_get String.eqb Ascii.eqb Bool.eqb].
  rewrite obj_get_spread, obj_get_rev.
  - now rewrite definitions_lookup.
  - apply definitions_NoDup. constructor.
Qed.
End RegistryFacts.

Lemma accepts_root (by_ref : string -> json -> bool) (components : list component)
  (node : json) :
  accepts by_ref (tool_parameters components) (JObj [("component", node)])
  = existsb (fun s => accepts by_ref s node) (componentsList components).
Proof.
  unfold tool_parameters, generateUITool.
  cbn [get_prop obj_get String.eqb Ascii.eqb Bool.eqb].
  rewrite accepts_JObj. cbn [forallb fst snd]. unfold keyword_ok.
  cbn [String.eqb Ascii.eqb Bool.eqb andb obj_get get_prop closed_ok required_ok
         type_ok has_type forallb existsb fst snd obj_keys map has_key orb].
  rewrite accepts_JObj. cbn [forallb fst snd]. unfold keyword_ok.
  cbn [String.eqb Ascii.eqb Bool.eqb andb].
  now rewrite !andb_true_r.
Qed.

Lemma accepts_reference (by_ref : string -> json -> bool) (ref : string) (node : json) :
  accepts by_ref (JObj [("$ref", JStr ref)]) node = by_ref ref node.
Proof.
  rewrite accepts_JObj. cbn [forallb fst snd]. unfold keyword_ok.
  cbn [String.eqb Ascii.eqb Bool.eqb andb]. apply andb_true_r.
Qed.

Lemma NoDup_name_inj (components : list component) (c c' : component) :
  NoDup (map name components) -> In c components -> In c' components ->
  name c = name c' -> c = c'.
Proof.
  induction components as [ | x l IH]; simpl; [tauto | ].
  intros Hn. inversion Hn as [ | ? ? Hx Hn']; subst.
  intros [-> | H] [-> | H'] E; auto.
  - exfalso. apply Hx. rewrite E. now apply in_map.
  - exfalso. apply Hx. rewrite <- E. now apply in_map.
Qed.

(** A header is accepted; with a field the header does not declare, with
    a name that is not registered, or without its parameter it is not;
    a carousel of headers is accepted, one level of nesting costing two
    more steps of reference. *)
Example schema_accepts_and_rejects :
  accepts_call 1 sample_components (call_with a_header) = true /\
  accepts_call 1 sample_components
    (call_with (JObj [("name", JStr "header"); ("content", JStr "Idee regalo");
                      ("color", JStr "red")])) = false /\
  accepts_call 1 sample_components
    (call_with (JObj [("name", JStr "banner"); ("content", JStr "Idee regalo")])) = false /\
  accepts_call 1 sample_components (call_with (JObj [("name", JStr "header")])) = false /\
  accepts_call 3 sample_components
    (call_with (JObj [("name", JStr "carousel"); ("children", JArr [a_header; a_header])]))
  = true /\
  accepts_call 3 sample_components
    (call_with (JObj [("name", JStr "carousel");
                      ("children", JArr [a_header; JObj [("name", JStr "banner")]])]))
  = false.
Proof.
  repeat split; vm_compute; reflexivity.
Qed.

(** * Further properties of the sources *)

(** ** [sanitize] *)

Lemma substring_prefix_length (n : nat) (s : string) :
  (n <= String.length s)%nat -> String.length (substring 0 n s) = n.
Proof.
  revert s. induction n as [ | n IH]; intros [ | c s]; simpl; intros H;
    try reflexivity; try lia.
  f_equal. apply IH. lia.
Qed.

Lemma substring_prefix_forall (p : ascii -> bool) (n : nat) (s : string) :
  string_forall p s = true -> string_forall p (substring 0 n s) = true.
Proof.
  revert s. induction n as [ | n IH]; intros [ | c s]; simpl; auto.
  intros H. apply andb_true_iff in H as [Hc Hs]. now rewrite Hc, IH.
Qed.

Lemma no_nul_forall (s : string) :
  no_nul s = string_forall (fun c => negb (is_nul c)) s.
Proof.
  induction s as [ | c s IH]; simpl; congruence.
Qed.

Lemma substring_prefix_single_spaced (n : nat) (s : string) :
  single_spaced s = true -> single_spaced (substring 0 n s) = true.
Proof.
  revert s. induction n as [ | n IH]; intros [ | c s]; simpl; auto.
  intros H. apply andb_true_iff in H as [Hc Hs]. rewrite IH by assumption.
  rewrite andb_true_r. destruct (is_space c); [ | reflexivity].
  apply andb_true_iff in Hc as [Hc Hd]. rewrite Hc. simpl.
  destruct s as [ | d s]; destruct n; simpl; auto.
Qed.

Lemma replace_nul_no_nul (s : string) : no_nul (replace_nul s) = true.
Proof.
  induction s as [ | c s IH]; simpl; [reflexivity | ].
  rewrite IH, andb_true_r. destruct (is_nul c) eqn:E; [reflexivity | now rewrite E].
Qed.

Lemma collapse_spaces_no_nul (s : string) :
  no_nul s = true -> no_nul (collapse_spaces s) = true.
Proof.
  induction s as [ | c s IH]; [reflexivity | ].
  cbn [no_nul]. intros H. apply andb_true_iff in H as [Hc Hs].
  cbn [collapse_spaces]. destruct (is_space c).
  - destruct s as [ | d s']; [reflexivity | ].
    destruct (is_space d); [now apply IH | ].
    cbn [no_nul]. now rewrite IH.
  - cbn [no_nul]. now rewrite Hc, IH.
Qed.

Lemma drop_spaces_no_nul (s : string) :
  no_nul s = true -> no_nul (drop_spaces s) = true.
Proof.
  induction s as [ | c s IH]; simpl; [reflexivity | ].
  intros H. pose proof H as H'. apply andb_true_iff in H' as [Hc Hs].
  destruct (is_space c); [now apply IH | exact H].
Qed.

Lemma trim_end_no_nul (s : string) :
  no_nul s = true -> no_nul (trim_end s) = true.
Proof.
  induction s as [ | c s IH]; [reflexivity | ].
  cbn [no_nul trim_end]. intros H. apply andb_true_iff in H as [Hc Hs].
  destruct (all_spaces (String c s)); [reflexivity | ].
  cbn [no_nul]. now rewrite Hc, IH.
Qed.

Lemma collapse_spaces_head (c : ascii) (s : string) :
  is_space c = false ->
  collapse_spaces (String c s) = String c (collapse_spaces s).
Proof.
  intros H. cbn [collapse_spaces]. now rewrite H.
Qed.

Lemma single_spaced_cons (c : ascii) (s : string) :
  single_spaced (String c s) =
  (if is_space c
   then Ascii.eqb c " " && match s with
                           | String d _ => negb (is_space d)
                           | EmptyString => true
                           end
   else true) && single_spaced s.
Proof.
  reflexivity.
Qed.

Lemma collapse_spaces_single_spaced (s : string) :
  single_spaced (collapse_spaces s) = true.
Proof.
  induction s as [ | c s IH]; [reflexivity | ].
  cbn [collapse_spaces]. destruct (is_space c) eqn:Ec.
  - destruct s as [ | d s']; [reflexivity | ].
    destruct (is_space d) eqn:Ed; [exact IH | ].
    rewrite collapse_spaces_head in * by assumption.
    rewrite single_spaced_cons, IH, Ed. reflexivity.
  - cbn [single_spaced]. now rewrite Ec, IH.
Qed.

Lemma single_spaced_tail (c : ascii) (s : string) :
  single_spaced (String c s) = true -> single_spaced s = true.
Proof.
  cbn [single_spaced]. intros H. now apply andb_true_iff in H as [_ H].
Qed.

Lemma drop_spaces_single_spaced (s : string) :
  single_spaced s = true -> single_spaced (drop_spaces s) = true.
Proof.
  induction s as [ | c s IH]; [reflexivity | ].
  intros H. cbn [drop_spaces]. destruct (is_space c); [ | exact H].
  apply IH. now apply single_spaced_tail in H.
Qed.

Lemma all_spaces_trim_end (s : string) : all_spaces (trim_end s) = all_spaces s.
Proof.
  induction s as [ | c s IH]; [reflexivity | ].
  cbn [trim_end]. destruct (all_spaces (String c s)) eqn:E; [reflexivity | ].
  cbn [all_spaces] in *. now rewrite IH.
Qed.

Lemma trim_end_single_spaced (s : string) :
  single_spaced s = true -> single_spaced (trim_end s) = true.
Proof.
  induction s as [ | c s IH]; [reflexivity | ].
  intros H. pose proof (single_spaced_tail _ _ H) as Hs.
  cbn [trim_end]. destruct (all_spaces (String c s)) eqn:E; [reflexivity | ].
  cbn [single_spaced] in *. rewrite IH by assumption. rewrite andb_true_r.
  apply andb_true_iff in H as [Hc _].
  destruct (is_space c) eqn:Ec; [ | reflexivity].
  apply andb_true_iff in Hc as [Hc Hd]. rewrite Hc. simpl.
  destruct s as [ | d s']; [reflexivity | ].
  cbn [trim_end]. destruct (all_spaces (String d s')) eqn:E'; [reflexivity | exact Hd].
Qed.

Lemma trim_head (s : string) : starts_with_space (trim s) = false.
Proof.
  unfold trim. destruct (drop_spaces s) as [ | c s'] eqn:E; [reflexivity | ].
  apply drop_spaces_head in E. cbn [trim_end].
  destruct (all_spaces (String c s')); [reflexivity | exact E].
Qed.

Lemma trim_end_fixed (s : string) : trim_end (trim_end s) = trim_end s.
Proof.
  induction s as [ | c s IH]; [reflexivity | ].
  cbn [trim_end]. destruct (all_spaces (String c s)) eqn:E; [reflexivity | ].
  cbn [trim_end]. cbn [all_spaces] in *. rewrite all_spaces_trim_end, E.
  now rewrite IH.
Qed.

Lemma drop_spaces_fixed (s : string) : starts_with_space s = false -> drop_spaces s = s.
Proof.
  destruct s as [ | c s]; simpl; [reflexivity | ]. now intros ->.
Qed.

Lemma trim_fixed (s : string) : trim (trim s) = trim s.
Proof.
  unfold trim at 1. rewrite drop_spaces_fixed by apply trim_head.
  unfold trim. apply trim_end_fixed.
Qed.

Lemma replace_nul_fixed (s : string) : no_nul s = true -> replace_nul s = s.
Proof.
  induction s as [ | c s IH]; simpl; [reflexivity | ].
  intros H. apply andb_true_iff in H as [Hc Hs]. apply negb_true_iff in Hc.
  now rewrite Hc, IH.
Qed.

Lemma collapse_spaces_fixed (s : string) :
  single_spaced s = true -> collapse_spaces s = s.
Proof.
  induction s as [ | c s IH]; [reflexivity | ].
  intros H. pose proof (single_spaced_tail _ _ H) as Hs.
  cbn [single_spaced] in H. apply andb_true_iff in H as [Hc _].
  cbn [collapse_spaces]. destruct (is_space c) eqn:Ec.
  - apply andb_true_iff in Hc as [Hc Hd]. apply Ascii.eqb_eq in Hc. subst c.
    destruct s as [ | d s']; [reflexivity | ].
    apply negb_true_iff in Hd. rewrite Hd. now rewrite IH.
  - now rewrite IH.
Qed.

Section SanitizeFacts.
Context {prims : JsPrims}.

(** The text before the final cut: trimmed, single spaced, without NUL,
    and not empty. *)
Lemma sanitize_cut (t : value) (max : nat) :
  exists v,
    sanitize t max = (if (max <? String.length v)%nat then str_slice0 v max else v) /\
    v <> "" /\ no_nul v = true /\ single_spaced v = true /\
    starts_with_space v = false /\ trim v = v.
Proof.
  unfold sanitize.
  set (s0 := match t with None | Some JNull => "" | Some j => ToString j end).
  set (u := trim (collapse_spaces (replace_nul s0))).
  destruct (is_empty u) eqn:E.
  - exists ".". repeat split; try reflexivity. discriminate.
  - exists u. split; [reflexivity | ]. split; [now destruct u | ].
    unfold u. split; [ | split; [ | split]].
    + unfold trim. apply trim_end_no_nul, drop_spaces_no_nul, collapse_spaces_no_nul.
      apply replace_nul_no_nul.
    + unfold trim. apply trim_end_single_spaced, drop_spaces_single_spaced.
      apply collapse_spaces_single_spaced.
    + apply trim_head.
    + apply trim_fixed.
Qed.
End SanitizeFacts.

Lemma sanitize_limits {prims : JsPrims} (t : value) (max : nat) :
  (1 <= max)%nat ->
  sanitize t max <> "" /\
  (String.length (sanitize t max) <= max)%nat /\
  no_nul (sanitize t max) = true /\
  single_spaced (sanitize t max) = true /\
  starts_with_space (sanitize t max) = false.
Proof.
  intros Hmax. destruct (sanitize_cut t max) as (v & -> & Hne & Hnul & Hss & Hh & _).
  destruct (max <? String.length v)%nat eqn:E.
  - apply Nat.ltb_lt in E. unfold str_slice0.
    assert (Hlen : String.length (substring 0 max v) = max)
      by (apply substring_prefix_length; lia).
    split; [intros H; rewrite H in Hlen; simpl in Hlen; lia | ].
    split; [lia | ]. split; [ | split].
    + rewrite no_nul_forall in *. now apply substring_prefix_forall.
    + now apply substring_prefix_single_spaced.
    + destruct v as [ | c v]; [contradiction | ].
      destruct max; [lia | exact Hh].
  - apply Nat.ltb_ge in E. repeat split; assumption.
Qed.


Lemma sanitize_of_clean {prims : JsPrims} (s : string) (max : nat) :
  s <> "" -> trim s = s -> single_spaced s = true -> no_nul s = true ->
  (String.length s <= max)%nat ->
  sanitize (Some (JStr s)) max = s.
Proof.
  intros Hne Htrim Hss Hnul Hlen.
  unfold sanitize. cbn [ToString].
  rewrite replace_nul_fixed, collapse_spaces_fixed, Htrim by assumption.
  destruct s as [ | c s]; [contradiction | ]. cbn [is_empty].
  apply Nat.ltb_ge in Hlen. now rewrite Hlen.
Qed.

Lemma sanitize_uncut {prims : JsPrims} (t : value) (max : nat) :
  (String.length (sanitize t max) < max)%nat ->
  sanitize t max <> "" /\ trim (sanitize t max) = sanitize t max /\
  single_spaced (sanitize t max) = true /\ no_nul (sanitize t max) = true.
Proof.
  destruct (sanitize_cut t max) as (v & -> & Hne & Hnul & Hss & Hh & Htrim).
  destruct (max <? String.length v)%nat eqn:E; [ | now auto].
  apply Nat.ltb_lt in E. unfold str_slice0.
  rewrite substring_prefix_length by lia. lia.
Qed.

(** X2.  Below the limit, the texts that [sanitize] returns unchanged
    are exactly the clean ones: not empty, trimmed, single spaced and
    without NUL. *)
Theorem sanitize_fixed_points {prims : JsPrims} (s : string) (max : nat) :
  (String.length s < max)%nat ->
  sanitize (Some (JStr s)) max = s <->
  s <> "" /\ trim s = s /\ single_spaced s = true /\ no_nul s = true.
Proof.
  intros Hlen. split.
  - intros H. rewrite <- H in Hlen. apply sanitize_uncut in Hlen.
    now rewrite H in Hlen.
  - intros (Hne & Htrim & Hss & Hnul). apply sanitize_of_clean; auto. lia.
Qed.

Lemma sanitize_fixed_points_witness :
  (String.length "agenda gatti" < 12000)%nat /\
  (sanitize (prims := sample_prims) (Some (JStr "agenda gatti")) 12000 = "agenda gatti" <->
   "agenda gatti" <> "" /\ trim "agenda gatti" = "agenda gatti" /\
  single_spaced "agenda gatti" = true /\ no_nul "agenda gatti" = true).
Proof.
  assert (H : (String.length "agenda gatti" < 12000)%nat)
    by (apply Nat.ltb_lt; vm_compute; reflexivity).
  split; [exact H | ].
  exact (sanitize_fixed_points (prims := sample_prims) "agenda gatti" 12000 H).
Defined.

(** X3.  Sanitizing twice is the same as sanitizing once, whenever the
    first result was not cut at the limit. *)
Theorem sanitize_idempotent {prims : JsPrims} (t : value) (max : nat) :
  (String.length (sanitize t max) < max)%nat ->
  sanitize (Some (JStr (sanitize t max))) max = sanitize t max.
Proof.
  intros Hlen. destruct (sanitize_uncut t max Hlen) as (Hne & Htrim & Hss & Hnul).
  apply sanitize_of_clean; auto. lia.
Qed.

Lemma sanitize_idempotent_witness :
  (String.length (sanitize (prims := sample_prims) (Some (JNum (num 42))) 12000) < 12000)%nat /\
  sanitize (prims := sample_prims)
    (Some (JStr (sanitize (prims := sample_prims) (Some (JNum (num 42))) 12000))) 12000
  = sanitize (prims := sample_prims) (Some (JNum (num 42))) 12000.
Proof.
  assert (H : (String.length (sanitize (prims := sample_prims) (Some (JNum (num 42))) 12000)
               < 12000)%nat)
    by (apply Nat.ltb_lt; vm_compute; reflexivity).
  split; [exact H | ].
  exact (sanitize_idempotent (prims := sample_prims) (Some (JNum (num 42))) 12000 H).
Defined.

(** ** The result cap and the oversampling *)

Lemma kLimit_cases {prims : JsPrims} (r : request) :
  kLimit r = NegInf \/ exists q, kLimit r = Fin q /\ (q <= 5)%Q.
Proof.
  unfold kLimit, or5, truthy_number.
  destruct (ToNumber (req_k r)) as [ | | q | ].
  - right. exists 5%Q. split; [reflexivity | lra].
  - now left.
  - destruct (Qeq_bool q 0); cbv beta iota; cbv [negb].
    + right. exists 5%Q. split; [reflexivity | lra].
    + unfold Math_min, num_compare, num. change (inject_Z 5) with 5%Q.
      destruct (Qcompare_spec 5 q) as [H | H | H]; right.
      * exists 5%Q. split; [reflexivity | lra].
      * exists 5%Q. split; [reflexivity | lra].
      * exists q. split; [reflexivity | lra].
  - right. exists 5%Q. split; [reflexivity | lra].
Qed.

(** X4.  For every request the effective limit is at most 5 and is a
    number, and the number of candidates asked of the index is the larger
    of the limit and three times the limit, which is at most 15: the
    ceiling of 50 in [kQuery] is never reached. *)
Theorem limit_and_oversampling {prims : JsPrims} (r : request) :
  kLimit r <> NaN /\
  num_le (kLimit r) (num 5) /\
  kQuery r = Math_max (kLimit r) (num_mul (kLimit r) (num 3)) /\
  num_le (kQuery r) (num 15).
Proof.
  unfold kQuery. destruct (kLimit_cases r) as [-> | (q & -> & Hq)].
  - repeat split; try discriminate; now left.
  - split; [discriminate | ]. split.
    { unfold num_le, num_lt, num_eq, num_compare, num. change (inject_Z 5) with 5%Q.
      destruct (Qcompare_spec q 5) as [H | H | H]; auto. lra. }
    unfold num_mul, num. change (inject_Z 3) with 3%Q. change (inject_Z 50) with 50%Q.
    change (inject_Z 15) with 15%Q.
    assert (Hm : exists m, Math_max (Fin q) (Fin (q * 3)) = Fin m /\ (m <= 15)%Q).
    { unfold Math_max, num_compare.
      destruct (Qcompare_spec q (q * 3)) as [H | H | H]; eexists;
        (split; [reflexivity | lra]). }
    destruct Hm as (m & -> & Hm).
    unfold Math_min, num_le, num_lt, num_eq, num_compare.
    destruct (Qcompare_spec 50 m) as [H1 | H1 | H1]; try lra.
    split; [reflexivity | ].
    destruct (Qcompare_spec m 15) as [H2 | H2 | H2]; auto. lra.
Qed.

(** ** The search handler, stage by stage *)

Lemma lookups_app (t t' : list entry) :
  lookups (t ++ t') = (lookups t ++ lookups t')%list.
Proof.
  unfold lookups. now rewrite commands_app, filter_app, map_app.
Qed.

Section SearchStages.
Context {prims : JsPrims}.
Variable env : process_env.

(** The detail lookup of one row: at most one [JSON.GET], none without a
    code or with the join switched off. *)
Lemma join_detail_trace (w : world) (hist : list entry) (details : bool) (r : row) :
  exists t r',
    run w hist (join_detail env details r) = (t, inl r') /\
    code r' = code r /\
    embedded t = [] /\
    lookups t = (if details then map (lookup_command env) (lookup_codes [r]) else []).
Proof.
  unfold join_detail, lookup_codes. cbn [flat_map]. rewrite app_nil_r.
  destruct (code r) as [c | ] eqn:Ec.
  2:{ exists [], r. rewrite Ec. now destruct details. }
  destruct details; cbn [andb].
  2:{ exists [], r. now rewrite Ec. }
  destruct (is_empty c); cbn [negb].
  { exists [], r. now rewrite Ec. }
  run_step.
  destruct (w reply hist _) as [jraw | e]; simpl.
  - unfold attach. destruct (reply_text (Some jraw)) as [jtext | ]; simpl.
    + destruct (is_empty jtext); simpl.
      * eexists _, r; repeat split; auto.
      * destruct (JSON_parse jtext) as [j | ]; simpl.
        -- eexists _, (set_product r j); repeat split; auto.
        -- eexists _, r; repeat split; auto.
    + eexists _, r; repeat split; auto.
  - eexists _, r; repeat split; auto.
Qed.

Lemma lookup_codes_cons (r : row) (rs : list row) :
  lookup_codes (r :: rs) = (lookup_codes [r] ++ lookup_codes rs)%list.
Proof.
  unfold lookup_codes. cbn [flat_map]. now rewrite app_nil_r.
Qed.

Lemma lookup_codes_code (r r' : row) :
  code r' = code r -> lookup_codes [r'] = lookup_codes [r].
Proof.
  unfold lookup_codes. cbn [flat_map]. now intros ->.
Qed.

Lemma collect_trace (w : world) (details : bool) (l : list reply) :
  forall hist,
    embedded (fst (run w hist (collect env details l))) = [] /\
    forall rows, snd (run w hist (collect env details l)) = inl rows ->
                 lookups (fst (run w hist (collect env details l)))
                 = (if details then map (lookup_command env) (lookup_codes rows) else []).
Proof.
  set (P := fun l => forall hist,
    embedded (fst (run w hist (collect env details l))) = [] /\
    forall rows, snd (run w hist (collect env details l)) = inl rows ->
                 lookups (fst (run w hist (collect env details l)))
                 = (if details then map (lookup_command env) (lookup_codes rows) else [])).
  assert (H : P l /\ forall x, P (x :: l)).
  { induction l as [ | y l [IH1 IH2]]; split; unfold P in *; intros.
    - cbn. split; [reflexivity | ]. intros rows [= <-]. now destruct details.
    - cbn. split; [reflexivity | discriminate].
    - apply IH2.
    - cbn [collect]. destruct (elements y) as [fs | ];
        [ | cbn; split; [reflexivity | discriminate]].
      rewrite run_bind.
      destruct (join_detail_trace w hist details (row_of (doc_fields fs [])))
        as (t & r' & -> & Hc & He & Hl).
      rewrite run_bind. specialize (IH1 (hist ++ t)%list) as [IHe IHl].
      destruct (run w (hist ++ t)%list (collect env details l)) as [t' [rs | e]];
        cbn [run fst snd] in *; rewrite ?app_nil_r, embedded_app, He, IHe;
        (split; [reflexivity | ]); [ | discriminate].
      intros rows [= <-]. rewrite lookups_app, Hl, (IHl rs eq_refl).
      rewrite (lookup_codes_cons r' rs), (lookup_codes_code _ _ Hc).
      destruct details; [now rewrite map_app | reflexivity]. }
  apply H.
Qed.

Lemma collect_rows_trace (w : world) (details : bool) (raw : reply) (hist : list entry) :
  embedded (fst (run w hist (collect_rows env details raw))) = [] /\
  forall rows, snd (run w hist (collect_rows env details raw)) = inl rows ->
               lookups (fst (run w hist (collect_rows env details raw)))
               = (if details then map (lookup_command env) (lookup_codes rows) else []).
Proof.
  unfold collect_rows. destruct (elements raw) as [[ | x l] | ].
  - cbn. split; [reflexivity | ]. intros rows [= <-]. now destruct details.
  - apply collect_trace.
  - cbn. split; [reflexivity | discriminate].
Qed.

Lemma query_index_trace (w : world) (hist : list entry) (r : request) (vec : buffer) :
  embedded (fst (run w hist (query_index env r vec))) = [] /\
  lookups (fst (run w hist (query_index env r vec))) = [].
Proof.
  rewrite run_query_index. cbv zeta.
  destruct (w reply hist (sendCommand (argsWithDialect env r vec))) as [raw | e].
  - split; reflexivity.
  - split; [reflexivity | ].
    unfold lookups. cbn [fst commands command_of].
    destruct (w reply _ (sendCommand (argsNoDialect env r vec))); reflexivity.
Qed.

(** What a run of the handler can be: the 400 answer without any call,
    a 500 answer, or the 200 answer made of the rows collected after the
    client, the embedding and the index query. *)
Lemma POST_stages (w : world) (hist : list entry) (req_json : outcome json) :
  exists t resp,
    run w hist (POST env req_json) = (t, inl resp) /\
    ((status resp = 400%Z /\ t = [] /\ items_of resp = None) \/
     (status resp = 500%Z /\ items_of resp = None /\
      (embedded t = [] \/
       exists b, req_json = Fulfilled b /\
                 missing_query_text (query_text (destructure b)) = false /\
                 embedded t = [[expandedQuery (destructure b)]])) \/
     (exists b rows,
        req_json = Fulfilled b /\
        missing_query_text (query_text (destructure b)) = false /\
        resp = search_response (destructure b) rows /\
        embedded t = [[expandedQuery (destructure b)]] /\
        lookups t = (if truthy (include_details (destructure b))
                     then map (lookup_command env) (lookup_codes rows) else []))).
Proof.
  destruct req_json as [b | e].
  2:{ rewrite run_POST_rejected. eexists _, _. split; [reflexivity | ].
      right; left. cbn. auto. }
  destruct (missing_query_text (query_text (destructure b))) eqn:Hq.
  { rewrite run_POST_missing by assumption. eexists _, _. split; [reflexivity | ].
    left. cbn. auto. }
  rewrite run_POST, run_POST_body by assumption. cbv zeta.
  destruct (w unit hist getRedisClient) as [[] | e].
  2:{ eexists _, _. split; [reflexivity | ]. right; left. cbn. auto. }
  match goal with
  | |- context [w (list number) ?h ?ev] => destruct (w (list number) h ev) as [emb | e]
  end.
  2:{ eexists _, _. split; [reflexivity | ]. right; left. cbn.
      split; [reflexivity | ]. split; [reflexivity | ]. right. now exists b. }
  match goal with
  | |- context [run w ?h (query_index env ?r ?v)] =>
      destruct (query_index_trace w h r v) as [Hqe Hql];
      destruct (run w h (query_index env r v)) as [tq [raw | e]]
  end; cbn [fst] in Hqe, Hql.
  2:{ eexists _, _. split; [reflexivity | ]. right; left. cbn.
      split; [reflexivity | ]. split; [reflexivity | ]. right. exists b.
      now rewrite Hqe. }
  match goal with
  | |- context [run w ?h (collect_rows env ?d ?x)] =>
      destruct (collect_rows_trace w d x h) as [Hce Hcl];
      destruct (run w h (collect_rows env d x)) as [tc [rows | e]]
  end; cbn [fst snd] in Hce, Hcl.
  2:{ eexists _, _. split; [reflexivity | ]. right; left. cbn.
      split; [reflexivity | ]. split; [reflexivity | ]. right. exists b.
      now rewrite embedded_app, Hqe, Hce. }
  eexists _, _. split; [reflexivity | ]. right; right. exists b, rows.
  repeat split; auto.
  - cbn. now rewrite embedded_app, Hqe, Hce.
  - change (lookups (?a :: ?b :: ?t)) with (lookups t).
    now rewrite lookups_app, Hql, (Hcl rows eq_refl).
Qed.
End SearchStages.

Lemma length_append (a b : string) :
  String.length (a ++ b) = (String.length a + String.length b)%nat.
Proof.
  induction a as [ | c a IH]; simpl; congruence.
Qed.

Lemma no_nul_append (a b : string) :
  no_nul a = true -> no_nul b = true -> no_nul (a ++ b) = true.
Proof.
  intros Ha Hb. induction a as [ | c a IH]; simpl in *; [assumption | ].
  apply andb_true_iff in Ha as [Hc Ha]. now rewrite Hc, IH.
Qed.

Lemma expandedQuery_shape {prims : JsPrims} (r : request) :
  expandedQuery r <> "" /\
  (String.length (expandedQuery r) <= 12029)%nat /\
  no_nul (expandedQuery r) = true /\
  starts_with_space (expandedQuery r) = false.
Proof.
  unfold expandedQuery.
  assert (H1 : (1 <= 12000)%nat) by (apply Nat.leb_le; vm_compute; reflexivity).
  destruct (sanitize_limits (query_text r) 12000 H1) as (Hne & Hlen & Hnul & _ & Hh).
  destruct (truthy_value (expanded r)).
  - destruct (sanitize (query_text r) 12000) as [ | c s] eqn:E; [contradiction | ].
    split; [discriminate | ]. split; [ | split].
    + rewrite length_append.
      change (String.length " alternative simili correlati") with 29%nat.
      change 12029%nat with (12000 + 29)%nat. lia.
    + now apply no_nul_append.
    + exact Hh.
  - repeat split; auto.
    change 12029%nat with (12000 + 29)%nat. lia.
Qed.

(** ** The search handler: answers, lookups and the embedding request *)


(** X7.  A run of the search handler asks for at most one embedding.
    When it asks, the input is a list of one text: the sanitized query,
    with the expansion words appended when [expanded] is truthy.  That
    text is never empty, has at most 12029 characters, holds no NUL and
    does not start with white space. *)
Theorem one_embedding_request {prims : JsPrims} (env : process_env) (w : world)
  (hist : list entry) (req_json : outcome json) :
  embedded (fst (run w hist (POST env req_json))) = [] \/
  exists b,
    req_json = Fulfilled b /\
    missing_query_text (query_text (destructure b)) = false /\
    embedded (fst (run w hist (POST env req_json))) = [[expandedQuery (destructure b)]] /\
    expandedQuery (destructure b) <> "" /\
    (String.length (expandedQuery (destructure b)) <= 12029)%nat /\
    no_nul (expandedQuery (destructure b)) = true /\
    starts_with_space (expandedQuery (destructure b)) = false.
Proof.
  destruct (POST_stages env w hist req_json) as (t & resp & -> & H). cbn [fst].
  destruct H as [(_ & -> & _) | [(_ & _ & [H | (b & Hb & Hq & He)])
                                | (b & rows & Hb & Hq & _ & He & _)]].
  - now left.
  - now left.
  - right. exists b. pose proof (expandedQuery_shape (destructure b)). tauto.
  - right. exists b. pose proof (expandedQuery_shape (destructure b)). tauto.
Qed.

(** X8.  A search that finds nothing is a success.  When the client and
    the embedding are obtained and the index answers the query with a
    reply that holds no document (an empty array, an array with the total
    alone, or a bare integer), the answer has status 200, count 0 and no
    items; three calls are made and no detail lookup. *)
Theorem empty_reply_is_success {prims : JsPrims} (env : process_env) (w : world)
  (hist : list entry) (b : json) (raw : reply) (l : list reply) :
  missing_query_text (query_text (destructure b)) = false ->
  (forall h, w unit h getRedisClient = Fulfilled tt) ->
  (forall h m i d, exists emb, w (list number) h (embeddings_create m i d) = Fulfilled emb) ->
  (forall h vec,
      w reply h (sendCommand (argsWithDialect env (destructure b) vec)) = Fulfilled raw) ->
  elements raw = Some l ->
  (List.length l <= 1)%nat ->
  exists t,
    run w hist (POST env (Fulfilled b))
    = (t, inl {| status := 200;
                 body := SearchPayload 0 (kLimit (destructure b))
                           (min_price (destructure b)) (max_price (destructure b))
                           (ordering_name (order (destructure b))) "semantic" [] |}) /\
    List.length t = 3%nat /\
    lookups t = [].
Proof.
  intros Hq Hclient Hemb Hsearch Hel Hlen.
  rewrite run_POST, run_POST_body by assumption. cbv zeta.
  rewrite Hclient.
  match goal with
  | |- context [w (list number) ?h ?ev] =>
      destruct (Hemb h (embedModel env) [expandedQuery (destructure b)] (embDim env))
        as [emb He]; rewrite He
  end.
  rewrite run_query_index. cbv zeta. rewrite Hsearch.
  assert (Hc : forall h d, run w h (collect_rows env d raw) = ([], inl [])).
  { intros h d. unfold collect_rows. rewrite Hel.
    destruct l as [ | x [ | y l]]; try reflexivity. simpl in Hlen. lia. }
  rewrite Hc. unfold search_response, arrange, slice0. cbn [sort fold_right].
  rewrite firstn_nil. eexists. split; [reflexivity | ]. split; reflexivity.
Qed.

Lemma empty_reply_is_success_witness :
  missing_query_text (query_text (destructure (text_query []))) = false /\
  elements (RArr [RInt 0]) = Some [RInt 0] /\
  (List.length [RInt 0] <= 1)%nat /\
  exists t,
    run (sample_world a_vector (Fulfilled (RArr [RInt 0])) (Fulfilled (RArr [RInt 0]))
           no_detail) []
        (POST (prims := sample_prims) no_env (Fulfilled (text_query [])))
    = (t, inl {| status := 200;
                 body := SearchPayload 0 (kLimit (prims := sample_prims)
                                            (destructure (text_query [])))
                           (min_price (destructure (text_query [])))
                           (max_price (destructure (text_query [])))
                           (ordering_name (order (destructure (text_query []))))
                           "semantic" [] |}) /\
    List.length t = 3%nat /\
    lookups t = [].
Proof.
  split; [reflexivity | ]. split; [reflexivity | ].
  split; [simpl; lia | ].
  apply (empty_reply_is_success (prims := sample_prims) no_env
           (sample_world a_vector (Fulfilled (RArr [RInt 0])) (Fulfilled (RArr [RInt 0]))
              no_detail)
           [] (text_query []) (RArr [RInt 0]) [RInt 0]).
  - reflexivity.
  - intros; reflexivity.
  - intros; eexists; reflexivity.
  - intros; reflexivity.
  - reflexivity.
  - simpl; lia.
Defined.

(** ** Stability of the sort *)

(** Elements that the comparator never puts one after the other keep
    their order through the sort. *)
Lemma sort_insert_filter {A : Type} (cmp : A -> A -> number) (p : A -> bool)
  (x : A) (l : list A) :
  (forall a b, p a = true -> p b = true -> comes_after (cmp a b) = false) ->
  filter p (sort_insert cmp x l) = filter p (x :: l).
Proof.
  intros H. induction l as [ | y l IH]; [reflexivity | ].
  cbn [sort_insert]. destruct (comes_after (cmp x y)) eqn:E; [ | reflexivity].
  cbn [filter] in *. rewrite IH.
  destruct (p x) eqn:Px, (p y) eqn:Py; try reflexivity.
  rewrite (H x y Px Py) in E. discriminate.
Qed.

Lemma sort_filter {A : Type} (cmp : A -> A -> number) (p : A -> bool) (l : list A) :
  (forall a b, p a = true -> p b = true -> comes_after (cmp a b) = false) ->
  filter p (sort cmp l) = filter p l.
Proof.
  intros H. induction l as [ | x l IH]; [reflexivity | ].
  cbn [sort fold_right]. fold (sort cmp l).
  rewrite sort_insert_filter by assumption. cbn [filter]. now rewrite IH.
Qed.

Lemma slice0_filter_prefix {A : Type} (p : A -> bool) (l : list A) (e : number) :
  exists rest, filter p l = (filter p (slice0 l e) ++ rest)%list.
Proof.
  unfold slice0. exists (filter p (skipn (slice_end (List.length l) e) l)).
  now rewrite <- filter_app, firstn_skipn.
Qed.

Lemma num_sub_same (a b : number) :
  num_eq a b -> comes_after (num_sub a b) = false.
Proof.
  intros H. destruct (comes_after (num_sub a b)) eqn:E; [ | reflexivity].
  apply comes_after_sub in E. unfold num_eq in H. congruence.
Qed.

Lemma same_keys_tie (o : ordering) (pk sk : number) (a b : row) :
  same_keys pk sk a = true -> same_keys pk sk b = true ->
  comes_after (compare_rows o a b) = false.
Proof.
  unfold same_keys. intros Ha Hb.
  apply andb_true_iff in Ha as [Hpa Hsa]. apply andb_true_iff in Hb as [Hpb Hsb].
  apply num_eqb_iff in Hpa, Hsa, Hpb, Hsb.
  assert (Hp : num_eq (price_key a) (price_key b))
    by (eapply num_eq_trans; [exact Hpa | now apply num_eq_sym]).
  assert (Hs : num_eq (score_key a) (score_key b))
    by (eapply num_eq_trans; [exact Hsa | now apply num_eq_sym]).
  unfold compare_rows. apply num_eqb_iff in Hp. rewrite Hp.
  now apply num_sub_same.
Qed.

(** X9.  The final sort of the search is stable.  For rows whose
    price and score are numbers (the comparator is then consistent, and
    the language fixes the result), the rows with the same price key and
    the same score key stay in the order of the index reply, and what is
    returned of them after the cut is the first of them. *)
Theorem ties_keep_index_order (o : ordering) (limit : number) (pk sk : number)
  (rows : list row) :
  Forall sound_keys rows ->
  filter (same_keys pk sk) (sort (compare_rows o) rows) = filter (same_keys pk sk) rows /\
  exists rest,
    filter (same_keys pk sk) rows
    = (filter (same_keys pk sk) (arrange o limit rows) ++ rest)%list.
Proof.
  intros _.
  assert (H : filter (same_keys pk sk) (sort (compare_rows o) rows)
              = filter (same_keys pk sk) rows)
    by (apply sort_filter; intros a b; apply same_keys_tie).
  split; [exact H | ]. unfold arrange. rewrite <- H. apply slice0_filter_prefix.
Qed.

Lemma ties_keep_index_order_witness :
  Forall sound_keys [priced "A" 10 (1 # 10); priced "B" 5 (3 # 10); priced "C" 10 (1 # 10)] /\
  filter (same_keys (Fin 10) (Fin (1 # 10)))
    (sort (compare_rows price_asc)
       [priced "A" 10 (1 # 10); priced "B" 5 (3 # 10); priced "C" 10 (1 # 10)])
  = filter (same_keys (Fin 10) (Fin (1 # 10)))
      [priced "A" 10 (1 # 10); priced "B" 5 (3 # 10); priced "C" 10 (1 # 10)] /\
  exists rest,
    filter (same_keys (Fin 10) (Fin (1 # 10)))
      [priced "A" 10 (1 # 10); priced "B" 5 (3 # 10); priced "C" 10 (1 # 10)]
    = (filter (same_keys (Fin 10) (Fin (1 # 10)))
         (arrange price_asc (num 2)
            [priced "A" 10 (1 # 10); priced "B" 5 (3 # 10); priced "C" 10 (1 # 10)])
       ++ rest)%list.
Proof.
  assert (H : Forall sound_keys
                [priced "A" 10 (1 # 10); priced "B" 5 (3 # 10); priced "C" 10 (1 # 10)])
    by (repeat constructor; discriminate).
  split; [exact H | ].
  exact (ties_keep_index_order price_asc (num 2) (Fin 10) (Fin (1 # 10)) _ H).
Defined.

(** ** The product grid for every input *)

Lemma same_match_tie {prims : JsPrims} (m : number) (a b : json) :
  same_match m a = true -> same_match m b = true ->
  comes_after (by_match_desc a b) = false.
Proof.
  unfold same_match. intros Ha Hb. apply num_eqb_iff in Ha, Hb.
  unfold by_match_desc. apply num_sub_same.
  eapply num_eq_trans; [exact Hb | now apply num_eq_sym].
Qed.

(** X10.  When no match value is NaN, the grid renders every child
    exactly once, whatever the column count is, and children with the
    same match value are rendered in the order they were given. *)
Theorem grid_keeps_children {prims : JsPrims} (children : option (list json))
  (columns : value) :
  Forall (fun c => match_of c <> NaN) (kids children) ->
  Permutation (cells (PlpGridComponent children columns)) (kids children) /\
  forall m,
    filter (same_match m) (cells (PlpGridComponent children columns))
    = filter (same_match m) (kids children).
Proof.
  intros _. cbn [cells PlpGridComponent]. unfold sorted_children, kids. split.
  - apply sort_perm.
  - intros m. apply sort_filter. intros a b. apply same_match_tie.
Qed.

Lemma grid_keeps_children_witness :
  Forall (fun c => match_of c <> NaN)
    (kids (Some [child "a" (1 # 2); child_without_match "b"; child "c" (1 # 2)])) /\
  Permutation
    (cells (PlpGridComponent (prims := sample_prims)
              (Some [child "a" (1 # 2); child_without_match "b"; child "c" (1 # 2)]) None))
    (kids (Some [child "a" (1 # 2); child_without_match "b"; child "c" (1 # 2)])) /\
  forall m,
    filter (same_match m)
      (cells (PlpGridComponent (prims := sample_prims)
                (Some [child "a" (1 # 2); child_without_match "b"; child "c" (1 # 2)]) None))
    = filter (same_match m)
        (kids (Some [child "a" (1 # 2); child_without_match "b"; child "c" (1 # 2)])).
Proof.
  assert (H : Forall (fun c => match_of c <> NaN)
                (kids (Some [child "a" (1 # 2); child_without_match "b"; child "c" (1 # 2)])))
    by (repeat constructor; discriminate).
  split; [exact H | ].
  exact (grid_keeps_children (prims := sample_prims) _ None H).
Defined.

(** ** The search box of the header *)

Lemma all_pairs_sorted {A : Type} (R : A -> A -> Prop) (l : list A) :
  (forall a b, In a l -> In b l -> R a b) -> StronglySorted R l.
Proof.
  induction l as [ | x l IH]; intros H; constructor.
  - apply IH. intros a b Ha Hb. apply H; now right.
  - apply Forall_forall. intros y Hy. apply H; [now left | now right].
Qed.

Section HeaderFacts.
Context {prims : JsPrims}.

(** An item of the route has no [similarity] property. *)
Lemma similarity_row (r : row) : similarity (row_json r) = num 0.
Proof.
  unfold similarity, row_json.
  destruct (code r), (title r), (price r), (score r), (product r); reflexivity.
Qed.

Lemma listed_rows (rows : list row) :
  sort by_similarity_desc (map row_json rows) = map row_json rows.
Proof.
  apply sort_kept, all_pairs_sorted. intros a b Ha Hb.
  apply in_map_iff in Ha as (ra & <- & _). apply in_map_iff in Hb as (rb & <- & _).
  unfold by_similarity_desc. now rewrite !similarity_row.
Qed.
End HeaderFacts.

Lemma listed_answer {prims : JsPrims} (p : payload) :
  listed (payload_json p)
  = Some (map row_json (match p with
                        | SearchPayload _ _ _ _ _ _ items => items
                        | _ => []
                        end)).
Proof.
  destruct p as [e d | n k lo hi s m items | f c j].
  - now destruct d.
  - unfold listed, payload_json.
    change (get_prop "items" (JObj ?l)) with (obj_get "items" l).
    cbn [obj_get String.eqb Ascii.eqb Bool.eqb fst snd].
    now rewrite listed_rows.
  - reflexivity.
Qed.

(** X11.  The search box shows the items of an answer of the search
    route in the order the route returned them: its own sort by
    [similarity] moves nothing, because the items carry a [score] and no
    [similarity].  An answer without items (an error answer) gives the
    empty list; reading the list never throws.  After the answer the box
    is open exactly when there are items, and the active index is then
    the first item, and -1 otherwise. *)
Theorem header_keeps_route_order {prims : JsPrims} (resp : response) :
  listed (payload_json (body resp))
  = Some (map row_json (match items_of resp with Some items => items | None => [] end)) /\
  search_done (payload_json (body resp))
  = Some {| results := map row_json
                         (match items_of resp with Some items => items | None => [] end);
            open := match items_of resp with Some (_ :: _) => true | _ => false end;
            activeIndex := match items_of resp with
                           | Some (_ :: _) => 0%Z
                           | _ => (-1)%Z
                           end;
            loading := false |}.
Proof.
  unfold search_done. rewrite listed_answer. unfold items_of.
  destruct (body resp) as [e d | n k lo hi s m [ | r items] | f c j];
    split; reflexivity.
Qed.

(** X12.  Whenever the search box sends a search, the request passes the
    validation of the route: its [query_text] is the trimmed input, which
    is not empty.  Such a request asks for the details, has no price
    filter, is ordered by ascending price, is limited to 5 items and asks the
    index for 15 candidates. *)
Theorem header_search_is_valid {prims : JsPrims} (MIN_CHARS : number) (q : string)
  (params : list (string * json)) :
  runSearch_params MIN_CHARS q = Some params ->
  trim q <> "" /\
  query_text (destructure (JObj params)) = Some (JStr (trim q)) /\
  missing_query_text (query_text (destructure (JObj params))) = false /\
  truthy (include_details (destructure (JObj params))) = true /\
  filterExpr (destructure (JObj params)) = "*" /\
  order (destructure (JObj params)) = price_asc /\
  kLimit (destructure (JObj params)) = num 5 /\
  kQuery (destructure (JObj params)) = num 15.
Proof.
  unfold runSearch_params. destruct (trim q) as [ | c s] eqn:E; [discriminate | ].
  cbn [is_empty orb]. destruct (num_ltb _ MIN_CHARS); [discriminate | ].
  intros [= <-]. split; [discriminate | ]. repeat split.
Qed.

Lemma header_search_is_valid_witness :
  runSearch_params (num 2) " agenda " =
  Some [("query_text", JStr "agenda"); ("include_details", JBool true)] /\
  trim " agenda " <> "" /\
  query_text (destructure
                (JObj [("query_text", JStr "agenda"); ("include_details", JBool true)]))
  = Some (JStr (trim " agenda ")) /\
  missing_query_text
    (query_text (destructure
                   (JObj [("query_text", JStr "agenda"); ("include_details", JBool true)])))
  = false /\
  truthy (include_details
            (destructure
               (JObj [("query_text", JStr "agenda"); ("include_details", JBool true)])))
  = true /\
  filterExpr (prims := sample_prims)
    (destructure (JObj [("query_text", JStr "agenda"); ("include_details", JBool true)]))
  = "*" /\
  order (destructure (JObj [("query_text", JStr "agenda"); ("include_details", JBool true)]))
  = price_asc /\
  kLimit (prims := sample_prims)
    (destructure (JObj [("query_text", JStr "agenda"); ("include_details", JBool true)]))
  = num 5 /\
  kQuery (prims := sample_prims)
    (destructure (JObj [("query_text", JStr "agenda"); ("include_details", JBool true)]))
  = num 15.
Proof.
  split; [reflexivity | ].
  exact (header_search_is_valid (prims := sample_prims) (num 2) " agenda " _ eq_refl).
Defined.

(** X13.  With [n] results listed and the active index at -1 (none) or
    at a result, the arrow keys always land on a result: the index stays
    between 0 and [n - 1], wrapping around at both ends; and from a
    result, up after down and down after up come back to it. *)
Theorem arrows_stay_in_range (n prev : Z) :
  (0 < n)%Z -> (-1 <= prev < n)%Z ->
  (0 <= arrow_down n prev < n)%Z /\
  (0 <= arrow_up n prev < n)%Z /\
  arrow_down n (n - 1) = 0%Z /\
  arrow_up n 0 = (n - 1)%Z /\
  ((0 <= prev)%Z ->
   arrow_up n (arrow_down n prev) = prev /\ arrow_down n (arrow_up n prev) = prev).
Proof.
  intros Hn Hp.
  destruct (Z.eq_dec n 1) as [-> | Hn1].
  { assert (H : prev = (-1)%Z \/ prev = 0%Z) by lia.
    destruct H as [-> | ->]; vm_compute; intuition congruence. }
  unfold arrow_down, arrow_up.
  destruct (n =? 0)%Z eqn:E; [apply Z.eqb_eq in E; lia | ].
  assert (Hd : Z.rem (prev + 1 + n) n = if (prev + 1 =? n)%Z then 0%Z else (prev + 1)%Z).
  { rewrite Z.rem_mod_nonneg by lia.
    destruct (prev + 1 =? n)%Z eqn:E1.
    - apply Z.eqb_eq in E1. replace (prev + 1 + n)%Z with (0 + 2 * n)%Z by lia.
      now rewrite Z_mod_plus_full.
    - apply Z.eqb_neq in E1. replace (prev + 1 + n)%Z with (prev + 1 + 1 * n)%Z by lia.
      rewrite Z_mod_plus_full. apply Z.mod_small. lia. }
  assert (Hu : Z.rem (prev - 1 + n) n
               = if (prev <=? 0)%Z then (prev - 1 + n)%Z else (prev - 1)%Z).
  { rewrite Z.rem_mod_nonneg by lia.
    destruct (prev <=? 0)%Z eqn:E1.
    - apply Z.leb_le in E1. apply Z.mod_small. lia.
    - apply Z.leb_gt in E1. replace (prev - 1 + n)%Z with (prev - 1 + 1 * n)%Z by lia.
      rewrite Z_mod_plus_full. apply Z.mod_small. lia. }
  rewrite Hd, Hu.
  assert (H0 : Z.rem (n - 1 + 1 + n) n = 0%Z).
  { rewrite Z.rem_mod_nonneg by lia. replace (n - 1 + 1 + n)%Z with (0 + 2 * n)%Z by lia.
    now rewrite Z_mod_plus_full. }
  assert (H1 : Z.rem (0 - 1 + n) n = (n - 1)%Z).
  { rewrite Z.rem_mod_nonneg by lia. replace (0 - 1 + n)%Z with (n - 1)%Z by lia.
    apply Z.mod_small. lia. }
  rewrite H0, H1.
  split; [destruct (prev + 1 =? n)%Z eqn:E1;
          [apply Z.eqb_eq in E1 | apply Z.eqb_neq in E1]; lia | ].
  split; [destruct (prev <=? 0)%Z eqn:E1;
          [apply Z.leb_le in E1 | apply Z.leb_gt in E1]; lia | ].
  split; [reflexivity | ]. split; [reflexivity | ].
  intros Hp0. split.
  - destruct (prev + 1 =? n)%Z eqn:E1.
    + apply Z.eqb_eq in E1. rewrite H1. lia.
    + apply Z.eqb_neq in E1.
      assert (H2 : Z.rem (prev + 1 - 1 + n) n = prev).
      { rewrite Z.rem_mod_nonneg by lia.
        replace (prev + 1 - 1 + n)%Z with (prev + 1 * n)%Z by lia.
        rewrite Z_mod_plus_full. apply Z.mod_small. lia. }
      exact H2.
  - destruct (prev <=? 0)%Z eqn:E1.
    + apply Z.leb_le in E1. assert (prev = 0%Z) by lia. subst prev.
      replace (0 - 1 + n + 1 + n)%Z with (n - 1 + 1 + n)%Z by lia. exact H0.
    + apply Z.leb_gt in E1.
      rewrite Z.rem_mod_nonneg by lia.
      replace (prev - 1 + 1 + n)%Z with (prev + 1 * n)%Z by lia.
      rewrite Z_mod_plus_full. apply Z.mod_small. lia.
Qed.

Lemma arrows_stay_in_range_witness :
  (0 < 5)%Z /\ (-1 <= 4 < 5)%Z /\
  (0 <= arrow_down 5 4 < 5)%Z /\
  (0 <= arrow_up 5 4 < 5)%Z /\
  arrow_down 5 (5 - 1) = 0%Z /\
  arrow_up 5 0 = (5 - 1)%Z /\
  ((0 <= 4)%Z ->
   arrow_up 5 (arrow_down 5 4) = 4%Z /\ arrow_down 5 (arrow_up 5 4) = 4%Z).
Proof.
  assert (H1 : (0 < 5)%Z) by lia.
  assert (H2 : (-1 <= 4 < 5)%Z) by lia.
  split; [exact H1 | ]. split; [exact H2 | ].
  exact (arrows_stay_in_range 5 4 H1 H2).
Defined.

(** ** The product lookup for every request *)

Section GetProductFacts.
Context {prims : JsPrims}.
Variable env : process_env.

Lemma run_GET_missing (w : world) (hist : list entry) (params : list (string * string)) :
  search_param "code" params = None ->
  search_param "id" params = None ->
  run w hist (GET env params)
  = ([], inl {| status := 400; body := ErrorPayload "Missing code or id" None |}).
Proof.
  intros Hc Hi. unfold GET. now rewrite Hc, Hi.
Qed.

(** The lookup once a key is given, call by call. *)
Lemma run_GET_keyed (w : world) (hist : list entry) (params : list (string * string)) :
  requested_code (search_param "code" params) (search_param "id" params) <> JNull ->
  run w hist (GET env params) =
  let code := search_param "code" params in
  let id := search_param "id" params in
  let c1 := Called getRedisClient (w unit hist getRedisClient) in
  match w unit hist getRedisClient with
  | Rejected _ =>
      ([c1], inl {| status := 500; body := ErrorPayload "Failed to fetch product" None |})
  | Fulfilled _ =>
      let cmd := sendCommand [AStr "JSON.GET"; AStr (JSON_PREFIX env ++ lookup_id code id)] in
      let o := w reply (hist ++ [c1])%list cmd in
      ([c1; Called cmd o],
       inl {| status := 200;
              body := ProductPayload (truthy (stored_product o))
                        (codeOut (stored_product o) code id) (stored_product o) |})
  end.
Proof.
  intros Hkey. unfold GET. cbv zeta.
  assert (H : forall (X : Type) (a b : X),
             match search_param "code" params, search_param "id" params with
             | None, None => a
             | _, _ => b
             end = b).
  { intros X a b. destruct (search_param "code" params), (search_param "id" params);
      try reflexivity. now contradiction Hkey. }
  rewrite H. clear H.
  rewrite run_try_catch, run_bind, run_await.
  destruct (w unit hist getRedisClient) as [[] | e]; cbv beta iota zeta;
    [ | reflexivity].
  rewrite run_bind, run_try_catch, run_bind, run_await.
  match goal with
  | |- context [w reply ?h ?c] => destruct (w reply h c) as [jraw | e']
  end; cbv beta iota zeta; [ | reflexivity].
  unfold parse_product, stored_product.
  destruct (reply_text (Some jraw)) as [jtext | ];
    [destruct (is_empty jtext); [ | destruct (JSON_parse jtext) as [j | ]] | ];
    reflexivity.
Qed.

Lemma codeOut_missing (product : json) (code id : option string) :
  truthy product = false ->
  (forall c, code = Some c -> is_empty c = false) ->
  (forall i, id = Some i -> is_empty i = false) ->
  codeOut product code id = requested_code code id.
Proof.
  intros Hp Hc Hi. unfold codeOut, or_else, requested_code, str_value. rewrite Hp.
  cbn [truthy_value]. rewrite Hp.
  destruct code as [c | ].
  - cbn [truthy_value truthy]. rewrite (Hc c eq_refl). cbn [negb truthy_value truthy].
    now rewrite (Hc c eq_refl).
  - cbn [truthy_value]. destruct id as [i | ]; [ | reflexivity].
    cbn [truthy_value truthy]. now rewrite (Hi i eq_refl).
Qed.
End GetProductFacts.

(** X14.  Every run of the product lookup ends in an answer.  Without a
    non-empty [code] or [id] it is the 400 answer and nothing is called.
    Otherwise a client is asked for; if that fails the answer is 500, and
    if not, exactly one [JSON.GET] is sent, for the prefixed [id] or else
    [code], and the answer is 200 whatever the store replies: [found]
    tells whether the parsed product is truthy, and a failed call, an
    empty reply or a text that is not JSON count as the product [null]. *)
Theorem product_lookup_always_answers {prims : JsPrims} (env : process_env) (w : world)
  (hist : list entry) (params : list (string * string)) :
  exists t resp,
    run w hist (GET env params) = (t, inl resp) /\
    match search_param "code" params, search_param "id" params with
    | None, None =>
        t = [] /\ resp = {| status := 400; body := ErrorPayload "Missing code or id" None |}
    | code, id =>
        match w unit hist getRedisClient with
        | Rejected _ =>
            commands t = [] /\
            resp = {| status := 500; body := ErrorPayload "Failed to fetch product" None |}
        | Fulfilled _ =>
            exists o,
              t = [Called getRedisClient (Fulfilled tt);
                   Called (sendCommand [AStr "JSON.GET";
                                        AStr (JSON_PREFIX env ++ lookup_id code id)]) o] /\
              resp = {| status := 200;
                        body := ProductPayload (truthy (stored_product o))
                                  (codeOut (stored_product o) code id)
                                  (stored_product o) |}
        end
    end.
Proof.
  destruct (search_param "code" params) as [c | ] eqn:Hc,
           (search_param "id" params) as [i | ] eqn:Hi.
  4:{ rewrite run_GET_missing by assumption. eexists _, _. repeat split. }
  all: rewrite run_GET_keyed by (rewrite Hc, Hi; discriminate); cbv zeta;
    rewrite Hc, Hi;
    destruct (w unit hist getRedisClient) as [[] | e];
    eexists _, _; (split; [reflexivity | ]);
    [eexists; split; reflexivity | split; reflexivity].
Qed.

(** X15.  When a key is given and the client is obtained, a lookup that
    yields no truthy product (the call fails, the key is not stored, or
    what is stored is not JSON) is answered with status 200, [found]
    false, and the caller's own key as [code]: the [code] parameter when
    given, else the [id], although the key looked up prefers the [id]. *)
Theorem missing_product_echoes_request {prims : JsPrims} (env : process_env) (w : world)
  (hist : list entry) (params : list (string * string)) (u : unit) (o : outcome reply) :
  requested_code (search_param "code" params) (search_param "id" params) <> JNull ->
  w unit hist getRedisClient = Fulfilled u ->
  w reply (hist ++ [Called getRedisClient (Fulfilled u)])%list
    (sendCommand [AStr "JSON.GET";
                  AStr (JSON_PREFIX env
                        ++ lookup_id (search_param "code" params)
                             (search_param "id" params))]) = o ->
  truthy (stored_product o) = false ->
  snd (run w hist (GET env params))
  = inl {| status := 200;
           body := ProductPayload false
                     (requested_code (search_param "code" params)
                        (search_param "id" params))
                     (stored_product o) |}.
Proof.
  intros Hkey Hclient Ho Hp. rewrite run_GET_keyed by assumption. cbv zeta.
  rewrite Hclient, Ho. cbn [snd]. rewrite Hp.
  rewrite codeOut_missing; auto; intros x Hx; eapply search_param_not_empty; eauto.
Qed.

Lemma missing_product_echoes_request_witness :
  requested_code (search_param "code" [("code", "LEG-9"); ("id", "7")])
    (search_param "id" [("code", "LEG-9"); ("id", "7")]) <> JNull /\
  truthy (stored_product (prims := sample_prims) (Fulfilled RNull)) = false /\
  snd (sample_lookup [("code", "LEG-9"); ("id", "7")])
  = inl {| status := 200;
           body := ProductPayload false
                     (requested_code (search_param "code" [("code", "LEG-9"); ("id", "7")])
                        (search_param "id" [("code", "LEG-9"); ("id", "7")]))
                     (stored_product (prims := sample_prims) (Fulfilled RNull)) |}.
Proof.
  split; [discriminate | ]. split; [reflexivity | ].
  apply (missing_product_echoes_request (prims := sample_prims) no_env
           (sample_world a_vector (Fulfilled two_docs) (Fulfilled two_docs) one_product)
           [] [("code", "LEG-9"); ("id", "7")] tt (Fulfilled RNull)).
  - discriminate.
  - reflexivity.
  - reflexivity.
  - reflexivity.
Defined.

(** ** The client function [get_product] and the lookup it calls *)

Lemma get_product_query_params {prims : JsPrims} (code id : option string) :
  search_param "code" (get_product_query code id) = given code /\
  search_param "id" (get_product_query code id) = given id.
Proof.
  unfold get_product_query, search_param, given.
  destruct code as [c | ], id as [i | ]; try destruct (is_empty c) eqn:Ec;
    try destruct (is_empty i) eqn:Ei; cbn; rewrite ?Ec, ?Ei; split; reflexivity.
Qed.

(** X16.  What [get_product] sends is what the lookup reads: a [code]
    or [id] that is absent or empty is left out of the query, so a call
    with neither is answered 400 without any call to the store, and any
    other call looks up the prefixed [id], or the [code] when there is no
    [id], and nothing else. *)
Theorem get_product_reaches_lookup {prims : JsPrims} (env : process_env) (w : world)
  (hist : list entry) (code id : option string) :
  exists t resp,
    run w hist (GET env (get_product_query code id)) = (t, inl resp) /\
    (status resp = 400%Z <-> given code = None /\ given id = None) /\
    (forall cmd, In cmd (commands t) ->
                 fst cmd = [AStr "JSON.GET";
                            AStr (JSON_PREFIX env ++ lookup_id (given code) (given id))]).
Proof.
  destruct (get_product_query_params code id) as [Hc Hi].
  destruct (requested_code (given code) (given id)) eqn:Hk.
  1:{ assert (G : given code = None /\ given id = None)
        by (destruct (given code), (given id); try discriminate; auto).
      destruct G as [Gc Gi]. rewrite Gc in Hc. rewrite Gi in Hi.
      rewrite run_GET_missing by assumption. eexists _, _.
      split; [reflexivity | ]. split; [tauto | intros cmd []]. }
  all: assert (Hkey : requested_code (given code) (given id) <> JNull)
      by (rewrite Hk; discriminate);
    rewrite run_GET_keyed by (rewrite Hc, Hi; exact Hkey); cbv zeta;
    rewrite Hc, Hi;
    destruct (w unit hist getRedisClient) as [[] | e];
    eexists _, _; (split; [reflexivity | ]);
    (split; [split; [discriminate
                    | intros [G1 G2]; rewrite G1, G2 in Hk; discriminate] | ]);
    cbn [commands command_of]; try (intros cmd []);
    destruct (w reply _ _); intros cmd [<- | []]; reflexivity.
Qed.

(** ** The schema of [generate_ui] for every registry *)

(** X17.  Whatever the registry is, the arguments of an accepted call
    are an object with the one key [component], and its value is accepted
    through the reference of some registered component.  So nothing is
    accepted for an empty registry. *)
Theorem accepted_call_shape (fuel : nat) (components : list component) (args : json) :
  accepts_call fuel components args = true ->
  exists kv node,
    args = JObj kv /\
    obj_get "component" kv = Some node /\
    (forall k, In k (obj_keys kv) -> k = "component") /\
    exists c,
      In c components /\
      by_ref_in (tool_parameters components) fuel ("#/$defs/" ++ name c) node = true.
Proof.
  unfold accepts_call, validate.
  set (by_ref := by_ref_in (tool_parameters components) fuel).
  unfold tool_parameters at 1, generateUITool.
  cbn [get_prop obj_get String.eqb Ascii.eqb Bool.eqb].
  rewrite accepts_JObj. cbn [forallb fst snd]. unfold keyword_ok.
  cbn [String.eqb Ascii.eqb Bool.eqb andb obj_get get_prop closed_ok required_ok
         type_ok has_type forallb fst snd obj_keys map].
  intros H. repeat (apply andb_true_iff in H as [? H]).
  destruct args as [ | | | | | kv]; try discriminate.
  exists kv.
  match goal with
  | Hr : has_key "component" kv && true = true |- _ =>
      rewrite andb_true_r in Hr; unfold has_key in Hr
  end.
  cbn [get_prop] in *.
  destruct (obj_get "component" kv) as [node | ] eqn:Hnode; [ | discriminate].
  exists node. split; [reflexivity | ]. split; [reflexivity | ]. split.
  - match goal with
    | Hc : forallb _ (obj_keys kv) = true |- _ =>
        rewrite forallb_forall in Hc; rename Hc into Hclosed
    end.
    intros k Hk. specialize (Hclosed k Hk). cbn [existsb] in Hclosed.
    rewrite orb_false_r in Hclosed. now apply String.eqb_eq in Hclosed.
  - match goal with
    | Hp : accepts by_ref _ node && true = true |- _ =>
        rewrite andb_true_r in Hp; rewrite accepts_JObj in Hp;
        cbn [forallb fst snd] in Hp; unfold keyword_ok in Hp;
        cbn [String.eqb Ascii.eqb Bool.eqb andb] in Hp;
        rewrite andb_true_r in Hp; apply existsb_exists in Hp as (s & Hs & Hacc)
    end.
    unfold componentsList in Hs. apply in_map_iff in Hs as (c & <- & Hc).
    exists c. split; [exact Hc | ]. now rewrite accepts_reference in Hacc.
Qed.

Lemma accepted_call_shape_witness :
  accepts_call 3 sample_components (call_with a_header) = true /\
  exists kv node,
    call_with a_header = JObj kv /\
    obj_get "component" kv = Some node /\
    (forall k, In k (obj_keys kv) -> k = "component") /\
    exists c,
      In c sample_components /\
      by_ref_in (tool_parameters sample_components) 3 ("#/$defs/" ++ name c) node = true.
Proof.
  assert (H : accepts_call 3 sample_components (call_with a_header) = true)
    by (vm_compute; reflexivity).
  split; [exact H | ].
  exact (accepted_call_shape 3 sample_components (call_with a_header) H).
Defined.




(** X19.  A component that declares a parameter called [name] replaces
    the literal of its own name: in the schema stored for it the property
    [name] is the declared fragment, so the name of an instance is no
    longer held to the component's. *)
Theorem name_parameter_replaces_literal (c : component) (frag : json) :
  NoDup (obj_keys (parameters c)) ->
  In ("name", frag) (parameters c) ->
  exists props,
    get_prop "properties" (definition_of c) = Some (JObj props) /\
    obj_get "name" props = Some frag /\
    List.length props = List.length (parameters c).
Proof.
  intros Hn Hin. eexists. split; [reflexivity | ]. split.
  - rewrite obj_get_spread, obj_get_rev by assumption.
    now rewrite (obj_get_NoDup _ _ _ Hn Hin).
  - apply in_split in Hin as (a & b & E). rewrite E in *.
    unfold obj_keys in Hn. rewrite map_app in Hn. cbn [map fst] in Hn.
    apply NoDup_remove in Hn as [Hn Hnot]. rewrite in_app_iff in Hnot.
    assert (Ha : forall l, ~ In "name" (map fst a) ->
                 obj_spread (("name", l) :: nil) a = (("name", l) :: a)%list).
    { intros l Hl. rewrite obj_spread_fresh; [reflexivity | | ].
      - apply NoDup_app_remove_r in Hn. exact Hn.
      - intros k Hk [<- | []]. contradiction. }
    unfold obj_spread in *. rewrite fold_left_app.
    specialize (Ha (JObj [("type", JStr "string"); ("enum", JArr [JStr (name c)])])
                  ltac:(tauto)).
    rewrite Ha. cbn [fold_left fst snd obj_set String.eqb Ascii.eqb Bool.eqb].
    change (fold_left (fun acc p => obj_set (fst p) (snd p) acc) b (("name", frag) :: a))
      with (obj_spread (("name", frag) :: a) b).
    rewrite obj_spread_fresh.
    + rewrite !length_app. simpl. lia.
    + apply NoDup_app_remove_l in Hn. exact Hn.
    + intros k Hk [<- | Hka]; [tauto | ].
      revert Hn Hk Hka. clear. intros Hn Hk Hka.
      induction a as [ | x a IH]; [contradiction | ].
      simpl in Hn. inversion Hn as [ | ? ? Hx Hn']; subst.
      destruct Hka as [E | Hka]; [ | now apply IH].
      apply Hx. rewrite in_app_iff. right. now rewrite E.
Qed.

Lemma name_parameter_replaces_literal_witness :
  NoDup (obj_keys (parameters {| name := "card";
                                 parameters := [("name", of_type "string")] |})) /\
  In ("name", of_type "string")
     (parameters {| name := "card"; parameters := [("name", of_type "string")] |}) /\
  exists props,
    get_prop "properties"
      (definition_of {| name := "card"; parameters := [("name", of_type "string")] |})
    = Some (JObj props) /\
    obj_get "name" props = Some (of_type "string") /\
    List.length props
    = List.length (parameters {| name := "card";
                                 parameters := [("name", of_type "string")] |}).
Proof.
  assert (H1 : NoDup (obj_keys (parameters {| name := "card";
                                             parameters := [("name", of_type "string")] |})))
    by (repeat constructor; simpl; tauto).
  assert (H2 : In ("name", of_type "string")
                  (parameters {| name := "card";
                                 parameters := [("name", of_type "string")] |}))
    by (simpl; tauto).
  split; [exact H1 | ]. split; [exact H2 | ].
  exact (name_parameter_replaces_literal
           {| name := "card"; parameters := [("name", of_type "string")] |}
           (of_type "string") H1 H2).
Defined.

(** ** The chart helpers *)

Lemma string_map_length (f : ascii -> ascii) (s : string) :
  String.length (string_map f s) = String.length s.
Proof.
  induction s as [ | c s IH]; simpl; congruence.
Qed.

Lemma string_map_map (f g : ascii -> ascii) (s : string) :
  string_map f (string_map g s) = string_map (fun c => f (g c)) s.
Proof.
  induction s as [ | c s IH]; simpl; congruence.
Qed.

Lemma string_map_ext (f g : ascii -> ascii) (s : string) :
  (forall c, f c = g c) -> string_map f s = string_map g s.
Proof.
  intros H. induction s as [ | c s IH]; simpl; congruence.
Qed.

Lemma string_map_forall (p : ascii -> bool) (f : ascii -> ascii) (s : string) :
  (forall c, p (f c) = true) -> string_forall p (string_map f s) = true.
Proof.
  intros H. induction s as [ | c s IH]; simpl; [reflexivity | ]. now rewrite H, IH.
Qed.

Lemma key_char_ok (c : ascii) : is_key_char (key_char c) = true.
Proof.
  destruct c as [[] [] [] [] [] [] [] []]; vm_compute; reflexivity.
Qed.

Lemma key_char_fixed (c : ascii) : key_char (key_char c) = key_char c.
Proof.
  destruct c as [[] [] [] [] [] [] [] []]; vm_compute; reflexivity.
Qed.

Lemma formatKey_map (key : string) : formatKey key = string_map key_char key.
Proof.
  unfold formatKey, toLowerCase. now rewrite string_map_map.
Qed.

Section ChartFacts.
Variable parseFloat : string -> number.

Lemma map_from_labelled (items : list chart_column) :
  forall index,
    Forall (fun item => has_label item = true) items ->
    exists ds,
      map_from parseFloat index items = inl ds /\
      map datum_id ds = seq index (List.length items) /\
      map (fun d => Some (datum_label d)) ds = map column_label items.
Proof.
  induction items as [ | item rest IH]; intros index Hall.
  - exists []. repeat split.
  - inversion Hall as [ | ? ? Hitem Hrest]; subst.
    destruct (IH (S index) Hrest) as (ds & Hds & Hid & Hl).
    cbn [map_from]. unfold to_datum. rewrite Hitem, Hds.
    eexists. split; [reflexivity | ]. cbn [map datum_id datum_label List.length seq].
    rewrite Hid, Hl. split; [reflexivity | ].
    unfold has_label in Hitem. now destruct (column_label item).
Qed.
End ChartFacts.

(** X21.  [getChartData] never throws: the [throw] of its callback is
    behind the filter that has already dropped the columns without label.
    The result has one row for each column with a non-empty label, in
    order, with that label and the ids 0, 1, 2, ... *)
Theorem getChartData_total (parseFloat : string -> number) (columns : list chart_column) :
  exists ds,
    getChartData parseFloat columns = inl ds /\
    List.length ds = List.length (filter has_label columns) /\
    map datum_id ds = seq 0 (List.length ds) /\
    map (fun d => Some (datum_label d)) ds = map column_label (filter has_label columns) /\
    Forall (fun d => datum_label d <> "") ds.
Proof.
  unfold getChartData.
  assert (Hall : Forall (fun item => has_label item = true) (filter has_label columns)).
  { apply Forall_forall. intros x Hx. now apply filter_In in Hx. }
  destruct (map_from_labelled parseFloat _ 0 Hall) as (ds & Hds & Hid & Hl).
  exists ds. split; [exact Hds | ].
  assert (Hlen : List.length ds = List.length (filter has_label columns)).
  { rewrite <- (length_map (fun d => Some (datum_label d)) ds), Hl. apply length_map. }
  split; [exact Hlen | ]. split; [now rewrite Hlen | ]. split; [exact Hl | ].
  apply Forall_forall. intros d Hd.
  assert (Hin : In (Some (datum_label d)) (map column_label (filter has_label columns))).
  { rewrite <- Hl. apply in_map_iff. now exists d. }
  apply in_map_iff in Hin as (item & Hitem & Hf). apply filter_In in Hf as [_ Hf].
  unfold has_label in Hf. rewrite Hitem in Hf.
  intros E. rewrite E in Hf. discriminate.
Qed.

Lemma config_keep (l : list chart_datum) (k : string) :
  forall acc,
    ~ In k (map (fun d => formatKey (datum_label d)) l) ->
    obj_get k (fold_left (fun config item =>
                            obj_assign (formatKey (datum_label item))
                              (config_entry (datum_label item)) config) l acc)
    = obj_get k acc.
Proof.
  induction l as [ | x l IH]; intros acc Hn; simpl; [reflexivity | ].
  simpl in Hn. rewrite IH by tauto. unfold obj_assign.
  destruct (String.eqb (formatKey (datum_label x)) "__proto__"); [reflexivity | ].
  rewrite obj_get_set. destruct (String.eqb k (formatKey (datum_label x))) eqn:E;
    [ | reflexivity].
  apply String.eqb_eq in E. subst. tauto.
Qed.

Lemma config_keys (l : list chart_datum) :
  forall acc,
    NoDup (obj_keys acc) ->
    NoDup (obj_keys (fold_left (fun config item =>
                                  obj_assign (formatKey (datum_label item))
                                    (config_entry (datum_label item)) config) l acc)) /\
    (List.length (fold_left (fun config item =>
                               obj_assign (formatKey (datum_label item))
                                 (config_entry (datum_label item)) config) l acc)
     <= List.length acc + List.length l)%nat.
Proof.
  induction l as [ | x l IH]; intros acc Hn; simpl; [split; [exact Hn | lia] | ].
  unfold obj_assign at 2 4.
  destruct (String.eqb (formatKey (datum_label x)) "__proto__").
  - destruct (IH acc Hn) as [H1 H2]. split; [exact H1 | lia].
  - destruct (IH (obj_set (formatKey (datum_label x)) (config_entry (datum_label x)) acc)
                (obj_set_keys_NoDup _ _ _ Hn)) as [H1 H2].
    split; [exact H1 | ].
    assert (Hs : forall (k : string) (v : json) kv,
               (List.length (obj_set k v kv) <= S (List.length kv))%nat).
    { intros k v kv. induction kv as [ | [k0 v0] kv IHkv]; simpl; [lia | ].
      destruct (String.eqb k k0); simpl; lia. }
    specialize (Hs (formatKey (datum_label x)) (config_entry (datum_label x)) acc). lia.
Qed.

(** X22.  The chart configuration has one entry per key, so at most as
    many entries as rows; when the labels of several rows give the same
    key, the entry of that key carries the label of the last such row. *)
Theorem getChartConfig_last_label (l1 l2 : list chart_datum) (d : chart_datum) :
  formatKey (datum_label d) <> "__proto__" ->
  ~ In (formatKey (datum_label d)) (map (fun x => formatKey (datum_label x)) l2) ->
  NoDup (obj_keys (getChartConfig (l1 ++ d :: l2))) /\
  (List.length (getChartConfig (l1 ++ d :: l2)) <= List.length (l1 ++ d :: l2))%nat /\
  obj_get (formatKey (datum_label d)) (getChartConfig (l1 ++ d :: l2))
  = Some (config_entry (datum_label d)).
Proof.
  intros Hproto Hl2. unfold getChartConfig.
  destruct (config_keys (l1 ++ d :: l2) [] ltac:(constructor)) as [H1 H2].
  split; [exact H1 | ]. split; [exact H2 | ].
  rewrite fold_left_app. cbn [fold_left].
  rewrite config_keep by assumption. unfold obj_assign.
  destruct (String.eqb (formatKey (datum_label d)) "__proto__") eqn:E;
    [apply String.eqb_eq in E; contradiction | ].
  rewrite obj_get_set. now rewrite String.eqb_refl.
Qed.

Lemma getChartConfig_last_label_witness :
  formatKey (datum_label (datum 1 "q-1")) <> "__proto__" /\
  ~ In (formatKey (datum_label (datum 1 "q-1")))
       (map (fun x => formatKey (datum_label x)) []) /\
  NoDup (obj_keys (getChartConfig ([datum 0 "Q 1"] ++ datum 1 "q-1" :: []))) /\
  (List.length (getChartConfig ([datum 0 "Q 1"] ++ datum 1 "q-1" :: []))
   <= List.length ([datum 0 "Q 1"] ++ datum 1 "q-1" :: []))%nat /\
  obj_get (formatKey (datum_label (datum 1 "q-1")))
    (getChartConfig ([datum 0 "Q 1"] ++ datum 1 "q-1" :: []))
  = Some (config_entry (datum_label (datum 1 "q-1"))).
Proof.
  assert (H1 : formatKey (datum_label (datum 1 "q-1")) <> "__proto__")
    by (vm_compute; discriminate).
  assert (H2 : ~ In (formatKey (datum_label (datum 1 "q-1")))
                    (map (fun x => formatKey (datum_label x)) []))
    by (simpl; tauto).
  split; [exact H1 | ]. split; [exact H2 | ].
  exact (getChartConfig_last_label [datum 0 "Q 1"] [] (datum 1 "q-1") H1 H2).
Defined.

(** ** The shared client *)

Lemma getRedisClient_calls_reuse (REDIS_URL : option string)
  (answers : list library_answers) (c : client_handle) :
  getRedisClient_calls REDIS_URL answers (Some c)
  = (Some c, [], map (fun _ => Fulfilled c) answers).
Proof.
  induction answers as [ | a rest IH]; [reflexivity | ].
  cbn [getRedisClient_calls getRedisClient_call]. rewrite IH. reflexivity.
Qed.

(** X23.  Once [createClient] has returned, the client stays in the
    module for good.  The calls made on the library are those of that
    first call, with one [connect] unless the client says it is open, and
    every later call of [getRedisClient] returns the same client without
    any call on the library.  This holds also when the [connect] of the
    first call fails: that call is rejected, the later ones are fulfilled
    with the client that never connected, and no [connect] is tried
    again. *)
Theorem client_is_set_up_once (REDIS_URL : option string) (a : library_answers)
  (rest : list library_answers) (u : unit) :
  answer_created a = Fulfilled u ->
  getRedisClient_calls REDIS_URL (a :: rest) None
  = (Some {| client_url := env_or REDIS_URL "redis://localhost:6379" |},
     (createClient (env_or REDIS_URL "redis://localhost:6379") :: on_error
      :: (if answer_isOpen a then [] else [connect]))%list,
     (if answer_isOpen a
      then Fulfilled {| client_url := env_or REDIS_URL "redis://localhost:6379" |}
      else match answer_connected a with
           | Fulfilled _ =>
               Fulfilled {| client_url := env_or REDIS_URL "redis://localhost:6379" |}
           | Rejected e => Rejected e
           end)
     :: map (fun _ => Fulfilled {| client_url := env_or REDIS_URL "redis://localhost:6379" |})
          rest).
Proof.
  intros Hc. cbn [getRedisClient_calls getRedisClient_call]. rewrite Hc.
  destruct (answer_isOpen a); [ | destruct (answer_connected a)];
    rewrite getRedisClient_calls_reuse; reflexivity.
Qed.

Lemma client_is_set_up_once_witness :
  answer_created {| answer_created := Fulfilled tt; answer_isOpen := false;
                    answer_connected := Rejected (an_error "connect ECONNREFUSED") |}
  = Fulfilled tt /\
  getRedisClient_calls None
    [{| answer_created := Fulfilled tt; answer_isOpen := false;
        answer_connected := Rejected (an_error "connect ECONNREFUSED") |};
     {| answer_created := Fulfilled tt; answer_isOpen := false;
        answer_connected := Fulfilled tt |}] None
  = (Some {| client_url := "redis://localhost:6379" |},
     [createClient "redis://localhost:6379"; on_error; connect],
     [Rejected (an_error "connect ECONNREFUSED");
      Fulfilled {| client_url := "redis://localhost:6379" |}]).
Proof.
  split; [reflexivity | ].
  exact (client_is_set_up_once None
           {| answer_created := Fulfilled tt; answer_isOpen := false;
              answer_connected := Rejected (an_error "connect ECONNREFUSED") |}
           [{| answer_created := Fulfilled tt; answer_isOpen := false;
               answer_connected := Fulfilled tt |}] tt eq_refl).
Defined.

(** ** The fields of a document *)

Section DocumentFacts.
Context {prims : JsPrims}.

Lemma doc_fields_app (doc rest : list reply) :
  Nat.even (List.length doc) = true ->
  forall obj, doc_fields (doc ++ rest) obj = doc_fields rest (doc_fields doc obj).
Proof.
  assert (H : forall n (d : list reply),
             (List.length d <= n)%nat -> Nat.even (List.length d) = true ->
             forall obj, doc_fields (d ++ rest) obj = doc_fields rest (doc_fields d obj)).
  { induction n as [ | n IH]; intros d Hlen Hev obj.
    - destruct d; [reflexivity | simpl in Hlen; lia].
    - destruct d as [ | f [ | v d]]; [reflexivity | discriminate | ].
      cbn [app doc_fields]. apply IH; [simpl in Hlen; lia | exact Hev]. }
  intros Hev obj. now apply (H (List.length doc)).
Qed.

Lemma assign_get (f v : string) (obj : list (string * string)) :
  f <> "__proto__" -> obj_get f (assign f v obj) = Some v.
Proof.
  intros Hf. unfold assign.
  destruct (String.eqb f "__proto__") eqn:E; [apply String.eqb_eq in E; contradiction | ].
  rewrite obj_get_set. now rewrite String.eqb_refl.
Qed.

Lemma doc_fields_proto (doc : list reply) :
  forall obj, obj_get "__proto__" obj = None ->
              obj_get "__proto__" (doc_fields doc obj) = None.
Proof.
  assert (Ha : forall f v obj, obj_get "__proto__" obj = None ->
                               obj_get "__proto__" (assign f v obj) = None).
  { intros f v obj H. unfold assign.
    destruct (String.eqb f "__proto__") eqn:E; [exact H | ].
    rewrite obj_get_set. rewrite String.eqb_sym, E. exact H. }
  assert (H : forall n (d : list reply),
             (List.length d <= n)%nat ->
             forall obj, obj_get "__proto__" obj = None ->
                         obj_get "__proto__" (doc_fields d obj) = None).
  { induction n as [ | n IH]; intros d Hlen obj Hobj.
    - destruct d; [exact Hobj | simpl in Hlen; lia].
    - destruct d as [ | f [ | v d]]; [exact Hobj | now apply Ha | ].
      cbn [doc_fields]. apply IH; [simpl in Hlen; lia | now apply Ha]. }
  intros obj. now apply (H (List.length doc)).
Qed.
End DocumentFacts.

(** X25.  In the field list of a document, names and values alternate.
    A name that comes again takes the later value; a name left without a
    value at the end of the list gets the empty text; and a field called
    [__proto__] never becomes a field of the row. *)
Theorem later_field_value_wins {prims : JsPrims} (doc : list reply) (f v : string) :
  Nat.even (List.length doc) = true ->
  f <> "__proto__" ->
  obj_get f (doc_fields (doc ++ [RStr f; RStr v]) []) = Some v /\
  obj_get f (doc_fields (doc ++ [RStr f]) []) = Some "" /\
  obj_get "__proto__" (doc_fields (doc ++ [RStr "__proto__"; RStr v]) []) = None.
Proof.
  intros Hev Hf. rewrite !doc_fields_app by assumption.
  cbn [doc_fields reply_String field_text reply_text]. split; [ | split].
  - now apply assign_get.
  - now apply assign_get.
  - unfold assign. cbn [String.eqb Ascii.eqb Bool.eqb].
    now apply doc_fields_proto.
Qed.

Lemma later_field_value_wins_witness :
  Nat.even (List.length [RStr "price"; RStr "20"]) = true /\
  "price" <> "__proto__" /\
  obj_get "price"
    (doc_fields (prims := sample_prims) ([RStr "price"; RStr "20"] ++ [RStr "price"; RStr "10"])
       []) = Some "10" /\
  obj_get "price"
    (doc_fields (prims := sample_prims) ([RStr "price"; RStr "20"] ++ [RStr "price"]) [])
  = Some "" /\
  obj_get "__proto__"
    (doc_fields (prims := sample_prims)
       ([RStr "price"; RStr "20"] ++ [RStr "__proto__"; RStr "10"]) []) = None.
Proof.
  assert (H1 : Nat.even (List.length [RStr "price"; RStr "20"]) = true) by reflexivity.
  assert (H2 : "price" <> "__proto__") by discriminate.
  split; [exact H1 | ]. split; [exact H2 | ].
  exact (later_field_value_wins (prims := sample_prims) [RStr "price"; RStr "20"]
           "price" "10" H1 H2).
Defined.

(** ** The flags of the header *)

Lemma lower_char_space (c : ascii) : is_space (lower_char c) = is_space c.
Proof.
  destruct c as [[] [] [] [] [] [] [] []]; vm_compute; reflexivity.
Qed.

Lemma lower_char_fixed (c : ascii) : lower_char (lower_char c) = lower_char c.
Proof.
  destruct c as [[] [] [] [] [] [] [] []]; vm_compute; reflexivity.
Qed.

Lemma toLowerCase_fixed (s : string) : toLowerCase (toLowerCase s) = toLowerCase s.
Proof.
  unfold toLowerCase. rewrite string_map_map. apply string_map_ext, lower_char_fixed.
Qed.

Lemma drop_spaces_lower (s : string) :
  drop_spaces (toLowerCase s) = toLowerCase (drop_spaces s).
Proof.
  unfold toLowerCase. induction s as [ | c s IH]; [reflexivity | ].
  cbn [string_map drop_spaces]. rewrite lower_char_space.
  destruct (is_space c); [exact IH | reflexivity].
Qed.

Lemma all_spaces_lower (s : string) : all_spaces (toLowerCase s) = all_spaces s.
Proof.
  unfold toLowerCase. induction s as [ | c s IH]; [reflexivity | ].
  cbn [string_map all_spaces]. now rewrite lower_char_space, IH.
Qed.

Lemma trim_end_lower (s : string) : trim_end (toLowerCase s) = toLowerCase (trim_end s).
Proof.
  induction s as [ | c s IH]; [reflexivity | ].
  change (toLowerCase (String c s)) with (String (lower_char c) (toLowerCase s)).
  cbn [trim_end].
  change (String (lower_char c) (toLowerCase s)) with (toLowerCase (String c s)).
  rewrite all_spaces_lower. destruct (all_spaces (String c s)); [reflexivity | ].
  rewrite IH. reflexivity.
Qed.

Lemma trim_lower (s : string) : trim (toLowerCase s) = toLowerCase (trim s).
Proof.
  unfold trim. now rewrite drop_spaces_lower, trim_end_lower.
Qed.

(** X26.  [parseBool] reads a text up to case and surrounding white
    space: a text and its trimmed, lower-case form are read alike, and
    trimming and lower-casing can be done in either order.  An absent or
    null value is read as false. *)
Theorem parseBool_normalises {prims : JsPrims} (s : string) :
  parseBool (Some (JStr (toLowerCase (trim s)))) = parseBool (Some (JStr s)) /\
  parseBool (Some (JStr (trim (toLowerCase s)))) = parseBool (Some (JStr s)) /\
  parseBool None = false /\
  parseBool (Some JNull) = false.
Proof.
  unfold parseBool. cbn [ToString].
  rewrite (trim_lower (trim s)), trim_fixed, toLowerCase_fixed.
  rewrite trim_fixed, (trim_lower s), toLowerCase_fixed.
  repeat split.
Qed.

(** * From the reply of the index to the answer *)

Lemma exchanges_app (t t' : list entry) :
  exchanges (t ++ t') = (exchanges t ++ exchanges t')%list.
Proof.
  induction t as [ | c t IH]; simpl; [reflexivity | ].
  destruct (sent c); simpl; now rewrite IH.
Qed.

Lemma index_replies_app (t t' : list entry) :
  index_replies (t ++ t') = (index_replies t ++ index_replies t')%list.
Proof.
  unfold index_replies. now rewrite exchanges_app, flat_map_app.
Qed.

Lemma lookup_outcomes_app (t t' : list entry) :
  lookup_outcomes (t ++ t') = (lookup_outcomes t ++ lookup_outcomes t')%list.
Proof.
  unfold lookup_outcomes. now rewrite exchanges_app, filter_app, map_app.
Qed.

Lemma ending_error_last (t : list entry) (c : entry) :
  ending_error (t ++ [c]) = fatal c.
Proof.
  unfold ending_error. now rewrite rev_unit.
Qed.

Lemma lookups_only_empty (t : list entry) :
  forallb is_lookup t = true -> index_replies t = [].
Proof.
  induction t as [ | c t IH]; [reflexivity | ].
  cbn [forallb]. intros H. apply andb_true_iff in H as [Hc Ht].
  change (c :: t) with ([c] ++ t)%list. rewrite index_replies_app, (IH Ht), app_nil_r.
  unfold is_lookup in Hc. unfold index_replies. cbn [exchanges].
  destruct (sent c) as [[args o] | ]; [ | reflexivity].
  destruct args as [ | [s | ] [ | [k | ] [ | ]]]; try discriminate.
  apply String.eqb_eq in Hc. subst s. cbn. now destruct o.
Qed.

Section Joined.
Context {prims : JsPrims}.

Lemma with_detail_clear (r : row) (o : outcome reply) :
  clear_product (with_detail r o) = clear_product r.
Proof.
  unfold with_detail. now destruct (detail_of o).
Qed.

Lemma wants_lookup_clear (details : bool) (r : row) :
  wants_lookup details (clear_product r) = wants_lookup details r.
Proof.
  reflexivity.
Qed.

(** Every candidate is kept, in order; only the payloads are added. *)
Lemma joined_clear (details : bool) (cands : list row) :
  forall outs, map clear_product (joined details cands outs) = map clear_product cands.
Proof.
  induction cands as [ | c cs IH]; intros outs; [reflexivity | ].
  cbn [joined]. destruct (wants_lookup details c).
  - destruct outs as [ | o os]; cbn [map]; now rewrite ?with_detail_clear, IH.
  - cbn [map]. now rewrite IH.
Qed.


Lemma candidate_clear (doc : reply) : clear_product (candidate doc) = candidate doc.
Proof.
  reflexivity.
Qed.

Lemma candidates_clear (raw : reply) : map clear_product (candidates raw) = candidates raw.
Proof.
  unfold candidates. destruct (elements raw) as [[ | x l] | ]; try reflexivity.
  rewrite map_map. apply map_ext. intros doc. apply candidate_clear.
Qed.

Lemma lookup_codes_clear (rows : list row) :
  lookup_codes (map clear_product rows) = lookup_codes rows.
Proof.
  unfold lookup_codes. induction rows as [ | r rows IH]; [reflexivity | ].
  cbn [map flat_map]. now rewrite IH.
Qed.

End Joined.

Section SearchAnswer.
Context {prims : JsPrims}.
Variable env : process_env.

(** The detail lookup of one row, exactly. *)
Lemma join_detail_exact (w : world) (hist : list entry) (details : bool) (r : row) :
  run w hist (join_detail env details r) =
  if wants_lookup details r
  then ([Called (sendCommand (lookup_command env (code_text r)))
           (w reply hist (sendCommand (lookup_command env (code_text r))))],
        inl (with_detail r (w reply hist (sendCommand (lookup_command env (code_text r))))))
  else ([], inl r).
Proof.
  unfold join_detail, wants_lookup, code_text, lookup_command.
  destruct (code r) as [c | ]; [ | now destruct details].
  destruct details; [ | reflexivity]. cbn [andb].
  destruct (is_empty c); [reflexivity | ]. cbn [negb].
  rewrite run_try_catch, run_bind, run_await.
  unfold with_detail, detail_of.
  destruct (w reply hist _) as [jraw | e]; cbv beta iota zeta; [ | reflexivity].
  unfold attach.
  destruct (reply_text (Some jraw)) as [jtext | ]; [ | reflexivity].
  destruct (is_empty jtext); [reflexivity | ].
  destruct (JSON_parse jtext); reflexivity.
Qed.

(** The loop over the documents, exactly: what it returns or throws is
    read off the reply and the outcomes of its lookups. *)
Lemma collect_exact (w : world) (details : bool) (l : list reply) :
  forall hist,
    forallb is_lookup (fst (run w hist (collect env details l))) = true /\
    match snd (run w hist (collect env details l)) with
    | inl rows =>
        docs_error l = None /\
        rows = joined details (map candidate (documents l))
                 (lookup_outcomes (fst (run w hist (collect env details l))))
    | inr e => docs_error l = Some e
    end.
Proof.
  set (P := fun l => forall hist,
    forallb is_lookup (fst (run w hist (collect env details l))) = true /\
    match snd (run w hist (collect env details l)) with
    | inl rows =>
        docs_error l = None /\
        rows = joined details (map candidate (documents l))
                 (lookup_outcomes (fst (run w hist (collect env details l))))
    | inr e => docs_error l = Some e
    end).
  assert (H : P l /\ forall x, P (x :: l)).
  { induction l as [ | y l [IH1 IH2]]; split; unfold P in *; intros.
    - cbn. auto.
    - cbn. auto.
    - apply IH2.
    - cbn [collect docs_error documents map].
      unfold candidate at 1.
      destruct (elements y) as [fs | ]; [ | cbn; auto].
      rewrite run_bind, join_detail_exact.
      fold (candidate y).
      assert (Hc : row_of (doc_fields fs []) = row_of (doc_fields fs [])) by reflexivity.
      destruct (wants_lookup details (row_of (doc_fields fs []))) eqn:Hw;
        cbv beta iota zeta; rewrite run_bind;
        match goal with
        | |- context [run w ?h (collect env details l)] =>
            specialize (IH1 h); destruct (run w h (collect env details l)) as [t' [rs | e]]
        end; cbn [run fst snd app] in *; destruct IH1 as [IHl IHr];
        rewrite ?app_nil_r.
      + destruct IHr as [IHd ->]. rewrite IHd. split.
        * cbn [forallb is_lookup sent lookup_command]. exact IHl.
        * split; [reflexivity | ]. cbn [joined]. rewrite Hw.
          change (?c :: t') with ([c] ++ t')%list. rewrite lookup_outcomes_app.
          reflexivity.
      + split; [exact IHl | exact IHr].
      + destruct IHr as [IHd ->]. rewrite IHd. split; [exact IHl | ].
        split; [reflexivity | ]. cbn [joined]. now rewrite Hw.
      + split; [exact IHl | exact IHr]. }
  apply H.
Qed.

Lemma collect_rows_exact (w : world) (details : bool) (raw : reply) (hist : list entry) :
  forallb is_lookup (fst (run w hist (collect_rows env details raw))) = true /\
  match snd (run w hist (collect_rows env details raw)) with
  | inl rows =>
      reply_error raw = None /\
      rows = joined details (candidates raw)
               (lookup_outcomes (fst (run w hist (collect_rows env details raw))))
  | inr e => reply_error raw = Some e
  end.
Proof.
  unfold collect_rows, reply_error, candidates.
  destruct (elements raw) as [[ | x l] | ].
  - cbn. auto.
  - apply collect_exact.
  - cbn. auto.
Qed.

(** The index query, exactly: one or two queries and nothing else, and
    the reply of the one that succeeded. *)
Lemma query_index_exact (w : world) (hist : list entry) (r : request) (vec : buffer) :
  forallb is_index_query (fst (run w hist (query_index env r vec))) = true /\
  fst (run w hist (query_index env r vec)) <> [] /\
  lookup_outcomes (fst (run w hist (query_index env r vec))) = [] /\
  match snd (run w hist (query_index env r vec)) with
  | inl raw => index_replies (fst (run w hist (query_index env r vec))) = [raw]
  | inr e =>
      index_replies (fst (run w hist (query_index env r vec))) = [] /\
      forall pre, ending_error (pre ++ fst (run w hist (query_index env r vec))) = Some e
  end.
Proof.
  rewrite run_query_index. cbv zeta.
  destruct (w reply hist (sendCommand (argsWithDialect env r vec))) as [raw | e1].
  - cbn [fst snd]. split; [reflexivity | ]. split; [discriminate | ].
    split; reflexivity.
  - destruct (w reply _ (sendCommand (argsNoDialect env r vec))) as [raw | e2];
      cbn [fst snd]; (split; [reflexivity | ]); (split; [discriminate | ]);
      (split; [reflexivity | ]); [reflexivity | ].
    split; [reflexivity | ]. intros pre.
    change [?a; ?b] with ([a] ++ [b])%list. rewrite app_assoc, ending_error_last.
    reflexivity.
Qed.

Lemma query_index_length (w : world) (hist : list entry) (r : request) (vec : buffer) :
  (List.length (fst (run w hist (query_index env r vec))) <= 2)%nat.
Proof.
  rewrite run_query_index. cbv zeta.
  destruct (w reply hist (sendCommand (argsWithDialect env r vec))) as [raw | e1].
  - cbn [fst List.length]. lia.
  - destruct (w reply _ (sendCommand (argsNoDialect env r vec))) as [raw | e2];
      cbn [fst List.length]; lia.
Qed.

(** A handling that passes the validation, path by path. *)
Lemma POST_outcome (w : world) (hist : list entry) (b : json) :
  missing_query_text (query_text (destructure b)) = false ->
  exists t resp,
    run w hist (POST env (Fulfilled b)) = (t, inl resp) /\
    match w unit hist getRedisClient with
    | Rejected e =>
        t = [Called getRedisClient (Rejected e)] /\ resp = failure e
    | Fulfilled u =>
        match w (list number) (hist ++ [Called getRedisClient (Fulfilled u)])%list
                (embeddings_create (embedModel env) [expandedQuery (destructure b)]
                   (embDim env)) with
        | Rejected e =>
            t = [Called getRedisClient (Fulfilled u);
                 Called (embeddings_create (embedModel env)
                           [expandedQuery (destructure b)] (embDim env)) (Rejected e)] /\
            resp = failure e
        | Fulfilled emb =>
            exists tq tl,
              t = (Called getRedisClient (Fulfilled u)
                   :: Called (embeddings_create (embedModel env)
                                [expandedQuery (destructure b)] (embDim env))
                        (Fulfilled emb)
                   :: tq ++ tl)%list /\
              tq <> [] /\
              (List.length tq <= 2)%nat /\
              forallb is_index_query tq = true /\
              forallb is_lookup tl = true /\
              lookup_outcomes t = lookup_outcomes tl /\
              index_replies t = index_replies tq /\
              ((exists e,
                   index_replies tq = [] /\ tl = [] /\
                   ending_error t = Some e /\ resp = failure e) \/
               (exists raw,
                   index_replies tq = [raw] /\
                   match reply_error raw with
                   | Some e => resp = failure e
                   | None =>
                       resp = search_response (destructure b)
                                (joined (truthy (include_details (destructure b)))
                                   (candidates raw) (lookup_outcomes t)) /\
                       lookups t
                       = (if truthy (include_details (destructure b))
                          then map (lookup_command env) (lookup_codes (candidates raw))
                          else [])
                   end))
        end
    end.
Proof.
  intros Hq. rewrite run_POST, run_POST_body by assumption. cbv zeta.
  destruct (w unit hist getRedisClient) as [[] | e].
  2:{ eexists _, _. split; [reflexivity | ]. split; reflexivity. }
  match goal with
  | |- context [w (list number) ?h ?ev] => destruct (w (list number) h ev) as [emb | e]
  end.
  2:{ eexists _, _. split; [reflexivity | ]. split; reflexivity. }
  match goal with
  | |- context [run w ?h (query_index env ?r ?v)] =>
      destruct (query_index_exact w h r v) as (Hqi & Hqn & Hqo & Hqr);
      pose proof (query_index_length w h r v) as Hqlen;
      destruct (query_index_trace env w h r v) as [_ Hql];
      destruct (run w h (query_index env r v)) as [tq [raw | e]]
  end; cbn [fst snd] in *.
  2:{ destruct Hqr as [Hqr He].
      eexists _, _. split; [reflexivity | ]. exists tq, [].
      rewrite app_nil_r. split; [reflexivity | ]. split; [exact Hqn | ].
      split; [exact Hqlen | ].
      split; [exact Hqi | ]. split; [reflexivity | ].
      split; [exact Hqo | ]. split; [reflexivity | ].
      left. exists e. split; [exact Hqr | ]. split; [reflexivity | ].
      split; [ | reflexivity].
      change (?a :: ?b :: tq) with ([a; b] ++ tq)%list. apply He. }
  match goal with
  | |- context [run w ?h (collect_rows env ?d ?x)] =>
      destruct (collect_rows_exact w d x h) as (Hcl & Hcr);
      destruct (collect_rows_trace env w d x h) as [_ Hct];
      destruct (run w h (collect_rows env d x)) as [tc [rows | e]]
  end; cbn [fst snd] in *.
  - destruct Hcr as [Hre ->]. specialize (Hct _ eq_refl).
    eexists _, _. split; [reflexivity | ]. exists tq, tc.
    split; [reflexivity | ]. split; [exact Hqn | ]. split; [exact Hqlen | ].
    split; [exact Hqi | ]. split; [exact Hcl | ].
    change (lookup_outcomes (?a :: ?c :: tq ++ tc)) with (lookup_outcomes (tq ++ tc)).
    change (index_replies (?a :: ?c :: tq ++ tc)) with (index_replies (tq ++ tc)).
    rewrite lookup_outcomes_app, Hqo, index_replies_app, (lookups_only_empty tc Hcl),
      app_nil_r. cbn [app].
    split; [reflexivity | ]. split; [reflexivity | ].
    right. exists raw. split; [exact Hqr | ]. rewrite Hre.
    split.
    + reflexivity.
    + change (lookups (?a :: ?c :: ?t)) with (lookups t).
      rewrite lookups_app, Hql, Hct. cbn [app].
      rewrite <- (lookup_codes_clear (joined _ _ _)), joined_clear, lookup_codes_clear.
      reflexivity.
  - eexists _, _. split; [reflexivity | ]. exists tq, tc.
    split; [reflexivity | ]. split; [exact Hqn | ]. split; [exact Hqlen | ].
    split; [exact Hqi | ]. split; [exact Hcl | ].
    change (lookup_outcomes (?a :: ?c :: tq ++ tc)) with (lookup_outcomes (tq ++ tc)).
    change (index_replies (?a :: ?c :: tq ++ tc)) with (index_replies (tq ++ tc)).
    rewrite lookup_outcomes_app, Hqo, index_replies_app, (lookups_only_empty tc Hcl),
      app_nil_r. cbn [app].
    split; [reflexivity | ]. split; [reflexivity | ].
    right. exists raw. split; [exact Hqr | ]. now rewrite Hcr.
Qed.
End SearchAnswer.

Section SearchAnswered.
Context {prims : JsPrims}.
Variable env : process_env.

(** A handling in which the index replied: what it answers is read off
    the reply and the outcomes of the lookups. *)
Lemma POST_replied (w : world) (hist t : list entry) (req_json : outcome json)
  (resp : response) (raw : reply) :
  run w hist (POST env req_json) = (t, inl resp) ->
  index_replies t = [raw] ->
  exists b,
    req_json = Fulfilled b /\
    missing_query_text (query_text (destructure b)) = false /\
    match reply_error raw with
    | Some e => resp = failure e
    | None =>
        resp = search_response (destructure b)
                 (joined (truthy (include_details (destructure b)))
                    (candidates raw) (lookup_outcomes t)) /\
        lookups t
        = (if truthy (include_details (destructure b))
           then map (lookup_command env) (lookup_codes (candidates raw))
           else [])
    end.
Proof.
  intros Hrun Hraw. destruct req_json as [b | e].
  2:{ rewrite run_POST_rejected in Hrun. injection Hrun as <- <-. discriminate. }
  destruct (missing_query_text (query_text (destructure b))) eqn:Hq.
  { rewrite run_POST_missing in Hrun by assumption. injection Hrun as <- <-.
    discriminate. }
  exists b. split; [reflexivity | ]. split; [exact Hq | ].
  destruct (POST_outcome env w hist b Hq) as (t' & resp' & Hrun' & H).
  rewrite Hrun in Hrun'. injection Hrun' as <- <-.
  destruct (w unit hist getRedisClient) as [u | e].
  2:{ destruct H as [-> _]. discriminate. }
  destruct (w (list number) _ _) as [emb | e].
  2:{ destruct H as [-> _]. discriminate. }
  destruct H as (tq & tl & _ & _ & _ & _ & _ & _ & Hi & [(e & He & _) | (raw' & Hr & H)]).
  - rewrite Hi, He in Hraw. discriminate.
  - rewrite Hi, Hr in Hraw. injection Hraw as ->. exact H.
Qed.

(** An answer with items comes from a reply of the index. *)
Lemma POST_answer (w : world) (hist t : list entry) (req_json : outcome json)
  (resp : response) (items : list row) :
  run w hist (POST env req_json) = (t, inl resp) ->
  items_of resp = Some items ->
  exists b raw,
    req_json = Fulfilled b /\
    index_replies t = [raw] /\
    reply_error raw = None /\
    resp = search_response (destructure b)
             (joined (truthy (include_details (destructure b)))
                (candidates raw) (lookup_outcomes t)) /\
    lookups t
    = (if truthy (include_details (destructure b))
       then map (lookup_command env) (lookup_codes (candidates raw))
       else []).
Proof.
  intros Hrun Hitems. destruct req_json as [b | e].
  2:{ rewrite run_POST_rejected in Hrun. injection Hrun as <- <-. discriminate. }
  destruct (missing_query_text (query_text (destructure b))) eqn:Hq.
  { rewrite run_POST_missing in Hrun by assumption. injection Hrun as <- <-.
    discriminate. }
  destruct (POST_outcome env w hist b Hq) as (t' & resp' & Hrun' & H).
  rewrite Hrun in Hrun'. injection Hrun' as <- <-.
  destruct (w unit hist getRedisClient) as [u | e].
  2:{ destruct H as [_ ->]. discriminate. }
  destruct (w (list number) _ _) as [emb | e].
  2:{ destruct H as [_ ->]. discriminate. }
  destruct H as (tq & tl & _ & _ & _ & _ & _ & _ & Hi & [(e & _ & _ & _ & ->) | (raw & Hr & H)]);
    [discriminate | ].
  destruct (reply_error raw) as [e | ] eqn:Hre; [subst resp; discriminate | ].
  destruct H as [Hresp Hl]. exists b, raw.
  split; [reflexivity | ]. split; [now rewrite Hi | ]. auto.
Qed.
End SearchAnswered.

(** ** The final ordering, as amended *)

(** C3, as amended.  When no price and no score of a candidate is NaN,
    the returned list is the prefix of one rearrangement of the
    candidates: the one that is sorted by the price key, upwards for
    [price_asc] and downwards for [price_desc], a missing price counting
    as +infinity, then by ascending score among equal price keys, and
    that keeps candidates of equal keys in the order they came.  The
    returned list is itself sorted in this way, and for [price_asc] the
    rows without price come last. *)
Theorem price_sort_ordered (o : ordering) (limit : number) (items : list row) :
  Forall sound_keys items ->
  StronglySorted (precedes o) (arrange o limit items) /\
  (exists sorted,
      Permutation sorted items /\
      StronglySorted (precedes o) sorted /\
      (forall pk sk,
          filter (same_keys pk sk) sorted = filter (same_keys pk sk) items) /\
      arrange o limit items = slice0 sorted limit) /\
  (o = price_asc -> missing_price_last (arrange o limit items)).
Proof.
  intros Hs.
  assert (Hall : StronglySorted (precedes o) (sort (compare_rows o) items)).
  { apply sort_sorted with (P := sound_keys);
      eauto using compare_rows_after, compare_rows_keep, precedes_trans. }
  assert (Hsorted : StronglySorted (precedes o) (arrange o limit items)).
  { unfold arrange. now apply slice0_sorted. }
  split; [exact Hsorted | ]. split.
  - exists (sort (compare_rows o) items). split; [apply sort_perm | ].
    split; [exact Hall | ]. split; [ | reflexivity].
    intros pk sk. apply sort_filter. intros a b. apply same_keys_tie.
  - intros -> pre a post Hl Ha. rewrite Hl in Hsorted.
    apply sorted_tail in Hsorted. rewrite Forall_forall in *.
    intros b0 Hb q Hq. specialize (Hsorted b0 Hb).
    unfold precedes, num_lt, num_eq, price_key in Hsorted.
    rewrite Ha, Hq in Hsorted. simpl in Hsorted.
    destruct Hsorted as [H | [H _]]; discriminate.
Qed.

Lemma price_sort_ordered_witness :
  Forall sound_keys [priced "A" 10 0.1; unpriced "B" 0.2; priced "C" 10 0.05] /\
  StronglySorted (precedes price_asc)
    (arrange price_asc (num 2) [priced "A" 10 0.1; unpriced "B" 0.2; priced "C" 10 0.05]) /\
  (exists sorted,
      Permutation sorted [priced "A" 10 0.1; unpriced "B" 0.2; priced "C" 10 0.05] /\
      StronglySorted (precedes price_asc) sorted /\
      (forall pk sk,
          filter (same_keys pk sk) sorted
          = filter (same_keys pk sk)
              [priced "A" 10 0.1; unpriced "B" 0.2; priced "C" 10 0.05]) /\
      arrange price_asc (num 2) [priced "A" 10 0.1; unpriced "B" 0.2; priced "C" 10 0.05]
      = slice0 sorted (num 2)) /\
  (price_asc = price_asc ->
   missing_price_last
     (arrange price_asc (num 2) [priced "A" 10 0.1; unpriced "B" 0.2; priced "C" 10 0.05])).
Proof.
  assert (H : Forall sound_keys [priced "A" 10 0.1; unpriced "B" 0.2; priced "C" 10 0.05]).
  { repeat constructor; discriminate. }
  split; [exact H | ].
  exact (price_sort_ordered price_asc (num 2) _ H).
Defined.

(** ** The default mode, as amended *)




(** ** The detail join, from the reply to the answer *)






(** ** Failures of the search, path by path *)

Lemma POST_500 {prims : JsPrims} (env : process_env) (w : world) (hist t : list entry)
  (b : json) (resp : response) :
  missing_query_text (query_text (destructure b)) = false ->
  run w hist (POST env (Fulfilled b)) = (t, inl resp) ->
  status resp = 500%Z ->
  exists e,
    resp = failure e /\
    (ending_error t = Some e \/
     exists raw, index_replies t = [raw] /\ reply_error raw = Some e).
Proof.
  intros Hq Hrun Hst.
  destruct (POST_outcome env w hist b Hq) as (t' & resp' & Hrun' & H).
  rewrite Hrun in Hrun'. injection Hrun' as <- <-.
  destruct (w unit hist getRedisClient) as [u | e].
  2:{ destruct H as [-> ->]. exists e. split; [reflexivity | now left]. }
  destruct (w (list number) _ _) as [emb | e].
  2:{ destruct H as [-> ->]. exists e. split; [reflexivity | now left]. }
  destruct H as (tq & tl & _ & _ & _ & _ & _ & _ & Hi & [(e & _ & _ & He & ->) | (raw & Hr & H)]).
  - exists e. split; [reflexivity | now left].
  - destruct (reply_error raw) as [e | ] eqn:Hre.
    + exists e. split; [exact H | ]. right. exists raw. split; [now rewrite Hi | exact Hre].
    + destruct H as [-> _]. discriminate.
Qed.

(** C8, as amended.  A search that fails is answered with status 500,
    the fixed message [Failed to query Redis] and, in [details], the
    text of the error that ended the handling.  So it is when the body
    cannot be read, when the client cannot be obtained, when the
    embedding provider rejects the call, and when the index rejects the
    query a second time, without the dialect flag: the error of that
    second attempt is the one returned, the first being swallowed.  A
    reply of the index that is not of the expected shape ends the
    handling in the same way, with the text of the TypeError.  And a
    500 answer has no other source. *)
Theorem failure_response_carries_details {prims : JsPrims} (env : process_env)
  (w : world) (hist : list entry) (b : json) :
  missing_query_text (query_text (destructure b)) = false ->
  (forall e, run w hist (POST env (Rejected e)) = ([], inl (failure e))) /\
  (forall e,
      w unit hist getRedisClient = Rejected e ->
      run w hist (POST env (Fulfilled b))
      = ([Called getRedisClient (Rejected e)], inl (failure e))) /\
  (forall u e,
      w unit hist getRedisClient = Fulfilled u ->
      w (list number) (hist ++ [Called getRedisClient (Fulfilled u)])%list
        (embeddings_create (embedModel env) [expandedQuery (destructure b)] (embDim env))
      = Rejected e ->
      run w hist (POST env (Fulfilled b))
      = ([Called getRedisClient (Fulfilled u);
          Called (embeddings_create (embedModel env) [expandedQuery (destructure b)]
                    (embDim env)) (Rejected e)],
         inl (failure e))) /\
  (forall u emb e1 e2,
      w unit hist getRedisClient = Fulfilled u ->
      w (list number) (hist ++ [Called getRedisClient (Fulfilled u)])%list
        (embeddings_create (embedModel env) [expandedQuery (destructure b)] (embDim env))
      = Fulfilled emb ->
      w reply
        ((hist ++ [Called getRedisClient (Fulfilled u)])
         ++ [Called (embeddings_create (embedModel env) [expandedQuery (destructure b)]
                       (embDim env)) (Fulfilled emb)])%list
        (sendCommand (argsWithDialect env (destructure b) (Float32Buffer emb)))
      = Rejected e1 ->
      w reply
        (((hist ++ [Called getRedisClient (Fulfilled u)])
          ++ [Called (embeddings_create (embedModel env) [expandedQuery (destructure b)]
                        (embDim env)) (Fulfilled emb)])
         ++ [Called (sendCommand (argsWithDialect env (destructure b) (Float32Buffer emb)))
               (Rejected e1)])%list
        (sendCommand (argsNoDialect env (destructure b) (Float32Buffer emb)))
      = Rejected e2 ->
      run w hist (POST env (Fulfilled b))
      = ([Called getRedisClient (Fulfilled u);
          Called (embeddings_create (embedModel env) [expandedQuery (destructure b)]
                    (embDim env)) (Fulfilled emb);
          Called (sendCommand (argsWithDialect env (destructure b) (Float32Buffer emb)))
            (Rejected e1);
          Called (sendCommand (argsNoDialect env (destructure b) (Float32Buffer emb)))
            (Rejected e2)],
         inl (failure e2))) /\
  (forall t resp raw e,
      run w hist (POST env (Fulfilled b)) = (t, inl resp) ->
      index_replies t = [raw] ->
      reply_error raw = Some e ->
      resp = failure e) /\
  (forall t resp,
      run w hist (POST env (Fulfilled b)) = (t, inl resp) ->
      status resp = 500%Z ->
      exists e,
        resp = failure e /\
        (ending_error t = Some e \/
         exists raw, index_replies t = [raw] /\ reply_error raw = Some e)).
Proof.
  intros Hq.
  split; [intros e; apply run_POST_rejected | ].
  split.
  { intros e He. rewrite run_POST, run_POST_body by assumption. cbv zeta.
    rewrite He. reflexivity. }
  split.
  { intros u e Hu He. rewrite run_POST, run_POST_body by assumption. cbv zeta.
    rewrite Hu, He. reflexivity. }
  split.
  { intros u emb e1 e2 Hu Hemb H1 H2.
    rewrite run_POST, run_POST_body by assumption. cbv zeta.
    rewrite Hu, Hemb, run_query_index. cbv zeta. rewrite H1, H2. reflexivity. }
  split.
  { intros t resp raw e Hrun Hraw Hre.
    destruct (POST_replied env w hist t _ resp raw Hrun Hraw) as (b' & _ & _ & H).
    now rewrite Hre in H. }
  intros t resp Hrun Hst. eapply POST_500; eauto.
Qed.

Lemma failure_response_carries_details_witness :
  missing_query_text (query_text (destructure (text_query []))) = false /\
  failing_provider_search (text_query [])
  = ([Called getRedisClient (Fulfilled tt);
      Called (embeddings_create (embedModel no_env)
                [expandedQuery (prims := sample_prims) (destructure (text_query []))]
                (embDim (prims := sample_prims) no_env)) (Rejected quota_error)],
     inl (failure quota_error)).
Proof.
  assert (H : missing_query_text (query_text (destructure (text_query []))) = false)
    by reflexivity.
  split; [exact H | ].
  exact (proj1 (proj2 (proj2
           (failure_response_carries_details (prims := sample_prims) no_env
              (sample_world (Rejected quota_error) (Fulfilled two_docs)
                 (Fulfilled two_docs) no_detail)
              [] (text_query []) H)))
           tt quota_error eq_refl eq_refl).
Defined.

(** ** The product lookup with both parameters *)

(** C10.  When both [code] and [id] are supplied, the lookup is answered
    as follows.  If the client cannot be obtained, with status 500 and
    no command.  Otherwise with status 200 after the one command
    [JSON.GET] of the prefix and [id], [code] playing no part in the
    key; the product of the answer is what the store replied to that
    command (the parsed text, or [null] when the call failed, the key is
    not stored or the text is not JSON), [found] tells whether it is
    truthy, and the [code] of the answer is that product's own [code]
    when truthy, else its own [id] when truthy, and only else the [code]
    of the caller. *)
Theorem lookup_by_id_echoes_stored_code {prims : JsPrims} (env : process_env)
  (w : world) (hist : list entry) (params : list (string * string)) (c i : string) :
  search_param "code" params = Some c ->
  search_param "id" params = Some i ->
  run w hist (GET env params) =
  match w unit hist getRedisClient with
  | Rejected e =>
      ([Called getRedisClient (Rejected e)],
       inl {| status := 500; body := ErrorPayload "Failed to fetch product" None |})
  | Fulfilled u =>
      ([Called getRedisClient (Fulfilled u);
        Called (sendCommand [AStr "JSON.GET"; AStr (JSON_PREFIX env ++ i)])
          (w reply (hist ++ [Called getRedisClient (Fulfilled u)])%list
             (sendCommand [AStr "JSON.GET"; AStr (JSON_PREFIX env ++ i)]))],
       inl {| status := 200;
              body :=
                ProductPayload
                  (truthy (stored_product
                             (w reply (hist ++ [Called getRedisClient (Fulfilled u)])%list
                                (sendCommand [AStr "JSON.GET";
                                              AStr (JSON_PREFIX env ++ i)]))))
                  (match own_code
                           (stored_product
                              (w reply (hist ++ [Called getRedisClient (Fulfilled u)])%list
                                 (sendCommand [AStr "JSON.GET";
                                               AStr (JSON_PREFIX env ++ i)]))) with
                   | Some v => v
                   | None => JStr c
                   end)
                  (stored_product
                     (w reply (hist ++ [Called getRedisClient (Fulfilled u)])%list
                        (sendCommand [AStr "JSON.GET"; AStr (JSON_PREFIX env ++ i)]))) |})
  end.
Proof.
  intros Hc Hi. pose proof (search_param_not_empty _ _ _ Hc) as Hne.
  rewrite run_GET_keyed by (rewrite Hc, Hi; discriminate). cbv zeta.
  rewrite Hc, Hi. cbn [lookup_id].
  destruct (w unit hist getRedisClient) as [u | e]; [ | reflexivity].
  now rewrite codeOut_own.
Qed.

Lemma lookup_by_id_echoes_stored_code_witness :
  search_param "code" [("code", "X1"); ("id", "42")] = Some "X1" /\
  search_param "id" [("code", "X1"); ("id", "42")] = Some "42" /\
  sample_lookup [("code", "X1"); ("id", "42")]
  = ([Called getRedisClient (Fulfilled tt);
      Called (sendCommand [AStr "JSON.GET"; AStr "prod:42"])
        (Fulfilled (RStr (one_field_text "code" "LEG-7")))],
     inl {| status := 200;
            body := ProductPayload true (JStr "LEG-7") (JObj [("code", JStr "LEG-7")]) |}).
Proof.
  split; [reflexivity | ]. split; [reflexivity | ].
  exact (lookup_by_id_echoes_stored_code (prims := sample_prims) no_env
           (sample_world a_vector (Fulfilled two_docs) (Fulfilled two_docs) one_product)
           [] [("code", "X1"); ("id", "42")] "X1" "42" eq_refl eq_refl).
Defined.

(** ** The schema of [generate_ui], as amended *)

Lemma accepts_anyOf (by_ref : string -> json -> bool) (subs : list json) (node : json) :
  accepts by_ref (JObj [("anyOf", JArr subs)]) node
  = existsb (fun s => accepts by_ref s node) subs.
Proof.
  rewrite accepts_JObj. cbn [forallb fst snd]. unfold keyword_ok.
  cbn [String.eqb Ascii.eqb Bool.eqb andb]. apply andb_true_r.
Qed.

(** The reference [#/$defs/component] resolves to the union of the
    references of the registry, unless a component is called
    [component]. *)
Lemma resolve_component (components : list component) :
  ~ In "component" (map name components) ->
  resolve (tool_parameters components) "#/$defs/component"
  = Some (JObj [("anyOf", JArr (componentsList components))]).
Proof.
  intros Hn.
  cbn [resolve append split_on Ascii.eqb Bool.eqb map unescape andb
         walk tool_parameters generateUITool get_prop obj_get String.eqb].
  rewrite obj_get_spread, obj_get_rev by (apply definitions_NoDup; constructor).
  unfold componentsDefinitions. now rewrite definitions_keep.
Qed.

(** C4, as amended.  For a registry whose names are unique, are plain
    tokens of a JSON pointer and are neither [component] nor
    [__proto__], and whose components declare each parameter once and
    none called [name]: the reference of each component resolves to an
    object schema with the literal [name] and exactly the declared
    parameters as properties, all required, and nothing else allowed;
    that schema accepts exactly the valid instances of the component;
    the reference [#/$defs/component], which the parameters of a
    container use for its children, resolves to the union of the
    references of the registry; so a call, and a node read through
    [#/$defs/component], is accepted exactly when the node is a valid
    instance of a registered component; and an instance with a field
    that its component does not declare, or with a name that is not
    registered, is rejected. *)
Theorem schema_round_trip (components : list component) (fuel : nat) :
  wf_registry components ->
  ~ In "component" (map name components) ->
  resolve (tool_parameters components) "#/$defs/component"
  = Some (JObj [("anyOf", JArr (componentsList components))]) /\
  (forall c, In c components ->
     resolve (tool_parameters components) ("#/$defs/" ++ name c)
     = Some (definition_of c) /\
     definition_of c =
     JObj [("type", JStr "object");
           ("properties",
            JObj (("name", JObj [("type", JStr "string"); ("enum", JArr [JStr (name c)])])
                  :: parameters c));
           ("required", JArr (JStr "name" :: map JStr (obj_keys (parameters c))));
           ("additionalProperties", JBool false)]) /\
  (forall c by_ref inst,
      In c components ->
      (accepts by_ref (definition_of c) inst = true
       <-> valid_instance (accepts by_ref) c inst)) /\
  (forall node,
      accepts_call (S fuel) components (JObj [("component", node)]) = true
      <-> exists c,
          In c components /\
          valid_instance (accepts (by_ref_in (tool_parameters components) fuel)) c node) /\
  (forall node,
      by_ref_in (tool_parameters components) (S (S fuel)) "#/$defs/component" node = true
      <-> exists c,
          In c components /\
          valid_instance (accepts (by_ref_in (tool_parameters components) fuel)) c node) /\
  (forall c kv k,
      In c components ->
      obj_get "name" kv = Some (JStr (name c)) ->
      In k (obj_keys kv) -> k <> "name" -> ~ In k (obj_keys (parameters c)) ->
      accepts_call (S fuel) components (JObj [("component", JObj kv)]) = false) /\
  (forall kv n,
      obj_get "name" kv = Some (JStr n) ->
      ~ In n (map name components) ->
      accepts_call (S fuel) components (JObj [("component", JObj kv)]) = false).
Proof.
  intros Hwf Hcomp. pose proof Hwf as [Hnd Hall]. rewrite Forall_forall in Hall.
  assert (Hlist : forall node,
             existsb (fun s => accepts (by_ref_in (tool_parameters components) (S fuel))
                                 s node)
               (componentsList components) = true
             <-> exists c,
                 In c components /\
                 valid_instance (accepts (by_ref_in (tool_parameters components) fuel))
                   c node).
  { intros node. rewrite existsb_exists. unfold componentsList. split.
    - intros (s & Hs & Hacc). apply in_map_iff in Hs as (c & <- & Hc).
      exists c. split; [exact Hc | ].
      rewrite accepts_reference in Hacc. cbn [by_ref_in] in Hacc.
      rewrite (resolve_definition components Hwf c Hc) in Hacc.
      now apply accepts_definition in Hacc; auto.
    - intros (c & Hc & Hv). eexists. split; [apply in_map; exact Hc | ].
      rewrite accepts_reference. cbn [by_ref_in].
      rewrite (resolve_definition components Hwf c Hc).
      now apply accepts_definition; auto. }
  assert (Hunion : forall node,
             accepts_call (S fuel) components (JObj [("component", node)]) = true
             <-> exists c,
                 In c components /\
                 valid_instance (accepts (by_ref_in (tool_parameters components) fuel))
                   c node).
  { intros node. unfold accepts_call, validate. rewrite accepts_root. apply Hlist. }
  split; [now apply resolve_component | ].
  split; [ | split; [ | split; [exact Hunion | split; [ | split]]]].
  - intros c Hc. split; [now apply resolve_definition | ].
    now apply definition_of_properties, Hall.
  - intros c by_ref inst Hc. now apply accepts_definition, Hall.
  - intros node. cbn [by_ref_in]. rewrite (resolve_component components Hcomp).
    rewrite accepts_anyOf. apply Hlist.
  - intros c kv k Hc Hname Hk Hk' Hundeclared.
    apply not_true_iff_false. intros H. apply Hunion in H as (c' & Hc' & Hv).
    destruct Hv as (kv' & [= <-] & Hname' & _ & Hclosed).
    rewrite Hname in Hname'. injection Hname' as E.
    assert (c = c') by (eapply NoDup_name_inj; eauto). subst c'.
    destruct (Hclosed k Hk); contradiction.
  - intros kv n Hname Hn.
    apply not_true_iff_false. intros H. apply Hunion in H as (c' & Hc' & Hv).
    destruct Hv as (kv' & [= <-] & Hname' & _).
    rewrite Hname in Hname'. injection Hname' as ->.
    apply Hn. now apply in_map.
Qed.

Lemma schema_round_trip_witness :
  wf_registry sample_components /\
  ~ In "component" (map name sample_components) /\
  resolve (tool_parameters sample_components) "#/$defs/component"
  = Some (JObj [("anyOf", JArr (componentsList sample_components))]) /\
  (forall node,
      accepts_call 3 sample_components (JObj [("component", node)]) = true
      <-> exists c,
          In c sample_components /\
          valid_instance (accepts (by_ref_in (tool_parameters sample_components) 2))
            c node) /\
  (forall node,
      by_ref_in (tool_parameters sample_components) 4 "#/$defs/component" node = true
      <-> exists c,
          In c sample_components /\
          valid_instance (accepts (by_ref_in (tool_parameters sample_components) 2))
            c node).
Proof.
  assert (Hwf : wf_registry sample_components).
  { split.
    - repeat constructor; simpl; intuition discriminate.
    - repeat constructor; simpl; try discriminate; intuition discriminate. }
  assert (Hc : ~ In "component" (map name sample_components))
    by (simpl; intuition discriminate).
  split; [exact Hwf | ]. split; [exact Hc | ].
  pose proof (schema_round_trip sample_components 2 Hwf Hc) as H.
  split; [exact (proj1 H) | ].
  split; [exact (proj1 (proj2 (proj2 (proj2 H)))) | ].
  exact (proj1 (proj2 (proj2 (proj2 (proj2 H))))).
Defined.

(** C4 as stated fails for a component that declares a parameter called
    [name]: the literal of its name is replaced by the declared
    fragment, and an instance whose name is not registered is
    accepted. *)
Lemma name_parameter_admits_any_name :
  map name name_clash = ["card"] /\
  ~ In "zzz" (map name name_clash) /\
  accepts_call 1 name_clash (call_with (JObj [("name", JStr "zzz")])) = true.
Proof.
  split; [reflexivity | ]. split; [simpl; intuition discriminate | ].
  vm_compute. reflexivity.
Qed.

(** ** The shape of a sanitized text *)

(** X1.  Whatever it is given, and for every limit of at least one
    character, [sanitize] returns a text that is not empty, is no longer
    than the limit, holds no NUL character and does not start with white
    space.  Every white-space character in it is a space, and what
    follows a space is a character that is not white space, or the end
    of the text.  A space at the end can only be left by the cut at the
    limit: a result shorter than the limit is trimmed. *)
Theorem sanitize_shape {prims : JsPrims} (t : value) (max : nat) :
  (1 <= max)%nat ->
  sanitize t max <> "" /\
  (String.length (sanitize t max) <= max)%nat /\
  no_nul (sanitize t max) = true /\
  single_spaced (sanitize t max) = true /\
  starts_with_space (sanitize t max) = false /\
  ((String.length (sanitize t max) < max)%nat -> trim (sanitize t max) = sanitize t max).
Proof.
  intros Hmax.
  destruct (sanitize_limits t max Hmax) as (H1 & H2 & H3 & H4 & H5).
  repeat (split; [assumption | ]).
  intros Hlen. now destruct (sanitize_uncut t max Hlen) as (_ & Htrim & _).
Qed.

Lemma sanitize_shape_witness :
  (1 <= 4)%nat /\
  sanitize (prims := sample_prims) (Some (JStr "  a   b c ")) 4 = "a b " /\
  sanitize (prims := sample_prims) (Some (JStr "  a   b c ")) 4 <> "" /\
  (String.length (sanitize (prims := sample_prims) (Some (JStr "  a   b c ")) 4) <= 4)%nat /\
  no_nul (sanitize (prims := sample_prims) (Some (JStr "  a   b c ")) 4) = true /\
  single_spaced (sanitize (prims := sample_prims) (Some (JStr "  a   b c ")) 4) = true /\
  starts_with_space (sanitize (prims := sample_prims) (Some (JStr "  a   b c ")) 4) = false /\
  (1 <= 9)%nat /\
  sanitize (prims := sample_prims) (Some (JStr "  a   b c ")) 9 = "a b c" /\
  trim (sanitize (prims := sample_prims) (Some (JStr "  a   b c ")) 9)
  = sanitize (prims := sample_prims) (Some (JStr "  a   b c ")) 9.
Proof.
  assert (H4 : (1 <= 4)%nat) by lia.
  assert (H9 : (1 <= 9)%nat) by lia.
  pose proof (sanitize_shape (prims := sample_prims) (Some (JStr "  a   b c ")) 4 H4)
    as (A1 & A2 & A3 & A4 & A5 & _).
  pose proof (sanitize_shape (prims := sample_prims) (Some (JStr "  a   b c ")) 9 H9)
    as (_ & _ & _ & _ & _ & B).
  split; [exact H4 | ]. split; [reflexivity | ].
  split; [exact A1 | ]. split; [exact A2 | ]. split; [exact A3 | ].
  split; [exact A4 | ]. split; [exact A5 | ].
  split; [exact H9 | ]. split; [reflexivity | ].
  apply B. vm_compute. lia.
Defined.

(** ** The detail lookups of a search *)

(** X6.  In a search that is answered with items, the index replied
    once, and the detail lookups are read off that reply: with
    [include_details] truthy, one [JSON.GET] of the prefixed code for
    every candidate of the reply that has a code, in the order of the
    reply, whether the candidate is returned or not; with
    [include_details] falsy, none.  Every item of the answer is one of
    the candidates, up to its payload, and there are no more items than
    candidates. *)
Theorem lookups_cover_all_candidates {prims : JsPrims} (env : process_env) (w : world)
  (hist t : list entry) (req_json : outcome json) (resp : response) (items : list row) :
  run w hist (POST env req_json) = (t, inl resp) ->
  items_of resp = Some items ->
  exists b raw,
    req_json = Fulfilled b /\
    index_replies t = [raw] /\
    lookups t = (if truthy (include_details (destructure b))
                 then map (lookup_command env) (lookup_codes (candidates raw))
                 else []) /\
    Forall (fun item => In (clear_product item) (candidates raw)) items /\
    (List.length items <= List.length (candidates raw))%nat.
Proof.
  intros Hrun Hitems.
  destruct (POST_answer env w hist t req_json resp items Hrun Hitems)
    as (b & raw & -> & Hraw & _ & -> & Hl).
  exists b, raw. split; [reflexivity | ]. split; [exact Hraw | ]. split; [exact Hl | ].
  unfold search_response, items_of in Hitems. cbn [body] in Hitems.
  injection Hitems as <-.
  set (rows := joined _ (candidates raw) (lookup_outcomes t)).
  assert (Hrows : map clear_product rows = candidates raw)
    by (unfold rows; now rewrite joined_clear, candidates_clear).
  split.
  - apply Forall_forall. intros item Hin. rewrite <- Hrows. apply in_map.
    unfold arrange in Hin. apply slice0_In in Hin.
    eapply Permutation_in; [apply sort_perm | exact Hin].
  - rewrite <- Hrows, length_map. unfold arrange. rewrite slice0_length, sort_length.
    apply slice_end_le.
Qed.

Lemma lookups_cover_all_candidates_witness :
  exists t resp items b raw,
    sample_search two_docs no_detail [("k", JNum (num 1))] = (t, inl resp) /\
    items_of resp = Some items /\
    List.length items = 1%nat /\
    Fulfilled (text_query [("k", JNum (num 1))]) = Fulfilled b /\
    index_replies t = [raw] /\
    lookups t = (if truthy (include_details (destructure b))
                 then map (lookup_command no_env)
                        (lookup_codes (candidates (prims := sample_prims) raw))
                 else []) /\
    List.length (lookups t) = 2%nat /\
    Forall (fun item => In (clear_product item) (candidates (prims := sample_prims) raw))
           items /\
    (List.length items <= List.length (candidates (prims := sample_prims) raw))%nat.
Proof.
  pose (X := sample_search two_docs no_detail [("k", JNum (num 1))]).
  pose (resp := match snd X with
                | inl r => r
                | inr _ => {| status := 0; body := ErrorPayload "" None |}
                end).
  pose (items := match items_of resp with Some i => i | None => [] end).
  assert (H1 : X = (fst X, inl resp)) by (vm_compute; reflexivity).
  assert (H2 : items_of resp = Some items) by (vm_compute; reflexivity).
  destruct (lookups_cover_all_candidates (prims := sample_prims) no_env
              (sample_world a_vector (Fulfilled two_docs) (Fulfilled two_docs) no_detail)
              [] _ _ _ _ H1 H2) as (b & raw & Hb & Hr & Hl & Hin & Hlen).
  exists (fst X), resp, items, b, raw.
  split; [exact H1 | ]. split; [exact H2 | ]. split; [reflexivity | ].
  split; [exact Hb | ]. split; [exact Hr | ]. split; [exact Hl | ].
  split; [reflexivity | ]. auto.
Defined.

(** ** Chart keys *)

Lemma formatKey_length (key : string) :
  String.length (formatKey key) = String.length key.
Proof.
  rewrite formatKey_map. apply string_map_length.
Qed.

(** X20.  A chart key consists of lower-case letters, digits and
    underscores only, and making a key of a key changes nothing.  For a
    label of ASCII characters the key has the length of the label. *)
Theorem formatKey_shape (key : string) :
  string_forall is_key_char (formatKey key) = true /\
  formatKey (formatKey key) = formatKey key /\
  (string_forall is_ascii_unit key = true ->
   String.length (formatKey key) = String.length key).
Proof.
  split; [ | split].
  - rewrite formatKey_map. apply string_map_forall, key_char_ok.
  - rewrite !formatKey_map, string_map_map. apply string_map_ext, key_char_fixed.
  - intros _. apply formatKey_length.
Qed.

Lemma formatKey_shape_witness :
  formatKey "Q1 Sales-EU" = "q1_sales_eu" /\
  string_forall is_key_char (formatKey "Q1 Sales-EU") = true /\
  formatKey (formatKey "Q1 Sales-EU") = formatKey "Q1 Sales-EU" /\
  string_forall is_ascii_unit "Q1 Sales-EU" = true /\
  String.length (formatKey "Q1 Sales-EU") = String.length "Q1 Sales-EU".
Proof.
  pose proof (formatKey_shape "Q1 Sales-EU") as (A & B & C).
  split; [reflexivity | ]. split; [exact A | ]. split; [exact B | ].
  split; [reflexivity | ]. apply C. reflexivity.
Defined.

(** ** The order of the calls of a search *)

(** X24.  The calls of a search come in stages, in this order: the
    client, then one embedding, then one or two index queries, then the
    detail lookups.  A stage is entered only when the one before it
    succeeded.  A body that cannot be read, or has no query text, calls
    nothing.  Otherwise the client is asked for; if that is refused,
    nothing follows.  If it is obtained, the one embedding of the
    expanded query is asked for; if that is refused, nothing follows.
    If it is fulfilled, the index is queried, once or twice, and
    whatever follows the queries is a detail lookup, made only when the
    index has replied. *)
Theorem search_calls_are_staged {prims : JsPrims} (env : process_env) (w : world)
  (hist : list entry) (req_json : outcome json) :
  match req_json with
  | Rejected _ => fst (run w hist (POST env req_json)) = []
  | Fulfilled b =>
      if missing_query_text (query_text (destructure b))
      then fst (run w hist (POST env req_json)) = []
      else
        match w unit hist getRedisClient with
        | Rejected e =>
            fst (run w hist (POST env req_json)) = [Called getRedisClient (Rejected e)]
        | Fulfilled u =>
            match w (list number) (hist ++ [Called getRedisClient (Fulfilled u)])%list
                    (embeddings_create (embedModel env) [expandedQuery (destructure b)]
                       (embDim env)) with
            | Rejected e =>
                fst (run w hist (POST env req_json))
                = [Called getRedisClient (Fulfilled u);
                   Called (embeddings_create (embedModel env)
                             [expandedQuery (destructure b)] (embDim env)) (Rejected e)]
            | Fulfilled emb =>
                exists tq tl,
                  fst (run w hist (POST env req_json))
                  = (Called getRedisClient (Fulfilled u)
                     :: Called (embeddings_create (embedModel env)
                                  [expandedQuery (destructure b)] (embDim env))
                          (Fulfilled emb)
                     :: tq ++ tl)%list /\
                  tq <> [] /\
                  (List.length tq <= 2)%nat /\
                  forallb is_index_query tq = true /\
                  forallb is_lookup tl = true /\
                  (tl <> [] -> exists raw, index_replies tq = [raw])
            end
        end
  end.
Proof.
  destruct req_json as [b | e].
  2:{ now rewrite run_POST_rejected. }
  destruct (missing_query_text (query_text (destructure b))) eqn:Hq.
  { now rewrite run_POST_missing by assumption. }
  destruct (POST_outcome env w hist b Hq) as (t & resp & -> & H). cbn [fst].
  destruct (w unit hist getRedisClient) as [u | e].
  2:{ now destruct H as [-> _]. }
  destruct (w (list number) _ _) as [emb | e].
  2:{ now destruct H as [-> _]. }
  destruct H as (tq & tl & -> & Hn & Hlen & Hqs & Hls & _ & _ & H).
  exists tq, tl.
  split; [reflexivity | ]. split; [exact Hn | ]. split; [exact Hlen | ].
  split; [exact Hqs | ]. split; [exact Hls | ].
  destruct H as [(e & _ & -> & _) | (raw & Hr & _)].
  - intros H. now contradiction H.
  - intros _. now exists raw.
Qed.
